(** * evaluate-sv-predictions2: matching engine and concordance statistics

    A shallow embedding of [src/evaluation/evaluate-sv-predictions2.py]
    (CLEVER's evaluation script).  Python integers are [Z] (or [nat] where
    the code only counts or indexes), Python floats are exact rationals
    [Qc] together with a NaN value, dictionaries are [gmap], sets are
    [gset], and exceptions are an explicit error monad. *)

From Stdlib Require Import Ascii QArith Qcanon Qcabs.
From stdpp Require Import sorting numbers strings gmap list.

Close Scope Qc_scope.
Close Scope Q_scope.
Local Open Scope Z_scope.

(** ** Exceptions *)

Inductive exn :=
  | AssertionError | KeyError | IndexError | TypeError | ValueError | SystemExit.

Inductive res (A : Type) :=
  | Ok (a : A)
  | Raise (e : exn).
Arguments Ok {A} a.
Arguments Raise {A} e.

#[global] Instance res_ret : MRet res := λ A a, Ok a.
#[global] Instance res_bind : MBind res := λ A B f m,
  match m with Ok a => f a | Raise e => Raise e end.
#[global] Instance res_fmap : FMap res := λ A B f m,
  match m with Ok a => Ok (f a) | Raise e => Raise e end.

#[global] Instance exn_eq_dec : EqDecision exn.
Proof. solve_decision. Defined.
#[global] Instance res_eq_dec `{EqDecision A} : EqDecision (res A).
Proof. solve_decision. Defined.

(** [assert c] *)
Definition py_assert (c : bool) : res unit :=
  if c then Ok tt else Raise AssertionError.

(** ** Floats

    A Python float is modelled by its exact rational value; [PyNaN] is
    [float('nan')].  Every float the modelled code computes is a sum,
    difference, product or quotient of integers and halves of integers. *)

Inductive pyfloat :=
  | PyNaN
  | PyFloat (q : Qc).

#[global] Instance pyfloat_eq_dec : EqDecision pyfloat.
Proof. solve_decision. Defined.

(** [math.isnan] *)
Definition isnan (v : pyfloat) : bool :=
  match v with PyNaN => true | PyFloat _ => false end.

(** [nan_div(a,b)]: Python raises [ZeroDivisionError] exactly when the
    divisor is zero, and the handler returns NaN. *)
Definition nan_div (a b : Qc) : pyfloat :=
  if decide (b = 0%Qc) then PyNaN else PyFloat (a / b)%Qc.

(** [f_measure(recall, precision)]; [None] is Python's [None]. *)
Definition f_measure (recall precision : option pyfloat) : option pyfloat :=
  match recall, precision with
  | None, _ | _, None => None
  | Some r, Some p =>
      if isnan r || isnan p then Some PyNaN
      else match r, p with
           | PyFloat r, PyFloat p =>
               if decide ((r + p)%Qc = 0%Qc) then Some PyNaN
               else Some (PyFloat (2 * (r * p) / (r + p))%Qc)
           | _, _ => Some PyNaN
           end
  end.

(** ** Genotype encoding *)

(** [int(c)] for a one-character string. *)
Definition int_of_char (c : ascii) : res nat :=
  let n := nat_of_ascii c in
  if bool_decide (48 ≤ n ≤ 57)%nat then Ok (n - 48)%nat else Raise ValueError.

(** [s[i]] for [0 <= i < len(s)]. *)
Definition str_index (s : string) (i : nat) : res ascii :=
  match String.get i s with
  | Some c => Ok c
  | None => Raise IndexError
  end.

(** The loop of [index_from_type]: [index += 3**i * int(genostring[len-i-1])]
    for the values [i] of [range(len(genostring))]. *)
Fixpoint index_from_type_loop (genostring : string) (range : list nat)
    (index : nat) : res nat :=
  match range with
  | [] => Ok index
  | i :: range =>
      c ← str_index genostring (String.length genostring - i - 1)%nat;
      d ← int_of_char c;
      index_from_type_loop genostring range (index + 3 ^ i * d)%nat
  end.

(** [index_from_type(genostring)]; the genotype of an untyped record is
    [None], on which [len] raises [TypeError]. *)
Definition index_from_type (genostring : option string) : res nat :=
  match genostring with
  | None => Raise TypeError
  | Some g => index_from_type_loop g (seq 0 (String.length g)) 0%nat
  end.

(** The global [typedict]. *)
Definition typedict : gmap string nat :=
  list_to_map
    [("000", 0); ("001", 1); ("002", 2); ("010", 3); ("011", 4); ("012", 5);
     ("020", 6); ("021", 7); ("022", 8); ("100", 9); ("101", 10); ("102", 11);
     ("110", 12); ("111", 13); ("112", 14); ("120", 15); ("121", 16);
     ("122", 17); ("200", 18); ("201", 19); ("202", 20); ("210", 21);
     ("211", 22); ("212", 23); ("220", 24); ("221", 25); ("222", 26)]%nat.

(** [idx_to_triotype = dict((i,triotype) for triotype, i in typedict.items())],
    the decoder the reporting functions build. *)
Definition idx_to_triotype : gmap nat string :=
  list_to_map ((λ '(triotype, i), (i, triotype)) <$> map_to_list typedict).

(** The 3-character strings over the alphabet 0, 1, 2. *)
Definition ternary (c : ascii) : Prop := c ∈ ["0"; "1"; "2"]%char.
Definition genotype_string (s : string) : Prop :=
  ∃ m f c, s = String m (String f (String c EmptyString))
           ∧ ternary m ∧ ternary f ∧ ternary c.

(** The digit a ternary character stands for. *)
Definition ternary_value (c : ascii) : nat := (nat_of_ascii c - 48)%nat.

(** ** Per-variant outcomes: [class VariationStatistics] *)

(** A hit is the tuple [(index, length_diff, offset, typing)].  The length
    difference is an integer; the offset is a float for deletions (a
    distance of centre points) and an integer for insertions. *)
Definition hit : Type := nat * Z * Qc * option nat.

Record VariationStatistics := {
  vs_chromosome : string;
  vs_index : nat;
  vs_typing : option nat;
  vs_hits : list hit;
  vs_mix_hits : list hit;
}.

(** [VariationStatistics(chromosome, index, typing)] *)
Definition VariationStatistics_init (chromosome : string) (index : nat)
    (typing : option nat) : VariationStatistics :=
  {| vs_chromosome := chromosome; vs_index := index; vs_typing := typing;
     vs_hits := []; vs_mix_hits := [] |}.

Definition add_hit (self : VariationStatistics) (index : nat) (length_diff : Z)
    (offset : Qc) (typing : option nat) (mix_hit : bool) : VariationStatistics :=
  if mix_hit then
    {| vs_chromosome := vs_chromosome self; vs_index := vs_index self;
       vs_typing := vs_typing self; vs_hits := vs_hits self;
       vs_mix_hits := vs_mix_hits self ++ [(index, length_diff, offset, typing)] |}
  else
    {| vs_chromosome := vs_chromosome self; vs_index := vs_index self;
       vs_typing := vs_typing self;
       vs_hits := vs_hits self ++ [(index, length_diff, offset, typing)];
       vs_mix_hits := vs_mix_hits self |}.

Definition is_hit (self : VariationStatistics) : bool :=
  bool_decide (0 < length (vs_hits self))%nat.

Definition is_mix_hit (self : VariationStatistics) : bool :=
  bool_decide (0 < length (vs_mix_hits self))%nat.

(** Python's [max(a, b)]: the first argument unless the second is larger. *)
Definition py_max (a b : Qc) : Qc := if decide (a < b)%Qc then b else a.

(** [score = max(length_diff, offset)] *)
Definition hit_score (h : hit) : Qc :=
  let '(index, length_diff, offset, typing) := h in
  py_max (Qc_of_Z length_diff) offset.

(** [score < best_score], where [None] stands for [float('inf')]. *)
Definition score_lt (score : Qc) (best_score : option Qc) : bool :=
  match best_score with
  | None => true
  | Some b => bool_decide (score < b)%Qc
  end.

(** The loop of [get_best_hit]; [i] is the counter of [enumerate]. *)
Fixpoint get_best_hit_loop (hits : list hit) (i : nat)
    (best_score : option Qc) (best_index : Z) : option Qc * Z :=
  match hits with
  | [] => (best_score, best_index)
  | h :: hits =>
      let score := hit_score h in
      if score_lt score best_score
      then get_best_hit_loop hits (S i) (Some score) (Z.of_nat i)
      else get_best_hit_loop hits (S i) best_score best_index
  end.

(** [l[i]] for a Python list and a possibly negative index. *)
Definition py_index {A} (l : list A) (i : Z) : res A :=
  let j := if bool_decide (i < 0) then Z.of_nat (length l) + i else i in
  if bool_decide (j < 0) then Raise IndexError
  else match l !! Z.to_nat j with
       | Some x => Ok x
       | None => Raise IndexError
       end.

(** [get_best_hit]: [None] stands for the triple [(None, None, None)]
    returned on an empty hit list. *)
Definition get_best_hit (self : VariationStatistics) : res (option hit) :=
  if bool_decide (length (vs_hits self) = 0)%nat then Ok None
  else
    let '(best_score, best_index) :=
      get_best_hit_loop (vs_hits self) 0 None (-1) in
    h ← py_index (vs_hits self) best_index;
    Ok (Some h).

(** ** Summaries: [summarize_variation_stats_list] *)

(** [l[i] += 1] *)
Definition list_incr (l : list nat) (i : nat) : res (list nat) :=
  match l !! i with
  | Some x => Ok (<[i := S x]> l)
  | None => Raise IndexError
  end.

(** [m[i][j] += 1] *)
Definition matrix_incr (m : list (list nat)) (i j : nat) : res (list (list nat)) :=
  match m !! i with
  | Some row => row' ← list_incr row j; Ok (<[i := row']> m)
  | None => Raise IndexError
  end.

(** [b.count()]: the number of set bits of a bitarray. *)
Fixpoint bitarray_count (b : list bool) : nat :=
  match b with
  | [] => 0%nat
  | x :: b => ((if x then 1 else 0) + bitarray_count b)%nat
  end.

(** [b[i] = 1] on a bitarray. *)
Definition bitarray_set (b : list bool) (i : nat) : res (list bool) :=
  match b !! i with
  | Some _ => Ok (<[i := true]> b)
  | None => Raise IndexError
  end.

(** The local variables of [summarize_variation_stats_list] that the loop
    updates. *)
Record summary_vars := {
  sv_hits : nat;
  sv_mix_hits : nat;
  sv_avg_length_diff : Qc;
  sv_avg_offset : Qc;
  sv_hit_bitarray : list bool;
  sv_typematrix : list (list nat);
  sv_variantsums : list nat;
  sv_callsums : list nat;
}.

Definition summary_vars_init (n : nat) : summary_vars :=
  {| sv_hits := 0; sv_mix_hits := 0;
     sv_avg_length_diff := 0%Qc; sv_avg_offset := 0%Qc;
     sv_hit_bitarray := replicate n false;
     sv_typematrix := replicate 27 (replicate 27 0%nat);
     sv_variantsums := replicate 27 0%nat;
     sv_callsums := replicate 27 0%nat |}.

(** One iteration of the loop over [enumerate(stats_list)]. *)
Definition summarize_step (i : nat) (stats : VariationStatistics)
    (v : summary_vars) : res summary_vars :=
  let typing0 := vs_typing stats in
  variantsums ← match typing0 with
                | Some t0 => list_incr (sv_variantsums v) t0
                | None => Ok (sv_variantsums v)
                end;
  if is_hit stats then
    best ← get_best_hit stats;
    match best with
    | None => Raise ValueError
    | Some (index, length_diff, offset, typing1) =>
        hit_bitarray ← bitarray_set (sv_hit_bitarray v) i;
        '(typematrix, callsums) ←
          match typing0, typing1 with
          | Some t0, Some t1 =>
              typematrix ← matrix_incr (sv_typematrix v) t0 t1;
              callsums ← list_incr (sv_callsums v) t1;
              Ok (typematrix, callsums)
          | _, _ => Ok (sv_typematrix v, sv_callsums v)
          end;
        Ok {| sv_hits := sv_hits v + 1; sv_mix_hits := sv_mix_hits v;
              sv_avg_length_diff := (sv_avg_length_diff v + Qc_of_Z length_diff)%Qc;
              sv_avg_offset := (sv_avg_offset v + offset)%Qc;
              sv_hit_bitarray := hit_bitarray;
              sv_typematrix := typematrix;
              sv_variantsums := variantsums;
              sv_callsums := callsums |}
    end
  else if is_mix_hit stats then
    Ok {| sv_hits := sv_hits v; sv_mix_hits := sv_mix_hits v + 1;
          sv_avg_length_diff := sv_avg_length_diff v;
          sv_avg_offset := sv_avg_offset v;
          sv_hit_bitarray := sv_hit_bitarray v;
          sv_typematrix := sv_typematrix v;
          sv_variantsums := variantsums;
          sv_callsums := sv_callsums v |}
  else
    typematrix ← match typing0 with
                 | Some t0 => matrix_incr (sv_typematrix v) t0 0
                 | None => Ok (sv_typematrix v)
                 end;
    Ok {| sv_hits := sv_hits v; sv_mix_hits := sv_mix_hits v;
          sv_avg_length_diff := sv_avg_length_diff v;
          sv_avg_offset := sv_avg_offset v;
          sv_hit_bitarray := sv_hit_bitarray v;
          sv_typematrix := typematrix;
          sv_variantsums := variantsums;
          sv_callsums := sv_callsums v |}.

Fixpoint summarize_loop (i : nat) (stats_list : list VariationStatistics)
    (v : summary_vars) : res summary_vars :=
  match stats_list with
  | [] => Ok v
  | stats :: stats_list =>
      v ← summarize_step i stats v;
      summarize_loop (S i) stats_list v
  end.

(** The 9-tuple [summarize_variation_stats_list] returns. *)
Record summary := {
  hits : nat;
  hit_rate : pyfloat;
  mix_hit_rate : pyfloat;
  avg_length_diff : pyfloat;
  avg_offset : pyfloat;
  hit_bitarray : list bool;
  typematrix : list (list nat);
  variantsums : list nat;
  callsums : list nat;
}.

Definition Qc_of_nat (n : nat) : Qc := Qc_of_Z (Z.of_nat n).

Definition summarize_variation_stats_list (stats_list : list VariationStatistics)
    : res summary :=
  let n := length stats_list in
  v ← summarize_loop 0 stats_list (summary_vars_init n);
  Ok {| hits := sv_hits v;
        hit_rate := nan_div (Qc_of_nat (sv_hits v)) (Qc_of_nat n);
        mix_hit_rate := nan_div (Qc_of_nat (sv_mix_hits v)) (Qc_of_nat n);
        avg_length_diff := nan_div (sv_avg_length_diff v) (Qc_of_nat (sv_hits v));
        avg_offset := nan_div (sv_avg_offset v) (Qc_of_nat (sv_hits v));
        hit_bitarray := sv_hit_bitarray v;
        typematrix := sv_typematrix v;
        variantsums := sv_variantsums v;
        callsums := sv_callsums v |}.

(** ** Per-tool statistics: [class ToolStatistics] *)

Record ToolStatistics := {
  name : option string;
  insertion_count : option nat;
  insertion_recall : option pyfloat;
  insertion_precision : option pyfloat;
  insertion_mix_hits : option pyfloat;
  insertion_exclusivity : option pyfloat;
  insertion_avg_lendiff : option pyfloat;
  insertion_avg_distance : option pyfloat;
  insertion_f : option pyfloat;
  insertion_precision_types : option (list (list nat));
  insertion_precision_varsums : option (list nat);
  insertion_precision_callsums : option (list nat);
  insertion_recall_types : option (list (list nat));
  insertion_recall_varsums : option (list nat);
  insertion_recall_callsums : option (list nat);
  deletion_count : option nat;
  deletion_recall : option pyfloat;
  deletion_precision : option pyfloat;
  deletion_mix_hits : option pyfloat;
  deletion_exclusivity : option pyfloat;
  deletion_avg_lendiff : option pyfloat;
  deletion_avg_distance : option pyfloat;
  deletion_f : option pyfloat;
  deletion_precision_types : option (list (list nat));
  deletion_precision_varsums : option (list nat);
  deletion_precision_callsums : option (list nat);
  deletion_recall_types : option (list (list nat));
  deletion_recall_varsums : option (list nat);
  deletion_recall_callsums : option (list nat);
}.

(** [ToolStatistics(name)] *)
Definition ToolStatistics_init (name : option string) : ToolStatistics :=
  {| name := name;
     insertion_count := None;
     insertion_recall := None;
     insertion_precision := None;
     insertion_mix_hits := None;
     insertion_exclusivity := None;
     insertion_avg_lendiff := None;
     insertion_avg_distance := None;
     insertion_f := None;
     insertion_precision_types := None;
     insertion_precision_varsums := None;
     insertion_precision_callsums := None;
     insertion_recall_types := None;
     insertion_recall_varsums := None;
     insertion_recall_callsums := None;
     deletion_count := None;
     deletion_recall := None;
     deletion_precision := None;
     deletion_mix_hits := None;
     deletion_exclusivity := None;
     deletion_avg_lendiff := None;
     deletion_avg_distance := None;
     deletion_f := None;
     deletion_precision_types := None;
     deletion_precision_varsums := None;
     deletion_precision_callsums := None;
     deletion_recall_types := None;
     deletion_recall_varsums := None;
     deletion_recall_callsums := None |}.

(** The four outcome lists of one tool:
    [(stats_list_ins_prec, stats_list_ins_recall, stats_list_del_prec,
      stats_list_del_recall)]. *)
Definition stats_lists_entry : Type :=
  list VariationStatistics * list VariationStatistics
  * list VariationStatistics * list VariationStatistics.

(** The body of the first loop of [aggregate_toolwise_statistics]: the
    filled [tool_stats] and the two recall bitarrays that are appended. *)
Definition aggregate_tool (name : string) (entry : stats_lists_entry)
    : res (ToolStatistics * list bool * list bool) :=
  let '(ins_prec_list, ins_recall_list, del_prec_list, del_recall_list) := entry in
  ip ← summarize_variation_stats_list ins_prec_list;
  ir ← summarize_variation_stats_list ins_recall_list;
  dp ← summarize_variation_stats_list del_prec_list;
  dr ← summarize_variation_stats_list del_recall_list;
  Ok ({| name := Some name;
       insertion_count := Some (length ins_prec_list);
       insertion_recall := Some (hit_rate ir);
       insertion_precision := Some (hit_rate ip);
       insertion_mix_hits := Some (mix_hit_rate ip);
       insertion_exclusivity := None;
       insertion_avg_lendiff := Some (avg_length_diff ip);
       insertion_avg_distance := Some (avg_offset ip);
       insertion_f := f_measure (Some (hit_rate ip)) (Some (hit_rate ir));
       insertion_precision_types := Some (typematrix ip);
       insertion_precision_varsums := Some (variantsums ip);
       insertion_precision_callsums := Some (callsums ip);
       insertion_recall_types := Some (typematrix ir);
       insertion_recall_varsums := Some (variantsums ir);
       insertion_recall_callsums := Some (callsums ir);
       deletion_count := Some (length del_prec_list);
       deletion_recall := Some (hit_rate dr);
       deletion_precision := Some (hit_rate dp);
       deletion_mix_hits := Some (mix_hit_rate dp);
       deletion_exclusivity := None;
       deletion_avg_lendiff := Some (avg_length_diff dp);
       deletion_avg_distance := Some (avg_offset dp);
       deletion_f := f_measure (Some (hit_rate dp)) (Some (hit_rate dr));
       deletion_precision_types := Some (typematrix dp);
       deletion_precision_varsums := Some (variantsums dp);
       deletion_precision_callsums := Some (callsums dp);
       deletion_recall_types := Some (typematrix dr);
       deletion_recall_varsums := Some (variantsums dr);
       deletion_recall_callsums := Some (callsums dr) |},
      hit_bitarray ir, hit_bitarray dr).

(** The first loop, over [zip(tool_names, stats_lists)]. *)
Fixpoint aggregate_tools (zipped : list (string * stats_lists_entry))
    : res (list ToolStatistics * list (list bool) * list (list bool)) :=
  match zipped with
  | [] => Ok ([], [], [])
  | (name, entry) :: zipped =>
      '(tool_stats, ins_bits, del_bits) ← aggregate_tool name entry;
      '(result, insertion_recall_bitarrays, deletion_recall_bitarrays) ←
        aggregate_tools zipped;
      Ok (tool_stats :: result, ins_bits :: insertion_recall_bitarrays,
          del_bits :: deletion_recall_bitarrays)
  end.

(** Bitarray operators [|], [&] and [~], on bitarrays of equal length. *)
Definition bitarray_or (a b : list bool) : list bool := zip_with orb a b.
Definition bitarray_and (a b : list bool) : list bool := zip_with andb a b.
Definition bitarray_invert (a : list bool) : list bool := negb <$> a.

(** [l[i]] for [i >= 0]. *)
Definition list_get {A} (l : list A) (i : nat) : res A :=
  match l !! i with
  | Some x => Ok x
  | None => Raise IndexError
  end.

(** The inner loop of the exclusivity computation, over [range(len(result))]. *)
Fixpoint recall_others_loop (range : list nat) (tool_idx : nat)
    (insertion_recall_bitarrays deletion_recall_bitarrays : list (list bool))
    (total_insertions total_deletions : nat)
    (insertion_recall_others deletion_recall_others : list bool)
    : res (list bool * list bool) :=
  match range with
  | [] => Ok (insertion_recall_others, deletion_recall_others)
  | i :: range =>
      if bool_decide (i = tool_idx) then
        recall_others_loop range tool_idx insertion_recall_bitarrays
          deletion_recall_bitarrays total_insertions total_deletions
          insertion_recall_others deletion_recall_others
      else
        ins_i ← list_get insertion_recall_bitarrays i;
        _ ← py_assert (bool_decide (length ins_i = total_insertions));
        let insertion_recall_others := bitarray_or insertion_recall_others ins_i in
        del_i ← list_get deletion_recall_bitarrays i;
        _ ← py_assert (bool_decide (length del_i = total_deletions));
        let deletion_recall_others := bitarray_or deletion_recall_others del_i in
        recall_others_loop range tool_idx insertion_recall_bitarrays
          deletion_recall_bitarrays total_insertions total_deletions
          insertion_recall_others deletion_recall_others
  end.

(** [result[tool_idx].insertion_exclusivity = ...] and
    [result[tool_idx].deletion_exclusivity = ...]. *)
Definition set_exclusivity (ts : ToolStatistics)
    (insertion_exclusivity' deletion_exclusivity' : pyfloat) : ToolStatistics :=
  {| name := name ts;
     insertion_count := insertion_count ts;
     insertion_recall := insertion_recall ts;
     insertion_precision := insertion_precision ts;
     insertion_mix_hits := insertion_mix_hits ts;
     insertion_exclusivity := Some insertion_exclusivity';
     insertion_avg_lendiff := insertion_avg_lendiff ts;
     insertion_avg_distance := insertion_avg_distance ts;
     insertion_f := insertion_f ts;
     insertion_precision_types := insertion_precision_types ts;
     insertion_precision_varsums := insertion_precision_varsums ts;
     insertion_precision_callsums := insertion_precision_callsums ts;
     insertion_recall_types := insertion_recall_types ts;
     insertion_recall_varsums := insertion_recall_varsums ts;
     insertion_recall_callsums := insertion_recall_callsums ts;
     deletion_count := deletion_count ts;
     deletion_recall := deletion_recall ts;
     deletion_precision := deletion_precision ts;
     deletion_mix_hits := deletion_mix_hits ts;
     deletion_exclusivity := Some deletion_exclusivity';
     deletion_avg_lendiff := deletion_avg_lendiff ts;
     deletion_avg_distance := deletion_avg_distance ts;
     deletion_f := deletion_f ts;
     deletion_precision_types := deletion_precision_types ts;
     deletion_precision_varsums := deletion_precision_varsums ts;
     deletion_precision_callsums := deletion_precision_callsums ts;
     deletion_recall_types := deletion_recall_types ts;
     deletion_recall_varsums := deletion_recall_varsums ts;
     deletion_recall_callsums := deletion_recall_callsums ts |}.

(** The exclusivity loop, over [range(len(result))]. *)
Fixpoint exclusivity_loop (range : list nat) (n_tools : nat)
    (insertion_recall_bitarrays deletion_recall_bitarrays : list (list bool))
    (result : list ToolStatistics) : res (list ToolStatistics) :=
  match range with
  | [] => Ok result
  | tool_idx :: range =>
      ins_k ← list_get insertion_recall_bitarrays tool_idx;
      del_k ← list_get deletion_recall_bitarrays tool_idx;
      let total_insertions := length ins_k in
      let total_deletions := length del_k in
      '(insertion_recall_others, deletion_recall_others) ←
        recall_others_loop (seq 0 n_tools) tool_idx
          insertion_recall_bitarrays deletion_recall_bitarrays
          total_insertions total_deletions
          (replicate total_insertions false) (replicate total_deletions false);
      let exclusive_insertion_hits :=
        bitarray_and ins_k (bitarray_invert insertion_recall_others) in
      let exclusive_deletion_hits :=
        bitarray_and del_k (bitarray_invert deletion_recall_others) in
      ts ← list_get result tool_idx;
      let result :=
        <[tool_idx := set_exclusivity ts
            (nan_div (Qc_of_nat (bitarray_count exclusive_insertion_hits))
                     (Qc_of_nat total_insertions))
            (nan_div (Qc_of_nat (bitarray_count exclusive_deletion_hits))
                     (Qc_of_nat total_deletions))]> result in
      exclusivity_loop range n_tools insertion_recall_bitarrays
        deletion_recall_bitarrays result
  end.

(** [aggregate_toolwise_statistics(stats_lists, tool_names)] *)
Definition aggregate_toolwise_statistics (stats_lists : list stats_lists_entry)
    (tool_names : list string) : res (list ToolStatistics) :=
  _ ← py_assert (bool_decide (length tool_names = length stats_lists));
  '(result, insertion_recall_bitarrays, deletion_recall_bitarrays) ←
    aggregate_tools (zip tool_names stats_lists);
  exclusivity_loop (seq 0 (length result)) (length result)
    insertion_recall_bitarrays deletion_recall_bitarrays result.

(** ** Variant store: [class VariationList] *)

Inductive vartype := DEL | INS | MIX.

#[global] Instance vartype_eq_dec : EqDecision vartype.
Proof. solve_decision. Defined.

(** One record [(coord1, coord2, coord3, vartype, genotype)].  The
    coordinates mean: DEL: start, end, None; INS: pos, length, None;
    MIX: del_start, del_end, ins_length. *)
Record variation := {
  coord1 : Z;
  coord2 : Z;
  coord3 : option Z;
  var_type : vartype;
  tags : option string;
}.

(** [self.variations], a [defaultdict(list)] keyed by chromosome. *)
Record VariationList := {
  variations : gmap string (list variation);
}.

(** [c.lower()] on one character and on a byte string. *)
Definition lower_char (c : ascii) : ascii :=
  let n := nat_of_ascii c in
  if bool_decide (65 ≤ n ≤ 90)%nat then ascii_of_nat (n + 32) else c.

Fixpoint lower (s : string) : string :=
  match s with
  | EmptyString => EmptyString
  | String c s => String (lower_char c) (lower s)
  end.

(** [self.variations[chromosome]]: a missing key reads as the empty list. *)
Definition variations_of (self : VariationList) (chromosome : string)
    : list variation :=
  default [] (variations self !! chromosome).

(** [tag in tags] on strings: substring test. *)
Fixpoint str_contains (tag s : string) : bool :=
  String.prefix tag s
  || match s with
     | EmptyString => false
     | String _ s' => str_contains tag s'
     end.

(** [(tag!=None) and (not tag in tags) and not trio]; [tag in None] raises
    [TypeError]. *)
Definition tag_skip (tag tags : option string) (trio : bool) : res bool :=
  match tag with
  | None => Ok false
  | Some t =>
      match tags with
      | None => Raise TypeError
      | Some g => Ok (negb (str_contains t g) && negb trio)
      end
  end.

(** [(min_length != None) and (length < min_length)] and
    [(max_length != None) and (length > max_length)] *)
Definition too_short (length : Z) (min_length : option Z) : bool :=
  match min_length with
  | Some m => bool_decide (length < m)
  | None => false
  end.

Definition too_long (length : Z) (max_length : option Z) : bool :=
  match max_length with
  | Some m => bool_decide (m < length)
  | None => false
  end.

(** The widened bounds of the target filters:
    [max(min_length - difflength, 5)] and [max_length + difflength]. *)
Definition widened_min (min_length : option Z) (difflength : Z) : option Z :=
  (λ m, Z.max (m - difflength) 5) <$> min_length.

Definition widened_max (max_length : option Z) (difflength : Z) : option Z :=
  (λ m, m + difflength) <$> max_length.

(** ** Sweep events *)

(** The event types ['E'] and ['S']; as strings, ['E' < 'S']. *)
Inductive event_type := evE | evS.

#[global] Instance event_type_eq_dec : EqDecision event_type.
Proof. solve_decision. Defined.

(** An event [(pos, event_type, list_idx, variation_index)]. *)
Definition event : Type := Z * event_type * nat * nat.

Definition event_type_lt (a b : event_type) : Prop := a = evE ∧ b = evS.

(** Python's tuple order on events. *)
Definition event_lt (a b : event) : Prop :=
  a.1.1.1 < b.1.1.1
  ∨ (a.1.1.1 = b.1.1.1
     ∧ (event_type_lt a.1.1.2 b.1.1.2
        ∨ (a.1.1.2 = b.1.1.2
           ∧ ((a.1.2 < b.1.2)%nat
              ∨ (a.1.2 = b.1.2 ∧ (a.2 < b.2)%nat))))).

Definition event_le (a b : event) : Prop := a = b ∨ event_lt a b.

#[global] Instance event_type_lt_dec : RelDecision event_type_lt.
Proof. intros a b. unfold event_type_lt. apply _. Defined.
#[global] Instance event_lt_dec : RelDecision event_lt.
Proof. intros a b. unfold event_lt. apply _. Defined.
#[global] Instance event_le_dec : RelDecision event_le.
Proof. intros a b. unfold event_le. apply _. Defined.

(** [events.sort()]: the tuple order is total and two events that compare
    equal are the same tuple, so the sorted list does not depend on the
    sorting algorithm. *)
Definition sort_events (events : list event) : list event :=
  merge_sort event_le events.

(** [results[k].add(v)] on the [defaultdict(set)]. *)
Definition results_add (results : gmap nat (gset nat)) (k v : nat)
    : gmap nat (gset nat) :=
  <[k := {[v]} ∪ results !!! k]> results.

(** The sweep state: [results] and [active = [set(), set()]]. *)
Definition sweep_state : Type := gmap nat (gset nat) * list (gset nat).

(** One iteration of the sweep over the sorted events.  The loops over an
    active set only add to [results], so their outcome does not depend on
    the order in which the set is iterated. *)
Definition sweep_step (st : sweep_state) (ev : event) : res sweep_state :=
  let '(results, active) := st in
  let '(pos, event_type, list_idx, variation_index) := ev in
  match event_type with
  | evS =>
      results ←
        (if bool_decide (list_idx = 0%nat) then
           a1 ← list_get active 1;
           Ok (set_fold (λ index1 r, results_add r variation_index index1)
                 results a1)
         else
           a0 ← list_get active 0;
           Ok (set_fold (λ index0 r, results_add r index0 variation_index)
                 results a0));
      a ← list_get active list_idx;
      Ok (results, <[list_idx := {[variation_index]} ∪ a]> active)
  | evE =>
      a ← list_get active list_idx;
      if bool_decide (variation_index ∈ a)
      then Ok (results, <[list_idx := a ∖ {[variation_index]}]> active)
      else Raise KeyError
  end.

Fixpoint sweep_loop (events : list event) (st : sweep_state) : res sweep_state :=
  match events with
  | [] => Ok st
  | ev :: events => st ← sweep_step st ev; sweep_loop events st
  end.

(** The part the three candidate finders share: sort the events, sweep,
    return [results]. *)
Definition sweep (events : list event) : res (gmap nat (gset nat)) :=
  st ← sweep_loop (sort_events events) (∅, [∅; ∅]);
  Ok st.1.

(** A loop [for n, v in enumerate(l)] that appends events; [n] is the
    index of the head of [l]. *)
Fixpoint events_loop (f : nat → variation → res (list event)) (n : nat)
    (l : list variation) : res (list event) :=
  match l with
  | [] => Ok []
  | v :: l =>
      e ← f n v;
      es ← events_loop f (Datatypes.S n) l;
      Ok (e ++ es)
  end.

(** ** Candidate generation for deletions *)

(** The body of the first loop of [find_all_deletion_overlaps]. *)
Definition deletion_query_events (trio : bool) (min_length max_length : option Z)
    (tag : option string) (n : nat) (v : variation) : res (list event) :=
  if bool_decide (var_type v ≠ DEL) then Ok []
  else
    skipped ← tag_skip tag (tags v) trio;
    if (skipped : bool) then Ok []
    else
      _ ← py_assert (bool_decide (coord1 v ≤ coord2 v));
      let length := coord2 v - coord1 v in
      if too_short length min_length then Ok []
      else if too_long length max_length then Ok []
      else Ok [(coord1 v, evS, 0%nat, n); (coord2 v, evE, 0%nat, n)].

(** The body of the second loop of [find_all_deletion_overlaps]. *)
Definition deletion_target_events (min_length max_length : option Z)
    (offset difflength : Z) (n : nat) (v : variation) : res (list event) :=
  match var_type v with
  | DEL =>
      _ ← py_assert (bool_decide (coord1 v ≤ coord2 v));
      let length := coord2 v - coord1 v in
      if too_short length (widened_min min_length difflength) then Ok []
      else if too_long length (widened_max max_length difflength) then Ok []
      else Ok [(coord1 v - offset, evS, 1%nat, n);
               (coord2 v + offset, evE, 1%nat, n)]
  | MIX =>
      _ ← py_assert (bool_decide (coord1 v ≤ coord2 v));
      let del_length := coord2 v - coord1 v in
      match coord3 v with
      | None => Raise TypeError
      | Some ins_length =>
          let length := del_length - ins_length in
          if too_short length (widened_min min_length difflength) then Ok []
          else if too_long length (widened_max max_length difflength) then Ok []
          else Ok [(coord1 v - offset, evS, 1%nat, n);
                   (coord2 v + offset, evE, 1%nat, n)]
      end
  | INS => Ok []
  end.

(** [find_all_deletion_overlaps] *)
Definition find_all_deletion_overlaps (self another_list : VariationList)
    (chromosome : string) (trio : bool) (min_length max_length : option Z)
    (offset difflength : option Z) (tag : option string)
    : res (gmap nat (gset nat)) :=
  let difflength := default 0 difflength in
  let offset := default 0 offset in
  let chromosome := lower chromosome in
  events0 ← events_loop (deletion_query_events trio min_length max_length tag)
              0 (variations_of self chromosome);
  events1 ← events_loop (deletion_target_events min_length max_length offset
                           difflength)
              0 (variations_of another_list chromosome);
  sweep (events0 ++ events1).

(** ** Candidate generation for insertions *)

(** The body of the first loop of [insertion_distances]. *)
Definition insertion_query_events (trio : bool) (min_length max_length : option Z)
    (tag : option string) (n : nat) (v : variation) : res (list event) :=
  let pos := coord1 v in
  let length := coord2 v in
  if bool_decide (var_type v ≠ INS) then Ok []
  else
    skipped ← tag_skip tag (tags v) trio;
    if (skipped : bool) then Ok []
    else if bool_decide (length ≤ 0) then Ok []
    else if too_short length min_length then Ok []
    else if too_long length max_length then Ok []
    else Ok [(pos, evS, 0%nat, n); (pos + length, evE, 0%nat, n)].

(** The body of the second loop of [insertion_distances].  In Python 2,
    [None > 0] is false, so a MIX record without insertion length fails
    the assertion. *)
Definition insertion_target_events (min_length max_length : option Z)
    (offset difflength : Z) (n : nat) (v : variation) : res (list event) :=
  match var_type v with
  | INS =>
      let pos := coord1 v in
      let ins_length := coord2 v in
      if bool_decide (ins_length ≤ 0) then Ok []
      else if too_short ins_length (widened_min min_length difflength) then Ok []
      else if too_long ins_length (widened_max max_length difflength) then Ok []
      else Ok [(pos - offset, evS, 1%nat, n);
               (pos + ins_length + offset, evE, 1%nat, n)]
  | MIX =>
      _ ← py_assert (bool_decide (coord1 v ≤ coord2 v));
      let del_length := coord2 v - coord1 v in
      match coord3 v with
      | None => Raise AssertionError
      | Some ins_length =>
          _ ← py_assert (bool_decide (0 < ins_length));
          _ ← py_assert (bool_decide (0 < del_length));
          let effective_length := ins_length - del_length in
          let pos := (coord1 v + coord2 v) `div` 2 in
          if too_short effective_length (widened_min min_length difflength)
          then Ok []
          else if too_long effective_length (widened_max max_length difflength)
          then Ok []
          else Ok [(pos - offset, evS, 1%nat, n);
                   (pos + ins_length + offset, evE, 1%nat, n)]
      end
  | DEL => Ok []
  end.

(** [insertion_distances] *)
Definition insertion_distances (self another_list : VariationList)
    (chromosome : string) (trio : bool) (min_length max_length : option Z)
    (offset difflength : option Z) (tag : option string)
    : res (gmap nat (gset nat)) :=
  let offset := default 0 offset in
  let difflength := default 0 difflength in
  let chromosome := lower chromosome in
  events0 ← events_loop (insertion_query_events trio min_length max_length tag)
              0 (variations_of self chromosome);
  events1 ← events_loop (insertion_target_events min_length max_length offset
                           difflength)
              0 (variations_of another_list chromosome);
  sweep (events0 ++ events1).

(** ** Exact hit filtering *)

(** Python 2 orders [None] below every number: [x <= None] is false. *)
Definition py2_le_Z (x : Z) (y : option Z) : bool :=
  match y with
  | Some y => bool_decide (x ≤ y)
  | None => false
  end.

Definition py2_le_Qc (x : Qc) (y : option Z) : bool :=
  match y with
  | Some y => bool_decide (x ≤ Qc_of_Z y)%Qc
  | None => false
  end.

(** [range(lo, hi)] *)
Definition py_range (lo hi : Z) : list Z :=
  (λ k, lo + Z.of_nat k) <$> seq 0 (Z.to_nat (hi - lo)).

(** [count_stats]: [None], or a dictionary from chromosome to a
    [defaultdict(list)] from length to [[count, fraction]]. *)
Definition count_stats_t : Type := option (gmap string (gmap Z (list Qc))).

(** The loop of [callsignificance]. *)
Fixpoint callsignificance_loop (range : list Z) (chromosome : string)
    (count_stats : count_stats_t) (ratio : Qc) : res Qc :=
  match range with
  | [] => Ok ratio
  | i :: range =>
      match count_stats with
      | None => Raise TypeError
      | Some cs =>
          match cs !! chromosome with
          | None => Raise KeyError
          | Some by_length =>
              let entry := default [] (by_length !! i) in
              if bool_decide (length entry = 2%nat) then
                x ← list_get entry 1;
                callsignificance_loop range chromosome count_stats (ratio + x)%Qc
              else callsignificance_loop range chromosome count_stats ratio
          end
      end
  end.

(** [callsignificance(calllength, offset, difflength, chromosome, count_stats)] *)
Definition callsignificance (calllength : Z) (offset : Qc) (difflength : Z)
    (chromosome : string) (count_stats : count_stats_t) : res Qc :=
  ratio ← callsignificance_loop
             (py_range (Z.max 5 (calllength - difflength))
                       (calllength + difflength + 1))
             chromosome count_stats 0%Qc;
  Ok (2 * offset * ratio)%Qc.

(** The three mode branches that the two hit-statistics functions share:
    given the two tests of modes [overlap] and [fixed_distance] and the
    arguments of [callsignificance], add the hit or leave [stats] as it is;
    an unknown mode prints an error and calls [sys.exit(1)]. *)
Definition mode_add_hit (mode : string) (overlap_test fixed_test : bool)
    (length0 : Z) (chromosome : string) (count_stats : count_stats_t)
    (siglevel : Qc) (stats : VariationStatistics) (j : nat) (length_diff : Z)
    (dist : Qc) (typing1 : option nat) (is_mix : bool)
    : res VariationStatistics :=
  if bool_decide (mode = "overlap") then
    if overlap_test
    then Ok (add_hit stats j length_diff dist typing1 is_mix)
    else Ok stats
  else if bool_decide (mode = "fixed_distance") then
    if fixed_test
    then Ok (add_hit stats j length_diff dist typing1 is_mix)
    else Ok stats
  else if bool_decide (mode = "significant") then
    _ ← py_assert (bool_decide (0 < siglevel)%Qc && bool_decide (siglevel < 1)%Qc);
    sig ← callsignificance length0 dist length_diff chromosome count_stats;
    if bool_decide (sig ≤ siglevel)%Qc
    then Ok (add_hit stats j length_diff dist typing1 is_mix)
    else Ok stats
  else Raise SystemExit.

(** [typing = index_from_type(tags)] if [trio], else [None]. *)
Definition typing_of (trio : bool) (tags : option string) : res (option nat) :=
  if trio then t ← index_from_type tags; Ok (Some t) else Ok None.

(** [(a + b) / 2] under [from __future__ import division]. *)
Definition center (a b : Z) : Qc := (Qc_of_Z (a + b) / 2)%Qc.

Section hit_statistics.
(** The order in which Python iterates over a set of indices is not
    specified; the model takes it as a parameter. *)
Variable iter : gset nat → list nat.

(** The body of the loop [for j in overlaps[i]] of
    [deletion_hit_statistics]. *)
Definition deletion_candidate (another : list variation) (chromosome : string)
    (count_stats : count_stats_t) (mode : string) (trio : bool)
    (offset difflength : option Z) (siglevel : Qc)
    (event0_coord1 event0_coord2 : Z) (stats : VariationStatistics) (j : nat)
    : res VariationStatistics :=
  v1 ← list_get another j;
  typing1 ← typing_of trio (tags v1);
  let del_length0 := event0_coord2 - event0_coord1 in
  let center0 := center event0_coord1 event0_coord2 in
  let del_length1 := coord2 v1 - coord1 v1 in
  effective_length1 ←
    match var_type v1 with
    | DEL => Ok del_length1
    | MIX => match coord3 v1 with
             | Some ins_length1 => Ok (del_length1 - ins_length1)
             | None => Raise TypeError
             end
    | INS => Raise AssertionError
    end;
  let center1 := center (coord1 v1) (coord2 v1) in
  let overlap :=
    Z.max 0 (Z.min event0_coord2 (coord2 v1) - Z.max event0_coord1 (coord1 v1)) in
  let length_diff := Z.abs (del_length0 - effective_length1) in
  let dist := Qcabs (center0 - center1) in
  mode_add_hit mode
    (py2_le_Z length_diff difflength && bool_decide (0 < overlap))
    (py2_le_Z length_diff difflength && py2_le_Qc dist offset)
    del_length0 chromosome count_stats siglevel stats j length_diff dist
    typing1 (bool_decide (var_type v1 = MIX)).

(** A loop [for j in ...] that threads [stats]. *)
Fixpoint candidates_loop (f : VariationStatistics → nat → res VariationStatistics)
    (js : list nat) (stats : VariationStatistics) : res VariationStatistics :=
  match js with
  | [] => Ok stats
  | j :: js => stats ← f stats j; candidates_loop f js stats
  end.

(** The body of the loop over [enumerate(self.variations[chromosome])] of
    [deletion_hit_statistics]: the outcome that is appended, if any. *)
Definition deletion_outcome (another : list variation)
    (overlaps : gmap nat (gset nat)) (chromosome : string)
    (count_stats : count_stats_t) (mode : string) (trio : bool)
    (min_length max_length offset difflength : option Z) (siglevel : Qc)
    (tag : option string) (i : nat) (v0 : variation)
    : res (list VariationStatistics) :=
  if bool_decide (var_type v0 ≠ DEL) then Ok []
  else
    let del_length0 := coord2 v0 - coord1 v0 in
    if too_short del_length0 min_length then Ok []
    else if too_long del_length0 max_length then Ok []
    else
      typing0 ← typing_of trio (tags v0);
      skipped ← tag_skip tag (tags v0) trio;
      if (skipped : bool) then Ok []
      else
        stats ← candidates_loop
                  (deletion_candidate another chromosome count_stats mode trio
                     offset difflength siglevel (coord1 v0) (coord2 v0))
                  (iter (overlaps !!! i))
                  (VariationStatistics_init chromosome i typing0);
        Ok [stats].

(** A loop over [enumerate(l)] that appends outcomes to [stats_list]. *)
Fixpoint outcomes_loop (f : nat → variation → res (list VariationStatistics))
    (i : nat) (l : list variation) : res (list VariationStatistics) :=
  match l with
  | [] => Ok []
  | v :: l =>
      s ← f i v;
      ss ← outcomes_loop f (Datatypes.S i) l;
      Ok (s ++ ss)
  end.

(** [deletion_hit_statistics] *)
Fixpoint deletion_hit_statistics (self another_list : VariationList)
    (chromosomes : list string) (count_stats : count_stats_t) (mode : string)
    (trio : bool) (min_length max_length offset difflength : option Z)
    (siglevel : Qc) (tag : option string) : res (list VariationStatistics) :=
  match chromosomes with
  | [] => Ok []
  | x :: chromosomes =>
      let chromosome := lower x in
      overlaps ← find_all_deletion_overlaps self another_list chromosome trio
                   min_length max_length offset difflength tag;
      stats_list ←
        outcomes_loop
          (deletion_outcome (variations_of another_list chromosome) overlaps
             chromosome count_stats mode trio min_length max_length offset
             difflength siglevel tag)
          0 (variations_of self chromosome);
      rest ← deletion_hit_statistics self another_list chromosomes count_stats
               mode trio min_length max_length offset difflength siglevel tag;
      Ok (stats_list ++ rest)
  end.

(** The body of the loop [for j in overlaps[i]] of
    [insertion_hit_statistics]. *)
Definition insertion_candidate (another : list variation) (chromosome : string)
    (count_stats : count_stats_t) (mode : string) (trio : bool)
    (offset difflength : option Z) (siglevel : Qc)
    (event0_coord1 length0 : Z) (stats : VariationStatistics) (j : nat)
    : res VariationStatistics :=
  v1 ← list_get another j;
  typing1 ← typing_of trio (tags v1);
  let start0 := event0_coord1 in
  let end0 := event0_coord1 + length0 in
  '(start1, effective_length1) ←
    match var_type v1 with
    | INS => Ok (coord1 v1, coord2 v1)
    | MIX =>
        let start1 := (coord1 v1 + coord2 v1) `div` 2 in
        let del_length1 := coord2 v1 - coord1 v1 in
        match coord3 v1 with
        | Some ins_length1 => Ok (start1, ins_length1 - del_length1)
        | None => Raise TypeError
        end
    | DEL => Raise AssertionError
    end;
  let end1 := start1 + effective_length1 in
  let overlap := Z.max 0 (Z.min end0 end1 - Z.max start0 start1) in
  let dist := Z.abs (event0_coord1 - start1) in
  let length_diff := Z.abs (length0 - effective_length1) in
  mode_add_hit mode
    (bool_decide (0 < overlap) && py2_le_Z length_diff difflength)
    (py2_le_Z dist offset && py2_le_Z length_diff difflength)
    length0 chromosome count_stats siglevel stats j length_diff
    (Qc_of_Z dist) typing1 (bool_decide (var_type v1 = MIX)).

(** The body of the loop over [enumerate(self.variations[chromosome])] of
    [insertion_hit_statistics]. *)
Definition insertion_outcome (another : list variation)
    (overlaps : gmap nat (gset nat)) (chromosome : string)
    (count_stats : count_stats_t) (mode : string) (trio : bool)
    (min_length max_length offset difflength : option Z) (siglevel : Qc)
    (tag : option string) (i : nat) (v0 : variation)
    : res (list VariationStatistics) :=
  if bool_decide (var_type v0 ≠ INS) then Ok []
  else
    skipped ← tag_skip tag (tags v0) trio;
    if (skipped : bool) then Ok []
    else
      let length0 := coord2 v0 in
      if too_short length0 min_length then Ok []
      else if too_long length0 max_length then Ok []
      else
        stats ← candidates_loop
                  (insertion_candidate another chromosome count_stats mode trio
                     offset difflength siglevel (coord1 v0) length0)
                  (iter (overlaps !!! i))
                  (VariationStatistics_init chromosome i None);
        Ok [stats].

(** [insertion_hit_statistics] *)
Fixpoint insertion_hit_statistics (self another_list : VariationList)
    (chromosomes : list string) (count_stats : count_stats_t) (mode : string)
    (trio : bool) (min_length max_length offset difflength : option Z)
    (siglevel : Qc) (tag : option string) : res (list VariationStatistics) :=
  match chromosomes with
  | [] => Ok []
  | x :: chromosomes =>
      let chromosome := lower x in
      overlaps ← insertion_distances self another_list chromosome trio
                   min_length max_length offset difflength tag;
      stats_list ←
        outcomes_loop
          (insertion_outcome (variations_of another_list chromosome) overlaps
             chromosome count_stats mode trio min_length max_length offset
             difflength siglevel tag)
          0 (variations_of self chromosome);
      rest ← insertion_hit_statistics self another_list chromosomes count_stats
               mode trio min_length max_length offset difflength siglevel tag;
      Ok (stats_list ++ rest)
  end.
End hit_statistics.

(** ** Specification predicates *)

(** [best_of hits i h]: [h] is the hit at position [i], no hit scores lower,
    and every earlier hit scores strictly higher. *)
Definition best_of (hits : list hit) (i : nat) (h : hit) : Prop :=
  hits !! i = Some h
  ∧ (∀ j h', hits !! j = Some h' → (hit_score h ≤ hit_score h')%Qc)
  ∧ (∀ j h', (j < i)%nat → hits !! j = Some h' → (hit_score h < hit_score h')%Qc).

(** The state of the loop of [get_best_hit] after the hits [pre]. *)
Definition best_inv (pre : list hit) (best_score : option Qc) (best_index : Z) : Prop :=
  match best_score with
  | None => pre = [] ∧ best_index = -1
  | Some s => ∃ (i : nat) h,
      best_index = Z.of_nat i ∧ hit_score h = s ∧ best_of pre i h
  end.

(** A genotype code that indexes the 27 x 27 matrix. *)
Definition wf_typing (t : option nat) : Prop := ∀ k, t = Some k → (k < 27)%nat.

(** Outcomes whose genotype codes, the variant's own and those of its exact
    hits, are codes of [index_from_type] on a trio genotype (or absent). *)
Definition wf_stats (s : VariationStatistics) : Prop :=
  wf_typing (vs_typing s) ∧ Forall (λ h : hit, wf_typing h.2) (vs_hits s).

(** An outcome without exact hit but with a mix hit. *)
Definition mix_only (s : VariationStatistics) : bool :=
  negb (is_hit s) && is_mix_hit s.

(** The shape of the genotype tables. *)
Definition tables_shape (v : summary_vars) : Prop :=
  length (sv_typematrix v) = 27%nat
  ∧ Forall (λ row, length row = 27%nat) (sv_typematrix v)
  ∧ length (sv_variantsums v) = 27%nat
  ∧ length (sv_callsums v) = 27%nat.




(** The components of a [stats_lists] entry. *)
Definition ins_prec_list (e : stats_lists_entry) : list VariationStatistics := e.1.1.1.
Definition ins_recall_list (e : stats_lists_entry) : list VariationStatistics := e.1.1.2.
Definition del_prec_list (e : stats_lists_entry) : list VariationStatistics := e.1.2.
Definition del_recall_list (e : stats_lists_entry) : list VariationStatistics := e.2.

Definition wf_entry (e : stats_lists_entry) : Prop :=
  Forall wf_stats (ins_prec_list e) ∧ Forall wf_stats (ins_recall_list e)
  ∧ Forall wf_stats (del_prec_list e) ∧ Forall wf_stats (del_recall_list e).

(** Bit [j] of bitarray [i] of a list of bitarrays. *)
Definition bit_of (bitarrays : list (list bool)) (i j : nat) : bool :=
  match bitarrays !! i with
  | Some b => match b !! j with Some x => x | None => false end
  | None => false
  end.

(** The OR, over the tools [i] of [range] other than [tool_idx], of bit [j]. *)
Definition others_bit (bitarrays : list (list bool)) (tool_idx : nat)
    (range : list nat) (j : nat) : bool :=
  existsb (λ i, negb (bool_decide (i = tool_idx)) && bit_of bitarrays i j) range.

(** Bit [j] of the exclusive-hits bitarray of tool [k] among [n] tools. *)
Definition exclusive_bit (bitarrays : list (list bool)) (k n j : nat) : bool :=
  bit_of bitarrays k j && negb (others_bit bitarrays k (seq 0 n) j).

(** The exclusivity rate computed from a list of recall bitarrays. *)
Definition exclusivity_of (bitarrays : list (list bool)) (k n total : nat) : pyfloat :=
  nan_div (Qc_of_nat (bitarray_count (exclusive_bit bitarrays k n <$> seq 0 total)))
          (Qc_of_nat total).

(** ** Sample data *)




(** The scenario of one truth deletion chr1:100-200 and one predicted
    deletion chr1:105-195. *)
Definition sample_truth : VariationList :=
  {| variations := {[ "chr1" :=
       [ {| coord1 := 100; coord2 := 200; coord3 := None; var_type := DEL;
            tags := None |} ] ]} |}.

Definition sample_prediction : VariationList :=
  {| variations := {[ "chr1" :=
       [ {| coord1 := 105; coord2 := 195; coord3 := None; var_type := DEL;
            tags := None |} ] ]} |}.

(** Event lists the sweep runs through: list ids are 0 or 1, a variant has
    at most one event of each type per list, and every end event has a
    start event at a smaller coordinate. *)
Definition events_wf (L : list event) : Prop :=
  (∀ p ty sd n, (p, ty, sd, n) ∈ L → (sd < 2)%nat)
  ∧ (∀ p p' ty sd n, (p, ty, sd, n) ∈ L → (p', ty, sd, n) ∈ L → p = p')
  ∧ (∀ q sd n, (q, evE, sd, n) ∈ L → ∃ p, (p, evS, sd, n) ∈ L ∧ p < q).

(** [n] is active in list [sd] after the events [pre]. *)
Definition active_after (pre : list event) (sd n : nat) : Prop :=
  (∃ p, (p, evS, sd, n) ∈ pre) ∧ (∀ q, (q, evE, sd, n) ∉ pre).

(** [j] has been recorded for [i] after the events [pre] of [L]. *)
Definition paired_after (L pre : list event) (i j : nat) : Prop :=
  ∃ p q, (p, evS, 0%nat, i) ∈ pre ∧ (q, evS, 1%nat, j) ∈ pre
         ∧ (∀ p', (p', evE, 0%nat, i) ∈ L → q < p')
         ∧ (∀ q', (q', evE, 1%nat, j) ∈ L → p < q').

(** The state of the sweep after the prefix [pre] of the sorted list [L]. *)
Definition sweep_inv (L pre : list event) (st : sweep_state) : Prop :=
  ∃ a0 a1 : gset nat,
    st.2 = [a0; a1]
    ∧ (∀ n, n ∈ a0 ↔ active_after pre 0 n)
    ∧ (∀ n, n ∈ a1 ↔ active_after pre 1 n)
    ∧ (∀ i j, j ∈ st.1 !!! i ↔ paired_after L pre i j).

(** The records the loader builds: a deletion and the deleted part of a MIX
    event are not empty, and a MIX event has a positive insertion length. *)
Definition wf_variation (v : variation) : Prop :=
  match var_type v with
  | DEL => coord1 v < coord2 v
  | INS => True
  | MIX => coord1 v < coord2 v ∧ ∃ c, coord3 v = Some c ∧ 0 < c
  end.

Definition wf_list (l : VariationList) : Prop :=
  ∀ chromosome vs, variations l !! chromosome = Some vs → Forall wf_variation vs.

(** The start and end events of variant [n] of list [sd] for an interval. *)
Definition events_of (sd n : nat) (iv : option (Z * Z)) : list event :=
  match iv with
  | Some (s, t) => [(s, evS, sd, n); (t, evE, sd, n)]
  | None => []
  end.

(** The events of a whole list, given the interval of each variant. *)
Definition interval_events (sd : nat) (iv : variation → option (Z * Z))
    (n : nat) (l : list variation) : list event :=
  mjoin (imap (λ k v, events_of sd (n + k) (iv v)) l).

(** [length] passes the filter [lo <= length <= hi], a missing bound
    passing everything. *)
Definition passes (length : Z) (lo hi : option Z) : bool :=
  negb (too_short length lo) && negb (too_long length hi).

(** The interval a deletion query sweeps, if it is swept. *)
Definition deletion_query_interval (min_length max_length : option Z)
    (v : variation) : option (Z * Z) :=
  match var_type v with
  | DEL => if passes (coord2 v - coord1 v) min_length max_length
           then Some (coord1 v, coord2 v) else None
  | _ => None
  end.

(** The effective length of a deletion target: the deleted length, less the
    inserted length for a MIX event. *)
Definition deletion_effective_length (v : variation) : option Z :=
  match var_type v with
  | DEL => Some (coord2 v - coord1 v)
  | MIX => (λ ins_length, coord2 v - coord1 v - ins_length) <$> coord3 v
  | INS => None
  end.

(** The widened interval a deletion target sweeps, if it is swept. *)
Definition deletion_target_interval (min_length max_length : option Z)
    (offset difflength : Z) (v : variation) : option (Z * Z) :=
  match deletion_effective_length v with
  | Some length =>
      if passes length (widened_min min_length difflength)
                       (widened_max max_length difflength)
      then Some (coord1 v - offset, coord2 v + offset) else None
  | None => None
  end.

(** The interval an insertion query sweeps, if it is swept. *)
Definition insertion_query_interval (min_length max_length : option Z)
    (v : variation) : option (Z * Z) :=
  match var_type v with
  | INS => if bool_decide (0 < coord2 v) && passes (coord2 v) min_length max_length
           then Some (coord1 v, coord1 v + coord2 v) else None
  | _ => None
  end.

(** Position, inserted length and effective length of an insertion target. *)
Definition insertion_target_data (v : variation) : option (Z * Z * Z) :=
  match var_type v with
  | INS => Some (coord1 v, coord2 v, coord2 v)
  | MIX => (λ ins_length, ((coord1 v + coord2 v) `div` 2, ins_length,
                           ins_length - (coord2 v - coord1 v))) <$> coord3 v
  | DEL => None
  end.

(** The widened interval an insertion target sweeps, if it is swept. *)
Definition insertion_target_interval (min_length max_length : option Z)
    (offset difflength : Z) (v : variation) : option (Z * Z) :=
  match insertion_target_data v with
  | Some (pos, ins_length, effective_length) =>
      if bool_decide (0 < ins_length)
         && passes effective_length (widened_min min_length difflength)
                                    (widened_max max_length difflength)
      then Some (pos - offset, pos + ins_length + offset) else None
  | None => None
  end.

(** A deletion of length 3, and one of length 70. *)
Definition sample_short_deletion : variation :=
  {| coord1 := 0; coord2 := 3; coord3 := None; var_type := DEL; tags := None |}.

Definition sample_deletion : variation :=
  {| coord1 := 100; coord2 := 170; coord3 := None; var_type := DEL; tags := None |}.



(** The exact test of [deletion_hit_statistics] in modes [overlap] and
    [fixed_distance], for a query [c1, c2) and a target [v1] of effective
    length [eff]. *)
Definition deletion_test (mode : string) (offset : option Z) (difflength : Z)
    (c1 c2 : Z) (v1 : variation) (eff : Z) : bool :=
  bool_decide (Z.abs (c2 - c1 - eff) ≤ difflength)
  && (if bool_decide (mode = "overlap")
      then bool_decide (0 < Z.max 0 (Z.min c2 (coord2 v1) - Z.max c1 (coord1 v1)))
      else py2_le_Qc (Qcabs (center c1 c2 - center (coord1 v1) (coord2 v1))) offset).

(** The hit [deletion_hit_statistics] records for target [j]. *)
Definition deletion_hit (c1 c2 : Z) (j : nat) (v1 : variation) (ty1 : option nat)
    (eff : Z) : hit :=
  (j, Z.abs (c2 - c1 - eff),
   Qcabs (center c1 c2 - center (coord1 v1) (coord2 v1)), ty1).

(** The indices, from [i] on, of the variants of [l] that satisfy [P]. *)
Fixpoint query_indices (P : variation → bool) (i : nat) (l : list variation)
    : list nat :=
  match l with
  | [] => []
  | v :: l => (if P v then [i] else []) ++ query_indices P (Datatypes.S i) l
  end.

(** The deletions that [deletion_hit_statistics] queries. *)
Definition deletion_query (min_length max_length : option Z) (v : variation)
    : bool :=
  bool_decide (var_type v = DEL)
  && passes (coord2 v - coord1 v) min_length max_length.

(** The genotype of a record can be encoded when in trio mode. *)
Definition typed (trio : bool) (v : variation) : Prop :=
  ∃ t, typing_of trio (tags v) = Ok t.

(** [h] is the hit of some target [j] of [js] that passes the exact test;
    [mix] tells whether targets of kind MIX or the others are meant. *)
Definition deletion_hit_of (another : list variation) (mode : string)
    (trio : bool) (offset : option Z) (difflength : Z) (c1 c2 : Z)
    (js : list nat) (mix : bool) (h : hit) : Prop :=
  ∃ j v1 ty1 eff,
    j ∈ js ∧ another !! j = Some v1 ∧ typing_of trio (tags v1) = Ok ty1
    ∧ deletion_effective_length v1 = Some eff
    ∧ bool_decide (var_type v1 = MIX) = mix
    ∧ deletion_test mode offset difflength c1 c2 v1 eff = true
    ∧ h = deletion_hit c1 c2 j v1 ty1 eff.

(** ** Further specification predicates *)

(** Records on which the event loops of [find_all_deletion_overlaps] do not
    raise: the coordinates of a deletion or of the deleted part of a MIX
    event are ordered, and a MIX event has an insertion length. *)
Definition ordered_variation (v : variation) : Prop :=
  match var_type v with
  | DEL => coord1 v ≤ coord2 v
  | INS => True
  | MIX => coord1 v ≤ coord2 v ∧ is_Some (coord3 v)
  end.

(** After the events [pre], the active sets only hold variants that have a
    start event in [pre]. *)
Definition started_inv (pre : list event) (st : sweep_state) : Prop :=
  ∃ a0 a1 : gset nat,
    st.2 = [a0; a1]
    ∧ (∀ n, n ∈ a0 → ∃ p, (p, evS, 0%nat, n) ∈ pre)
    ∧ (∀ n, n ∈ a1 → ∃ p, (p, evS, 1%nat, n) ∈ pre).

(** A collection with one zero-length deletion on chr1, and an empty one. *)
Definition sample_empty_deletion : VariationList :=
  {| variations := {[ "chr1" :=
       [ {| coord1 := 7; coord2 := 7; coord3 := None; var_type := DEL;
            tags := None |} ] ]} |}.

Definition sample_no_variants : VariationList := {| variations := ∅ |}.

(** A called insertion of 30 bases at chr1:100; and a collection with an
    insertion of 35 bases at chr1:110 and a MIX event that deletes
    chr1:90-96 and inserts 40 bases. *)
Definition sample_insertion_call : VariationList :=
  {| variations := {[ "chr1" :=
       [ {| coord1 := 100; coord2 := 30; coord3 := None; var_type := INS;
            tags := None |} ] ]} |}.

Definition sample_insertion_truth : VariationList :=
  {| variations := {[ "chr1" :=
       [ {| coord1 := 110; coord2 := 35; coord3 := None; var_type := INS;
            tags := None |};
         {| coord1 := 90; coord2 := 96; coord3 := Some 40; var_type := MIX;
            tags := None |} ] ]} |}.

(** The exact hits ([mix = false]) or the MIX hits ([mix = true]) of an
    outcome. *)
Definition hits_of (mix : bool) (s : VariationStatistics) : list hit :=
  if mix then vs_mix_hits s else vs_hits s.

(** Collections whose records all carry a genotype that can be encoded
    (nothing is asked when not in trio mode). *)
Definition typed_list (trio : bool) (l : VariationList) : Prop :=
  ∀ chromosome vs, variations l !! chromosome = Some vs → Forall (typed trio) vs.

(** The keys [(chromosome, index)] of the queried records: for each
    chromosome in turn, the indices of the records that satisfy [P]. *)
Definition outcome_keys (P : variation → bool) (self : VariationList)
    (chromosomes : list string) : list (string * nat) :=
  c ← chromosomes;
  (λ i, (lower c, i)) <$> query_indices P 0 (variations_of self (lower c)).

(** [h] is the hit that the queried deletion [q] records for some swept
    target of [another] that passes the exact test; [mix] tells whether
    targets of kind MIX or the others are meant. *)
Definition deletion_hit_spec (another : list variation) (mode : string)
    (trio : bool) (min_length max_length offset : option Z) (difflength : Z)
    (q : variation) (mix : bool) (h : hit) : Prop :=
  ∃ j t ty eff,
    another !! j = Some t ∧ typing_of trio (tags t) = Ok ty
    ∧ deletion_effective_length t = Some eff
    ∧ passes eff (widened_min min_length difflength)
        (widened_max max_length difflength) = true
    ∧ coord1 t - default 0 offset < coord2 q
    ∧ coord1 q < coord2 t + default 0 offset
    ∧ bool_decide (var_type t = MIX) = mix
    ∧ deletion_test mode offset difflength (coord1 q) (coord2 q) t eff = true
    ∧ h = deletion_hit (coord1 q) (coord2 q) j t ty eff.

(** The insertions that [insertion_hit_statistics] queries. *)
Definition insertion_query (min_length max_length : option Z) (v : variation)
    : bool :=
  bool_decide (var_type v = INS) && passes (coord2 v) min_length max_length.

(** The exact test of [insertion_hit_statistics] in modes [overlap] and
    [fixed_distance], for a query of length [length0] at [c1] and a target
    of effective length [eff] at [start1]. *)
Definition insertion_test (mode : string) (offset : option Z) (difflength : Z)
    (c1 length0 start1 eff : Z) : bool :=
  bool_decide (Z.abs (length0 - eff) ≤ difflength)
  && (if bool_decide (mode = "overlap")
      then bool_decide
             (0 < Z.max 0 (Z.min (c1 + length0) (start1 + eff) - Z.max c1 start1))
      else py2_le_Z (Z.abs (c1 - start1)) offset).

(** The hit [insertion_hit_statistics] records for target [j]. *)
Definition insertion_hit (c1 length0 : Z) (j : nat) (start1 eff : Z)
    (ty1 : option nat) : hit :=
  (j, Z.abs (length0 - eff), Qc_of_Z (Z.abs (c1 - start1)), ty1).

(** What candidate [j] adds to the outcome of an insertion query: length
    difference, distance, genotype and kind of the hit, if it is one. *)
Definition insertion_result (another : list variation) (mode : string)
    (trio : bool) (offset : option Z) (difflength : Z) (c1 length0 : Z)
    (j : nat) : option (Z * Qc * option nat * bool) :=
  match another !! j with
  | Some v1 =>
      match typing_of trio (tags v1), insertion_target_data v1 with
      | Ok ty1, Some (start1, _, eff) =>
          if insertion_test mode offset difflength c1 length0 start1 eff
          then Some (Z.abs (length0 - eff), Qc_of_Z (Z.abs (c1 - start1)), ty1,
                     bool_decide (var_type v1 = MIX))
          else None
      | _, _ => None
      end
  | None => None
  end.

(** [h] is the hit that the queried insertion [q] records for some swept
    target of [another] that passes the exact test. *)
Definition insertion_hit_spec (another : list variation) (mode : string)
    (trio : bool) (min_length max_length offset : option Z) (difflength : Z)
    (q : variation) (mix : bool) (h : hit) : Prop :=
  ∃ j t ty pos ins_length eff,
    another !! j = Some t ∧ typing_of trio (tags t) = Ok ty
    ∧ 0 < coord2 q
    ∧ insertion_target_data t = Some (pos, ins_length, eff)
    ∧ 0 < ins_length
    ∧ passes eff (widened_min min_length difflength)
        (widened_max max_length difflength) = true
    ∧ pos - default 0 offset < coord1 q + coord2 q
    ∧ coord1 q < pos + ins_length + default 0 offset
    ∧ bool_decide (var_type t = MIX) = mix
    ∧ insertion_test mode offset difflength (coord1 q) (coord2 q) pos eff = true
    ∧ h = insertion_hit (coord1 q) (coord2 q) j pos eff ty.

(** ** One length range of [main] *)

(** The body of the loop over [enumerate(predictions_lists)] of [main]:
    the tuple that is appended to [stats_lists]. *)
Definition tool_stats_lists (iter : gset nat → list nat)
    (true_variants : VariationList) (chromosomes : list string)
    (true_deletion_stats true_insertion_stats : count_stats_t) (mode : string)
    (trio : bool) (min_length max_length : Z) (offset : option Z)
    (difflength : Z) (siglevel : Qc) (predictions : VariationList)
    : res stats_lists_entry :=
  del_recall_list ←
    deletion_hit_statistics iter true_variants predictions chromosomes
      true_deletion_stats mode trio (Some min_length) (Some max_length) offset
      (Some difflength) siglevel None;
  del_prec_list ←
    deletion_hit_statistics iter predictions true_variants chromosomes
      true_deletion_stats mode trio (Some min_length) (Some max_length) offset
      (Some difflength) siglevel None;
  ins_recall_list ←
    insertion_hit_statistics iter true_variants predictions chromosomes
      true_insertion_stats mode trio (Some min_length) (Some max_length) offset
      (Some difflength) siglevel None;
  ins_prec_list ←
    insertion_hit_statistics iter predictions true_variants chromosomes
      true_insertion_stats mode trio (Some min_length) (Some max_length) offset
      (Some difflength) siglevel None;
  Ok (ins_prec_list, ins_recall_list, del_prec_list, del_recall_list).

(** The loop over [predictions_lists]. *)
Fixpoint stats_lists_loop (f : VariationList → res stats_lists_entry)
    (predictions_lists : list VariationList) : res (list stats_lists_entry) :=
  match predictions_lists with
  | [] => Ok []
  | predictions :: predictions_lists =>
      e ← f predictions;
      es ← stats_lists_loop f predictions_lists;
      Ok (e :: es)
  end.

(** One iteration of the loop over [length_ranges] of [main]: the list
    appended to [results], and the pair appended to [true_indel_counts]
    when there is a first tool. *)
Definition length_range_results (iter : gset nat → list nat)
    (true_variants : VariationList) (predictions_lists : list VariationList)
    (chromosomes tool_names : list string)
    (true_deletion_stats true_insertion_stats : count_stats_t) (mode : string)
    (trio : bool) (min_length max_length : Z) (offset : option Z)
    (difflength : Z) (siglevel : Qc)
    : res (list ToolStatistics * option (nat * nat)) :=
  stats_lists ←
    stats_lists_loop
      (tool_stats_lists iter true_variants chromosomes true_deletion_stats
         true_insertion_stats mode trio min_length max_length offset difflength
         siglevel)
      predictions_lists;
  result ← aggregate_toolwise_statistics stats_lists tool_names;
  Ok (result,
      (λ e, (length (ins_recall_list e), length (del_recall_list e)))
        <$> head stats_lists).

(** In trio mode, every record carries a genotype string of three
    characters over 0, 1, 2, as the loader builds it. *)
Definition genotyped_list (trio : bool) (l : VariationList) : Prop :=
  trio = true →
  ∀ chromosome vs, variations l !! chromosome = Some vs →
    Forall (λ v, ∃ g, tags v = Some g ∧ genotype_string g) vs.

(** The key [(chromosome, index)] of an outcome. *)
Definition outcome_key (s : VariationStatistics) : string * nat :=
  (vs_chromosome s, vs_index s).

(** Some queried deletion of chromosome [c] has a candidate: a swept target
    whose widened interval it meets. *)
Definition deletion_candidate_pair (self another_list : VariationList)
    (min_length max_length offset difflength : option Z) (c : string) : Prop :=
  ∃ i j q t eff,
    variations_of self (lower c) !! i = Some q
    ∧ variations_of another_list (lower c) !! j = Some t
    ∧ deletion_query min_length max_length q = true
    ∧ deletion_effective_length t = Some eff
    ∧ passes eff (widened_min min_length (default 0 difflength))
        (widened_max max_length (default 0 difflength)) = true
    ∧ coord1 t - default 0 offset < coord2 q
    ∧ coord1 q < coord2 t + default 0 offset.

(** An outcome without hits of either kind. *)
Definition no_hits (s : VariationStatistics) : Prop :=
  vs_hits s = [] ∧ vs_mix_hits s = [].

(** A collection whose only records are stored under a key that is not
    lower-case, as the loader builds it for a chromosome named "X". *)
Definition sample_upper_key : VariationList :=
  {| variations := {[ "chrX" :=
       [ {| coord1 := 100; coord2 := 200; coord3 := None; var_type := DEL;
            tags := None |} ] ]} |}.

(** ** More of the summaries *)



(** Entry [m[i][j]] of a matrix and entry [l[i]] of a list of counters, zero
    outside. *)
Definition matrix_cell (m : list (list nat)) (i j : nat) : nat :=
  default 0%nat (row ← m !! i; row !! j).

Definition list_cell (l : list nat) (i : nat) : nat := default 0%nat (l !! i).

(** The genotype of the best hit of an outcome, if it has one. *)
Definition best_typing (s : VariationStatistics) : option nat :=
  match get_best_hit s with
  | Ok (Some h) => h.2
  | _ => None
  end.

(** The cell of the type matrix that an outcome is counted in: row, the
    genotype of the variant; column, the genotype of its best hit, or 0 when
    it has neither an exact nor a MIX hit. *)
Definition type_cell (s : VariationStatistics) : option (nat * nat) :=
  match vs_typing s with
  | Some t0 =>
      if is_hit s then (λ t1, (t0, t1)) <$> best_typing s
      else if is_mix_hit s then None
      else Some (t0, 0%nat)
  | None => None
  end.

(** The genotype under which the best hit of a typed outcome is counted in
    [callsums]. *)
Definition call_type (s : VariationStatistics) : option nat :=
  match vs_typing s with
  | Some _ => if is_hit s then best_typing s else None
  | None => None
  end.

(** The number of elements of [l] that satisfy [P]. *)
Definition count_where {A} (P : A → Prop) `{∀ x, Decision (P x)} (l : list A)
    : nat :=
  length (filter P l).

(** ** More of the genotype encoding *)

(** The loop of [membership_from_type]:
    [index += 2**i * min(int(genostring[len-i-1]), 1)]. *)
Fixpoint membership_from_type_loop (genostring : string) (range : list nat)
    (index : nat) : res nat :=
  match range with
  | [] => Ok index
  | i :: range =>
      c ← str_index genostring (String.length genostring - i - 1)%nat;
      d ← int_of_char c;
      membership_from_type_loop genostring range
        (index + 2 ^ i * Nat.min d 1)%nat
  end.

(** [membership_from_type(genostring)] *)
Definition membership_from_type (genostring : option string) : res nat :=
  match genostring with
  | None => Raise TypeError
  | Some g => membership_from_type_loop g (seq 0 (String.length g)) 0%nat
  end.

(** The global tables [type2member], [type2trio], [triotypedict],
    [mistypedict] and [mistypes]. *)
Definition type2member : list nat :=
  [0; 1; 1; 2; 4; 4; 2; 4; 4; 3; 5; 5; 6; 7; 7; 6; 7; 7; 3; 5; 5; 6; 7; 7; 6;
   7; 7]%nat.

Definition type2trio : list nat :=
  [0; 1; 11; 2; 3; 12; 13; 4; 14; 2; 3; 12; 5; 6; 7; 15; 8; 9; 13; 4; 14; 15;
   8; 9; 16; 17; 10]%nat.

Definition triotypedict : gmap string nat :=
  list_to_map
    [("000", 0); ("001", 1); ("010", 2); ("100", 2); ("011", 3); ("101", 3);
     ("021", 4); ("201", 4); ("110", 5); ("111", 6); ("112", 7); ("121", 8);
     ("211", 8); ("122", 9); ("212", 9); ("222", 10)]%nat.

Definition mistypedict : gmap string nat :=
  list_to_map
    [("002", 11); ("012", 12); ("102", 12); ("020", 13); ("200", 13);
     ("022", 14); ("202", 14); ("120", 15); ("210", 15); ("220", 16);
     ("221", 17)]%nat.

Definition mistypes : list nat := [2; 5; 6; 8; 11; 15; 18; 20; 21; 24; 25]%nat.

(** Decimal digits and their values. *)
Definition is_digit (c : ascii) : bool :=
  bool_decide (48 ≤ nat_of_ascii c ≤ 57)%nat.

Definition digit_value (c : ascii) : nat := (nat_of_ascii c - 48)%nat.

Fixpoint all_digits (s : string) : bool :=
  match s with
  | EmptyString => true
  | String c s => is_digit c && all_digits s
  end.

(** The value of a digit string in base [b], most significant digit first,
    each digit passed through [f]. *)
Fixpoint positional (b : nat) (f : nat → nat) (s : string) : nat :=
  match s with
  | EmptyString => 0%nat
  | String c s => (b ^ String.length s * f (digit_value c) + positional b f s)%nat
  end.

(** The membership classes 3 (only in mother) and 4 (only in father and
    child) of [type2member], exchanged. *)
Definition swap_3_4 (m : nat) : nat :=
  if decide (m = 3%nat) then 4%nat else if decide (m = 4%nat) then 3%nat else m.

(** ** Best values over the tools *)

(** Python's [min(a, b)]: the first argument unless the second is smaller. *)
Definition py_min (a b : Qc) : Qc := if decide (b < a)%Qc then b else a.

(** [nonemax(v1, v2)] *)
Definition nonemax (v1 v2 : option pyfloat) : option pyfloat :=
  match v1 with
  | None => v2
  | Some a =>
      match v2 with
      | None => v1
      | Some b =>
          match a with
          | PyNaN => v2
          | PyFloat x =>
              match b with
              | PyNaN => v1
              | PyFloat y => Some (PyFloat (py_max x y))
              end
          end
      end
  end.

(** [nonemin(v1, v2)] *)
Definition nonemin (v1 v2 : option pyfloat) : option pyfloat :=
  match v1 with
  | None => v2
  | Some a =>
      match v2 with
      | None => v1
      | Some b =>
          match a with
          | PyNaN => v2
          | PyFloat x =>
              match b with
              | PyNaN => v1
              | PyFloat y => Some (PyFloat (py_min x y))
              end
          end
      end
  end.

(** [self.improve(results)]: the state of [self] afterwards. *)
Definition improve (self results : ToolStatistics) : ToolStatistics :=
  {| name := None;
     insertion_count := insertion_count self;
     insertion_recall := nonemax (insertion_recall self) (insertion_recall results);
     insertion_precision := nonemax (insertion_precision self) (insertion_precision results);
     insertion_mix_hits := nonemax (insertion_mix_hits self) (insertion_mix_hits results);
     insertion_exclusivity := nonemax (insertion_exclusivity self) (insertion_exclusivity results);
     insertion_avg_lendiff := nonemin (insertion_avg_lendiff self) (insertion_avg_lendiff results);
     insertion_avg_distance := nonemin (insertion_avg_distance self) (insertion_avg_distance results);
     insertion_f := nonemax (insertion_f self) (insertion_f results);
     insertion_precision_types := insertion_precision_types self;
     insertion_precision_varsums := insertion_precision_varsums self;
     insertion_precision_callsums := insertion_precision_callsums self;
     insertion_recall_types := insertion_recall_types self;
     insertion_recall_varsums := insertion_recall_varsums self;
     insertion_recall_callsums := insertion_recall_callsums self;
     deletion_count := deletion_count self;
     deletion_recall := nonemax (deletion_recall self) (deletion_recall results);
     deletion_precision := nonemax (deletion_precision self) (deletion_precision results);
     deletion_mix_hits := nonemax (deletion_mix_hits self) (deletion_mix_hits results);
     deletion_exclusivity := nonemax (deletion_exclusivity self) (deletion_exclusivity results);
     deletion_avg_lendiff := nonemin (deletion_avg_lendiff self) (deletion_avg_lendiff results);
     deletion_avg_distance := nonemin (deletion_avg_distance self) (deletion_avg_distance results);
     deletion_f := nonemax (deletion_f self) (deletion_f results);
     deletion_precision_types := deletion_precision_types self;
     deletion_precision_varsums := deletion_precision_varsums self;
     deletion_precision_callsums := deletion_precision_callsums self;
     deletion_recall_types := deletion_recall_types self;
     deletion_recall_varsums := deletion_recall_varsums self;
     deletion_recall_callsums := deletion_recall_callsums self |}.

(** [best = ToolStatistics()] followed by [best.improve(tool_stats)] for
    each tool, as the LaTeX report computes the values it prints in bold. *)
Definition best_statistics (toolwise_results : list ToolStatistics)
    : ToolStatistics :=
  foldl improve (ToolStatistics_init None) toolwise_results.

(** The fields of which [improve] keeps the larger value, and those of
    which it keeps the smaller. *)
Definition improve_max_fields : list (ToolStatistics → option pyfloat) :=
  [insertion_recall; insertion_precision; insertion_mix_hits; insertion_exclusivity; insertion_f; deletion_recall; deletion_precision; deletion_mix_hits; deletion_exclusivity; deletion_f].

Definition improve_min_fields : list (ToolStatistics → option pyfloat) :=
  [insertion_avg_lendiff; insertion_avg_distance; deletion_avg_lendiff; deletion_avg_distance].

(** The fields [improve] leaves alone, here as one tuple. *)
Definition improve_kept_fields (ts : ToolStatistics) :=
  (insertion_count ts, insertion_precision_types ts,
   insertion_precision_varsums ts, insertion_precision_callsums ts,
   insertion_recall_types ts, insertion_recall_varsums ts,
   insertion_recall_callsums ts, deletion_count ts,
   deletion_precision_types ts, deletion_precision_varsums ts,
   deletion_precision_callsums ts, deletion_recall_types ts,
   deletion_recall_varsums ts, deletion_recall_callsums ts).

(** * Properties *)

(** ** F-measure *)



(** ** Genotype encoding *)

Lemma ternary_cases (c : ascii) :
  ternary c → c = "0"%char ∨ c = "1"%char ∨ c = "2"%char.
Proof. unfold ternary. rewrite !elem_of_cons, elem_of_nil. tauto. Qed.

Lemma genotype_string_index (m f c : ascii) :
  ternary m → ternary f → ternary c →
  ∃ k : nat,
    k = (9 * ternary_value m + 3 * ternary_value f + 1 * ternary_value c)%nat
    ∧ index_from_type (Some (String m (String f (String c EmptyString)))) = Ok k
    ∧ (k ≤ 26)%nat
    ∧ typedict !! String m (String f (String c EmptyString)) = Some k
    ∧ idx_to_triotype !! k = Some (String m (String f (String c EmptyString))).
Proof.
  intros Hm Hf Hc.
  destruct (ternary_cases m Hm) as [->|[->| ->]],
           (ternary_cases f Hf) as [->|[->| ->]],
           (ternary_cases c Hc) as [->|[->| ->]];
    eexists; (split; [reflexivity|]);
    (split_and!; [by vm_compute | vm_compute; lia | by vm_compute | by vm_compute]).
Qed.

(** C9: a 3-character string over 0,1,2 is encoded as the base-3 number
    whose least significant digit is the last character; the code is at most
    26, agrees with [typedict], is decoded back to the string by the
    inverted [typedict], and determines the string. *)
Theorem index_from_type_ternary (m f c : ascii) (s2 : string)
    (Hm : ternary m) (Hf : ternary f) (Hc : ternary c)
    (Hs2 : genotype_string s2) :
  let s := String m (String f (String c EmptyString)) in
  let k := (9 * ternary_value m + 3 * ternary_value f + 1 * ternary_value c)%nat in
  index_from_type (Some s) = Ok k
  ∧ (0 ≤ k ≤ 26)%nat
  ∧ typedict !! s = Some k
  ∧ idx_to_triotype !! k = Some s
  ∧ (index_from_type (Some s2) = index_from_type (Some s) → s2 = s).
Proof.
  intros s k.
  destruct (genotype_string_index m f c Hm Hf Hc) as (k0 & Ek & Hk & Hle & Ht & Hd).
  fold k in Ek. fold s in Hk, Ht, Hd. clearbody s k. subst k0.
  split_and!; [exact Hk | lia | exact Hle | exact Ht | exact Hd | ].
  destruct Hs2 as (m' & f' & c' & -> & Hm' & Hf' & Hc').
  destruct (genotype_string_index m' f' c' Hm' Hf' Hc')
    as (k' & _ & Hk' & _ & _ & Hd').
  rewrite Hk, Hk'. intros [= ->]. congruence.
Qed.

Lemma index_from_type_ternary_witness :
  index_from_type (Some "021"%string) = Ok 7%nat
  ∧ idx_to_triotype !! 7%nat = Some "021"%string.
Proof.
  assert (H0 : ternary "0") by (unfold ternary; rewrite !elem_of_cons; auto).
  assert (H1 : ternary "1") by (unfold ternary; rewrite !elem_of_cons; auto).
  assert (H2 : ternary "2") by (unfold ternary; rewrite !elem_of_cons; auto).
  assert (Hs : genotype_string "120").
  { exists "1"%char, "2"%char, "0"%char. done. }
  destruct (index_from_type_ternary "0" "2" "1" "120" H0 H2 H1 Hs)
    as (Hk & _ & _ & Hd & _).
  split; [exact Hk | exact Hd].
Defined.

(** ** Best-hit selection *)

Lemma best_inv_step (pre : list hit) (h : hit) (bs : option Qc) (bi : Z) :
  best_inv pre bs bi →
  best_inv (pre ++ [h])
    (if score_lt (hit_score h) bs then Some (hit_score h) else bs)
    (if score_lt (hit_score h) bs then Z.of_nat (length pre) else bi).
Proof.
  unfold best_inv, best_of. intros Hinv. destruct bs as [s|]; simpl in *.
  - destruct Hinv as (i & h0 & -> & <- & Hi & Hmin & Hfirst).
    assert (Hlt : (i < length pre)%nat) by (by eapply lookup_lt_Some).
    case_bool_decide as Hs.
    + exists (length pre), h. split_and!; try done.
      * by rewrite lookup_app_r, Nat.sub_diag by lia.
      * intros j h' Hj. apply lookup_app_Some in Hj as [Hj|[_ Hj]].
        -- apply Qclt_le_weak. eapply Qclt_le_trans; [exact Hs|]. eauto.
        -- apply list_lookup_singleton_Some in Hj as [_ <-]. apply Qcle_refl.
      * intros j h' Hjl Hj. rewrite lookup_app_l in Hj by done.
        eapply Qclt_le_trans; [exact Hs|]. eauto.
    + exists i, h0. split_and!; try done.
      * by rewrite lookup_app_l.
      * intros j h' Hj. apply lookup_app_Some in Hj as [Hj|[_ Hj]]; [eauto|].
        apply list_lookup_singleton_Some in Hj as [_ <-]. by apply Qcnot_lt_le.
      * intros j h' Hjl Hj. rewrite lookup_app_l in Hj by lia. eauto.
  - destruct Hinv as [-> ->]. exists 0%nat, h. split_and!; try done.
    + intros [|j] h' Hj; simplify_eq/=. apply Qcle_refl.
    + intros j h' Hjl. lia.
Qed.

Lemma get_best_hit_loop_spec (hits pre : list hit) (bs : option Qc) (bi : Z) :
  best_inv pre bs bi →
  best_inv (pre ++ hits)
    (get_best_hit_loop hits (length pre) bs bi).1
    (get_best_hit_loop hits (length pre) bs bi).2.
Proof.
  revert pre bs bi. induction hits as [|h hits IH]; intros pre bs bi Hinv; simpl.
  - by rewrite app_nil_r.
  - pose proof (best_inv_step pre h bs bi Hinv) as Hstep.
    replace (pre ++ h :: hits) with ((pre ++ [h]) ++ hits) by (by rewrite <-app_assoc).
    replace (S (length pre)) with (length (pre ++ [h])) by (rewrite length_app; simpl; lia).
    destruct (score_lt (hit_score h) bs); by apply IH.
Qed.

Lemma py_index_nat {A} (l : list A) (i : nat) (x : A) :
  l !! i = Some x → py_index l (Z.of_nat i) = Ok x.
Proof.
  intros Hi. unfold py_index.
  cbv zeta. rewrite (bool_decide_eq_false_2 (Z.of_nat i < 0)) by lia.
  rewrite (bool_decide_eq_false_2 (Z.of_nat i < 0)) by lia.
  by rewrite Nat2Z.id, Hi.
Qed.

Lemma get_best_hit_nonempty (self : VariationStatistics) :
  vs_hits self ≠ [] →
  ∃ i h, get_best_hit self = Ok (Some h) ∧ best_of (vs_hits self) i h.
Proof.
  intros Hne. unfold get_best_hit.
  rewrite bool_decide_eq_false_2 by (destruct (vs_hits self); simpl; [done|lia]).
  pose proof (get_best_hit_loop_spec (vs_hits self) [] None (-1)) as Hloop.
  simpl in Hloop. destruct (get_best_hit_loop (vs_hits self) 0 None (-1)) as [bs bi].
  specialize (Hloop (conj eq_refl eq_refl)). simpl in Hloop.
  destruct bs as [s|]; simpl in Hloop.
  - destruct Hloop as (i & h & -> & _ & Hbest). exists i, h.
    split; [|done]. destruct Hbest as (Hi & _). by rewrite (py_index_nat _ _ _ Hi).
  - by destruct Hloop.
Qed.



(** ** Summaries *)

Lemma list_incr_ok (l : list nat) (i : nat) :
  (i < length l)%nat → ∃ l', list_incr l i = Ok l' ∧ length l' = length l.
Proof.
  intros Hi. unfold list_incr.
  destruct (lookup_lt_is_Some_2 l i Hi) as [x ->].
  eexists. split; [done|]. by rewrite length_insert.
Qed.

Lemma matrix_incr_ok (m : list (list nat)) (i j : nat) :
  length m = 27%nat → Forall (λ row, length row = 27%nat) m →
  (i < 27)%nat → (j < 27)%nat →
  ∃ m', matrix_incr m i j = Ok m'
        ∧ length m' = 27%nat ∧ Forall (λ row, length row = 27%nat) m'.
Proof.
  intros Hm Hrows Hi Hj. unfold matrix_incr.
  destruct (lookup_lt_is_Some_2 m i) as [row Hrow]; [lia|]. rewrite Hrow.
  assert (Hlen : length row = 27%nat).
  { by eapply (Forall_lookup_1 _ _ _ _ Hrows). }
  destruct (list_incr_ok row j) as (row' & -> & Hlen'); [lia|]. simpl.
  eexists. split; [done|]. split; [by rewrite length_insert|].
  apply Forall_insert; [done|]. by rewrite Hlen'.
Qed.

Lemma is_hit_true (s : VariationStatistics) :
  is_hit s = true ↔ vs_hits s ≠ [].
Proof.
  unfold is_hit. rewrite bool_decide_eq_true.
  destruct (vs_hits s); simpl; split; (done || lia).
Qed.

Lemma summarize_step_spec (pre rest : list bool) (stats : VariationStatistics)
    (v : summary_vars) :
  wf_stats stats → tables_shape v →
  sv_hit_bitarray v = pre ++ false :: rest →
  ∃ v', summarize_step (length pre) stats v = Ok v'
    ∧ tables_shape v'
    ∧ sv_hit_bitarray v' = pre ++ is_hit stats :: rest
    ∧ sv_hits v' = (sv_hits v + if is_hit stats then 1 else 0)%nat
    ∧ sv_mix_hits v' = (sv_mix_hits v + if mix_only stats then 1 else 0)%nat.
Proof.
  intros [Hty Hhits] (Hm & Hrows & Hvs & Hcs) Hbits. unfold summarize_step.
  assert (Hvar : ∃ variantsums,
    match vs_typing stats with
    | Some t0 => list_incr (sv_variantsums v) t0
    | None => Ok (sv_variantsums v)
    end = Ok variantsums ∧ length variantsums = 27%nat).
  { destruct (vs_typing stats) as [t0|] eqn:Et; [|by eexists].
    destruct (list_incr_ok (sv_variantsums v) t0) as (l' & -> & Hl');
      [rewrite Hvs; by apply Hty|].
    eexists. split; [done|]. by rewrite Hl'. }
  destruct Hvar as (variantsums & -> & Hvs'). simpl.
  unfold mix_only. destruct (is_hit stats) eqn:Ehit; simpl.
  - apply is_hit_true in Ehit.
    destruct (get_best_hit_nonempty stats Ehit) as (i & h & -> & Hi & _). simpl.
    destruct h as [[[index length_diff] offset] typing1].
    unfold bitarray_set. rewrite Hbits.
    rewrite list_lookup_middle by done. simpl.
    assert (Hty1 : wf_typing typing1).
    { by apply (Forall_lookup_1 _ _ _ _ Hhits Hi). }
    assert (Htab : ∃ typematrix callsums,
      match vs_typing stats, typing1 with
      | Some t0, Some t1 =>
          typematrix ← matrix_incr (sv_typematrix v) t0 t1;
          callsums ← list_incr (sv_callsums v) t1;
          Ok (typematrix, callsums)
      | _, _ => Ok (sv_typematrix v, sv_callsums v)
      end = Ok (typematrix, callsums)
      ∧ length typematrix = 27%nat
      ∧ Forall (λ row, length row = 27%nat) typematrix
      ∧ length callsums = 27%nat).
    { destruct (vs_typing stats) as [t0|] eqn:Et; [|by do 2 eexists].
      destruct typing1 as [t1|]; [|by do 2 eexists].
      destruct (matrix_incr_ok (sv_typematrix v) t0 t1) as (m' & -> & ? & ?);
        [done|done|by apply Hty|by apply Hty1|]. simpl.
      destruct (list_incr_ok (sv_callsums v) t1) as (c' & -> & Hc');
        [rewrite Hcs; by apply Hty1|]. simpl.
      do 2 eexists. split; [done|]. split_and!; try done. by rewrite Hc'. }
    destruct Htab as (typematrix & callsums & -> & ? & ? & ?). simpl.
    eexists. split; [done|]. unfold tables_shape. simpl.
    split_and!; try done.
    by rewrite insert_app_r_alt, Nat.sub_diag by lia.
  - destruct (is_mix_hit stats) eqn:Emix; simpl.
    + eexists. split; [done|]. unfold tables_shape. simpl.
      split_and!; try done; lia.
    + assert (Htab : ∃ typematrix,
        match vs_typing stats with
        | Some t0 => matrix_incr (sv_typematrix v) t0 0
        | None => Ok (sv_typematrix v)
        end = Ok typematrix
        ∧ length typematrix = 27%nat
        ∧ Forall (λ row, length row = 27%nat) typematrix).
      { destruct (vs_typing stats) as [t0|] eqn:Et; [|by eexists].
        destruct (matrix_incr_ok (sv_typematrix v) t0 0) as (m' & -> & ? & ?);
          [done|done|by apply Hty|lia|]. by eexists. }
      destruct Htab as (typematrix & -> & ? & ?). simpl.
      eexists. split; [done|]. unfold tables_shape. simpl.
      split_and!; try done; lia.
Qed.

Lemma summarize_loop_spec (stats_list : list VariationStatistics) :
  ∀ (pre : list bool) (v : summary_vars),
  Forall wf_stats stats_list → tables_shape v →
  sv_hit_bitarray v = pre ++ replicate (length stats_list) false →
  ∃ v', summarize_loop (length pre) stats_list v = Ok v'
    ∧ tables_shape v'
    ∧ sv_hit_bitarray v' = pre ++ (is_hit <$> stats_list)
    ∧ sv_hits v' = (sv_hits v + bitarray_count (is_hit <$> stats_list))%nat
    ∧ sv_mix_hits v' = (sv_mix_hits v + bitarray_count (mix_only <$> stats_list))%nat.
Proof.
  induction stats_list as [|stats stats_list IH]; intros pre v Hwf Hshape Hbits.
  - exists v. simpl in *. rewrite app_nil_r in *. split_and!; try done; lia.
  - inversion Hwf as [|? ? Hwf1 Hwf']; subst. simpl in *.
    destruct (summarize_step_spec pre _ stats v Hwf1 Hshape Hbits)
      as (v1 & -> & Hshape1 & Hbits1 & Hh1 & Hm1). simpl.
    destruct (IH (pre ++ [is_hit stats]) v1 Hwf' Hshape1) as (v' & Hloop & ? & Hb & Hh & Hm).
    { by rewrite Hbits1, <-app_assoc. }
    rewrite length_app in Hloop. simpl in Hloop.
    rewrite Nat.add_1_r in Hloop. exists v'. split_and!; try done.
    + by rewrite Hb, <-app_assoc.
    + rewrite Hh, Hh1. symmetry. apply Nat.add_assoc.
    + rewrite Hm, Hm1. symmetry. apply Nat.add_assoc.
Qed.

Lemma summary_vars_init_shape (n : nat) : tables_shape (summary_vars_init n).
Proof.
  unfold tables_shape. simpl. split_and!; try done.
  repeat constructor.
Qed.

Lemma summarize_loop_top (stats_list : list VariationStatistics) :
  Forall wf_stats stats_list →
  ∃ v, summarize_loop 0 stats_list (summary_vars_init (length stats_list)) = Ok v
    ∧ sv_hit_bitarray v = is_hit <$> stats_list
    ∧ sv_hits v = bitarray_count (is_hit <$> stats_list)
    ∧ sv_mix_hits v = bitarray_count (mix_only <$> stats_list).
Proof.
  intros Hwf.
  destruct (summarize_loop_spec stats_list [] (summary_vars_init (length stats_list))
              Hwf (summary_vars_init_shape _) eq_refl)
    as (v & Hloop & _ & Hb & Hh & Hm).
  exists v. by split_and!.
Qed.











(** ** Cross-tool exclusivity *)

Lemma summarize_ok (l : list VariationStatistics) :
  Forall wf_stats l →
  ∃ r, summarize_variation_stats_list l = Ok r ∧ hit_bitarray r = is_hit <$> l.
Proof.
  intros Hwf. destruct (summarize_loop_top l Hwf) as (v & Hloop & Hb & _).
  unfold summarize_variation_stats_list. rewrite Hloop. simpl. by eexists.
Qed.

Lemma aggregate_tool_ok (name : string) (e : stats_lists_entry) :
  wf_entry e →
  ∃ ts, aggregate_tool name e
        = Ok (ts, is_hit <$> ins_recall_list e, is_hit <$> del_recall_list e).
Proof.
  destruct e as [[[ip ir] dp] dr]. intros (Hip & Hir & Hdp & Hdr).
  unfold ins_prec_list, ins_recall_list, del_prec_list, del_recall_list in *.
  simpl in *. unfold aggregate_tool.
  destruct (summarize_ok ip Hip) as (rip & -> & _).
  destruct (summarize_ok ir Hir) as (rir & -> & <-).
  destruct (summarize_ok dp Hdp) as (rdp & -> & _).
  destruct (summarize_ok dr Hdr) as (rdr & -> & <-). simpl. by eexists.
Qed.

Lemma aggregate_tools_ok (zipped : list (string * stats_lists_entry)) :
  Forall (λ ne, wf_entry ne.2) zipped →
  ∃ result, aggregate_tools zipped
            = Ok (result,
                  (λ ne, is_hit <$> ins_recall_list ne.2) <$> zipped,
                  (λ ne, is_hit <$> del_recall_list ne.2) <$> zipped)
            ∧ length result = length zipped.
Proof.
  induction zipped as [|[name e] zipped IH]; intros Hwf.
  - by exists [].
  - inversion Hwf as [|? ? Hwf1 Hwf']; subst. simpl in *.
    destruct (aggregate_tool_ok name e Hwf1) as (ts & ->).
    destruct (IH Hwf') as (result & -> & Hlen). simpl.
    exists (ts :: result). split; [done|]. simpl. by rewrite Hlen.
Qed.

Lemma bitarray_or_bit (others b : list bool) :
  length b = length others →
  bitarray_or others b
  = imap (λ j x, x || match b !! j with Some y => y | None => false end) others.
Proof.
  intros Hlen. apply list_eq. intros j. unfold bitarray_or.
  rewrite lookup_zip_with, list_lookup_imap.
  destruct (others !! j) as [x|] eqn:Ex; simpl; [|done].
  destruct (lookup_lt_is_Some_2 b j) as [y ->]; [|done].
  rewrite Hlen. by eapply lookup_lt_Some.
Qed.

Lemma recall_others_loop_spec (range : list nat) (tool_idx : nat)
    (ins_bits del_bits : list (list bool)) (n_ins n_del : nat) :
  ∀ ins_others del_others : list bool,
  Forall (λ b, length b = n_ins) ins_bits →
  Forall (λ b, length b = n_del) del_bits →
  length ins_bits = length del_bits →
  Forall (λ i, (i < length ins_bits)%nat) range →
  length ins_others = n_ins → length del_others = n_del →
  recall_others_loop range tool_idx ins_bits del_bits n_ins n_del
    ins_others del_others
  = Ok (imap (λ j x, x || others_bit ins_bits tool_idx range j) ins_others,
        imap (λ j x, x || others_bit del_bits tool_idx range j) del_others).
Proof.
  intros ins_others del_others Hins Hdel Hlen Hrange.
  revert ins_others del_others.
  induction Hrange as [|i range Hi Hrange IH]; intros ins_others del_others Hio Hdo.
  - simpl. f_equal. f_equal.
    + apply list_eq. intros j. rewrite list_lookup_imap.
      destruct (ins_others !! j); simpl; [|done]. by rewrite orb_false_r.
    + apply list_eq. intros j. rewrite list_lookup_imap.
      destruct (del_others !! j); simpl; [|done]. by rewrite orb_false_r.
  - simpl. case_bool_decide as Hik.
    + by rewrite IH.
    + unfold list_get.
      destruct (lookup_lt_is_Some_2 ins_bits i Hi) as [bi Hbi].
      destruct (lookup_lt_is_Some_2 del_bits i) as [di Hdi]; [lia|].
      rewrite Hbi. simpl.
      pose proof (Forall_lookup_1 _ _ _ _ Hins Hbi) as Hbl. simpl in Hbl.
      pose proof (Forall_lookup_1 _ _ _ _ Hdel Hdi) as Hdl. simpl in Hdl.
      rewrite bool_decide_eq_true_2 by done. simpl.
      rewrite Hdi. simpl. rewrite bool_decide_eq_true_2 by done. simpl.
      rewrite IH by (unfold bitarray_or; rewrite length_zip_with; lia).
      rewrite !bitarray_or_bit by lia.
      f_equal. f_equal.
      * apply list_eq. intros j. rewrite !list_lookup_imap.
        destruct (ins_others !! j); simpl; [|done].
        unfold bit_of. rewrite Hbi. by rewrite orb_assoc.
      * apply list_eq. intros j. rewrite !list_lookup_imap.
        destruct (del_others !! j); simpl; [|done].
        unfold bit_of. rewrite Hdi. by rewrite orb_assoc.
Qed.

Lemma exclusive_hits_bits (bits : list (list bool)) (k n : nat) (b : list bool)
    (total : nat) :
  bits !! k = Some b → length b = total →
  bitarray_and b
    (bitarray_invert
       (imap (λ j x, x || others_bit bits k (seq 0 n) j)
             (replicate total false)))
  = exclusive_bit bits k n <$> seq 0 total.
Proof.
  intros Hb <-. apply list_eq. intros j.
  unfold bitarray_and, bitarray_invert, exclusive_bit, bit_of.
  rewrite lookup_zip_with, list_lookup_fmap, list_lookup_imap, list_lookup_fmap.
  rewrite Hb. destruct (b !! j) as [x|] eqn:Ex; simpl.
  - assert (Hj : (j < length b)%nat) by (by eapply lookup_lt_Some).
    rewrite lookup_replicate_2, lookup_seq_lt by done. simpl. by rewrite Ex.
  - apply lookup_ge_None in Ex. by rewrite lookup_seq_ge.
Qed.

Lemma exclusivity_loop_spec (range : list nat)
    (ins_bits del_bits : list (list bool)) (n_ins n_del : nat) :
  ∀ result : list ToolStatistics,
  Forall (λ b, length b = n_ins) ins_bits →
  Forall (λ b, length b = n_del) del_bits →
  length ins_bits = length result → length del_bits = length result →
  Forall (λ k, (k < length result)%nat) range →
  ∃ result',
    exclusivity_loop range (length result) ins_bits del_bits result = Ok result'
    ∧ length result' = length result
    ∧ ∀ k ts', result' !! k = Some ts' →
        (k ∈ range →
           insertion_exclusivity ts'
             = Some (exclusivity_of ins_bits k (length result) n_ins)
           ∧ deletion_exclusivity ts'
             = Some (exclusivity_of del_bits k (length result) n_del))
        ∧ (k ∉ range → result !! k = Some ts').
Proof.
  intros result Hins Hdel Hli Hld Hrange. revert result Hli Hld Hrange.
  induction range as [|tool_idx range IH]; intros result Hli Hld Hrange.
  - exists result. split; [done|]. split; [done|].
    intros k ts' Hk. split; [|done]. intros Hin. by apply elem_of_nil in Hin.
  - inversion Hrange as [|? ? Hk Hrange']; subst. simpl. unfold list_get.
    destruct (lookup_lt_is_Some_2 ins_bits tool_idx) as [bk Hbk]; [lia|].
    destruct (lookup_lt_is_Some_2 del_bits tool_idx) as [dk Hdk]; [lia|].
    destruct (lookup_lt_is_Some_2 result tool_idx Hk) as [ts Hts].
    rewrite Hbk, Hdk. simpl.
    pose proof (Forall_lookup_1 _ _ _ _ Hins Hbk) as Hbl. simpl in Hbl.
    pose proof (Forall_lookup_1 _ _ _ _ Hdel Hdk) as Hdl. simpl in Hdl.
    rewrite !Hbl, !Hdl.
    rewrite recall_others_loop_spec; try done; try lia;
      [| apply Forall_seq; intros; lia
       | by rewrite length_replicate | by rewrite length_replicate].
    simpl. rewrite Hts. simpl.
    rewrite (exclusive_hits_bits ins_bits _ _ bk n_ins) by done.
    rewrite (exclusive_hits_bits del_bits _ _ dk n_del) by done.
    set (ts1 := set_exclusivity ts _ _).
    destruct (IH (<[tool_idx := ts1]> result)) as (result' & Hloop & Hlen & Hspec).
    { by rewrite length_insert. }
    { by rewrite length_insert. }
    { by rewrite length_insert. }
    rewrite length_insert in Hloop. exists result'. split; [exact Hloop|].
    rewrite length_insert in Hlen. split; [exact Hlen|].
    intros k ts' Hk'. destruct (Hspec k ts' Hk') as [Hin Hnotin].
    rewrite length_insert in Hin.
    split.
    + intros Hkin. destruct (decide (k ∈ range)) as [Hr|Hr]; [by apply Hin|].
      apply elem_of_cons in Hkin as [-> |?]; [|done].
      specialize (Hnotin Hr). rewrite list_lookup_insert_eq in Hnotin by done.
      injection Hnotin as <-. subst ts1. simpl.
      done.
    + intros Hkin. apply not_elem_of_cons in Hkin as [Hne Hr].
      specialize (Hnotin Hr). by rewrite list_lookup_insert_ne in Hnotin.
Qed.

Lemma Forall_fmap_intro {A B} (f : A → B) (P : B → Prop) (l : list A) :
  Forall (λ x, P (f x)) l → Forall P (f <$> l).
Proof. induction 1; simpl; constructor; auto. Qed.

Lemma Forall_zip_snd {A B} (P : B → Prop) (l : list A) (k : list B) :
  Forall P k → Forall (λ p, P p.2) (zip l k).
Proof.
  intros H. revert l. induction H; intros [|a l']; simpl; constructor; auto.
Qed.






(** ** The order on events and sorting *)

Lemma event_lt_irrefl (a : event) : ¬ event_lt a a.
Proof.
  destruct a as [[[p t] l] n]. unfold event_lt, event_type_lt. simpl.
  intros [?|[? [[? ?]|[? [?|[? ?]]]]]]; try lia. congruence.
Qed.

Lemma event_lt_trans (a b c : event) : event_lt a b → event_lt b c → event_lt a c.
Proof.
  destruct a as [[[p1 t1] l1] n1], b as [[[p2 t2] l2] n2], c as [[[p3 t3] l3] n3].
  unfold event_lt, event_type_lt. simpl.
  destruct t1, t2, t3; intros H1 H2;
    destruct H1 as [?|[? [[? ?]|[? [?|[? ?]]]]]];
    destruct H2 as [?|[? [[? ?]|[? [?|[? ?]]]]]];
    try discriminate; subst;
    first [ left; lia
          | right; split; [lia|]; first [ left; done
                                        | right; split; [done|]; first [left; lia | right; split; lia ] ] ].
Qed.

Lemma event_le_trans : Transitive event_le.
Proof.
  intros a b c [->|Hab] [->|Hbc]; unfold event_le; auto.
  right. by eapply event_lt_trans.
Qed.

Lemma event_le_total : Total event_le.
Proof.
  intros [[[p1 t1] l1] n1] [[[p2 t2] l2] n2].
  unfold event_le, event_lt, event_type_lt. simpl.
  destruct (Z.lt_trichotomy p1 p2) as [?|[-> |?]]; [by left; right; left| |by right; right; left].
  destruct t1, t2;
    try (left; right; right; split; [done|]; left; done);
    try (right; right; right; split; [done|]; left; done).
  - destruct (Nat.lt_trichotomy l1 l2) as [?|[-> |?]];
      [left; right; right; split; [done|]; right; split; [done|]; by left
      | |right; right; right; split; [done|]; right; split; [done|]; by left].
    destruct (Nat.lt_trichotomy n1 n2) as [?|[-> |?]];
      [left; right; right; split; [done|]; right; split; [done|]; right; by split
      |by left; left
      |right; right; right; split; [done|]; right; split; [done|]; right; by split].
  - destruct (Nat.lt_trichotomy l1 l2) as [?|[-> |?]];
      [left; right; right; split; [done|]; right; split; [done|]; by left
      | |right; right; right; split; [done|]; right; split; [done|]; by left].
    destruct (Nat.lt_trichotomy n1 n2) as [?|[-> |?]];
      [left; right; right; split; [done|]; right; split; [done|]; right; by split
      |by left; left
      |right; right; right; split; [done|]; right; split; [done|]; right; by split].
Qed.

Lemma sort_events_perm (events : list event) : sort_events events ≡ₚ events.
Proof. apply merge_sort_Permutation. Qed.

Lemma sort_events_elem (events : list event) (ev : event) :
  ev ∈ sort_events events ↔ ev ∈ events.
Proof. by rewrite sort_events_perm. Qed.

Lemma StronglySorted_le_lt (l : list event) :
  NoDup l → StronglySorted event_le l → StronglySorted event_lt l.
Proof.
  induction 2 as [|a l Hl IH Ha]; [constructor|].
  apply NoDup_cons in H as [Hnotin Hnd].
  constructor; [by apply IH|].
  apply Forall_forall. intros b Hb.
  destruct (proj1 (Forall_forall _ _) Ha b Hb) as [-> |?]; [done|done].
Qed.

Lemma sort_events_sorted (events : list event) :
  NoDup events → StronglySorted event_lt (sort_events events).
Proof.
  intros Hnd. apply StronglySorted_le_lt.
  - by rewrite sort_events_perm.
  - apply StronglySorted_merge_sort; [apply event_le_trans|apply event_le_total].
Qed.

(** ** The sweep *)

Lemma results_add_lookup (results : gmap nat (gset nat)) (k v k' : nat) :
  results_add results k v !!! k'
  = if decide (k' = k) then {[v]} ∪ results !!! k else results !!! k'.
Proof.
  unfold results_add. case_decide as Hk.
  - subst. by rewrite lookup_total_insert_eq.
  - by rewrite lookup_total_insert_ne.
Qed.

Lemma results_fold_query (results : gmap nat (gset nat)) (v : nat)
    (a1 : gset nat) (k j : nat) :
  j ∈ set_fold (λ index1 r, results_add r v index1) results a1 !!! k
  ↔ j ∈ results !!! k ∨ (k = v ∧ j ∈ a1).
Proof.
  apply (set_fold_ind_L
    (λ r (X : gset nat), j ∈ r !!! k ↔ j ∈ results !!! k ∨ (k = v ∧ j ∈ X))).
  - set_solver.
  - intros x X r Hx IH. rewrite results_add_lookup.
    destruct (decide (k = v)) as [->|Hne]; set_solver.
Qed.

Lemma results_fold_target (results : gmap nat (gset nat)) (v : nat)
    (a0 : gset nat) (k j : nat) :
  j ∈ set_fold (λ index0 r, results_add r index0 v) results a0 !!! k
  ↔ j ∈ results !!! k ∨ (k ∈ a0 ∧ j = v).
Proof.
  apply (set_fold_ind_L
    (λ r (X : gset nat), j ∈ r !!! k ↔ j ∈ results !!! k ∨ (k ∈ X ∧ j = v))).
  - set_solver.
  - intros x X r Hx IH. rewrite results_add_lookup.
    destruct (decide (k = x)) as [->|Hne]; set_solver.
Qed.

Lemma sweep_loop_app (l1 l2 : list event) (st : sweep_state) :
  sweep_loop (l1 ++ l2) st = st' ← sweep_loop l1 st; sweep_loop l2 st'.
Proof.
  revert st. induction l1 as [|ev l1 IH]; intros st; simpl; [done|].
  destruct (sweep_step st ev); simpl; [apply IH|done].
Qed.

Lemma event_lt_S_E (p q : Z) (sd sd' n n' : nat) :
  event_lt (p, evS, sd, n) (q, evE, sd', n') ↔ p < q.
Proof.
  unfold event_lt, event_type_lt. simpl. split; [|by left].
  intros [?|[? [[? ?]|[? _]]]]; (done || discriminate).
Qed.

Lemma event_lt_E_S (p q : Z) (sd sd' n n' : nat) :
  event_lt (q, evE, sd, n) (p, evS, sd', n') ↔ q ≤ p.
Proof.
  unfold event_lt, event_type_lt. simpl. split.
  - intros [?|[? _]]; lia.
  - intros Hle. destruct (decide (q = p)) as [-> |?]; [|left; lia].
    right. split; [done|]. by left.
Qed.

Lemma event_lt_S1_S0 (p q : Z) (n n' : nat) :
  event_lt (q, evS, 1%nat, n) (p, evS, 0%nat, n') → q < p.
Proof.
  unfold event_lt, event_type_lt. simpl.
  intros [?|[? [[? ?]|[? [?|[? ?]]]]]]; (done || discriminate || lia).
Qed.

Lemma event_lt_S0_S1 (p q : Z) (n n' : nat) :
  event_lt (p, evS, 0%nat, n) (q, evS, 1%nat, n') → p ≤ q.
Proof.
  unfold event_lt, event_type_lt. simpl.
  intros [?|[? _]]; lia.
Qed.

Lemma sorted_before (pre suf : list event) (ev x : event) :
  StronglySorted event_lt (pre ++ ev :: suf) → x ∈ pre → event_lt x ev.
Proof.
  intros Hsorted Hx.
  apply (StronglySorted_app_1_elem_of event_lt pre (ev :: suf)); [done|done|].
  apply elem_of_cons. by left.
Qed.

Lemma sorted_after (pre suf : list event) (ev y : event) :
  StronglySorted event_lt (pre ++ ev :: suf) → y ∈ suf → event_lt ev y.
Proof.
  intros Hsorted Hy.
  apply StronglySorted_app_1_r in Hsorted.
  apply StronglySorted_cons in Hsorted as [Hall _].
  by apply (proj1 (Forall_forall _ _) Hall).
Qed.

Lemma elem_of_middle (pre suf : list event) (ev x : event) :
  x ∈ pre ++ ev :: suf ↔ x ∈ pre ∨ x = ev ∨ x ∈ suf.
Proof. rewrite elem_of_app, elem_of_cons. tauto. Qed.

Lemma elem_of_snoc (pre : list event) (ev x : event) :
  x ∈ pre ++ [ev] ↔ x ∈ pre ∨ x = ev.
Proof. rewrite elem_of_app, list_elem_of_singleton. tauto. Qed.

Lemma active_after_other (pre : list event) (p : Z) (ty : event_type)
    (sd sd' n n' : nat) :
  sd' ≠ sd ∨ n' ≠ n →
  active_after (pre ++ [(p, ty, sd, n)]) sd' n' ↔ active_after pre sd' n'.
Proof.
    intros Hne. unfold active_after.
    setoid_rewrite elem_of_snoc. split.
    - intros [[p0 [Hp0|Hp0]] HE].
      + split; [by exists p0|]. intros q Hq. apply (HE q). by left.
      + injection Hp0 as -> <- <- <-. by destruct Hne.
    - intros [[p0 Hp0] HE]. split; [exists p0; by left|].
      intros q [Hq|Hq]; [by apply (HE q)|].
      injection Hq as -> <- <- <-. by destruct Hne.
  Qed.

Lemma sweep_step_inv (pre suf : list event) (ev : event) (st : sweep_state) :
  let L := pre ++ ev :: suf in
  StronglySorted event_lt L → events_wf L →
  sweep_inv L pre st →
  ∃ st', sweep_step st ev = Ok st' ∧ sweep_inv L (pre ++ [ev]) st'.
Proof.
    intros L Hsorted Hwf (a0 & a1 & Hact & HA0 & HA1 & HR).
    destruct st as [results active]. simpl in *. subst active.
    destruct Hwf as (Hsd & Huniq & Hmatch).
    destruct ev as [[[p ty] sd] n].
    pose proof (elem_of_middle pre suf (p, ty, sd, n)) as elem_of_L.
    fold L in elem_of_L.
    pose proof (λ x, sorted_before pre suf (p, ty, sd, n) x Hsorted) as sorted_before'.
    pose proof (λ x, sorted_after pre suf (p, ty, sd, n) x Hsorted) as sorted_after'.
    assert (ev_not_before : (p, ty, sd, n) ∉ pre).
    { intros H. by apply sorted_before', event_lt_irrefl in H. }
    assert (Hin : (p, ty, sd, n) ∈ L) by (apply elem_of_L; auto).
    pose proof (Hsd _ _ _ _ Hin) as Hsd2.
    assert (Hfresh : ∀ p', (p', ty, sd, n) ∉ pre).
    { intros p' Hp'.
      assert (p' = p) as ->.
      { eapply Huniq; [|exact Hin]. apply elem_of_L. by left. }
      by apply ev_not_before in Hp'. }
    destruct ty.
    - (* an end event: the index is active, and is removed *)
      destruct (Hmatch _ _ _ Hin) as (p0 & Hp0 & Hlt).
      assert (Hp0pre : (p0, evS, sd, n) ∈ pre).
      { apply elem_of_L in Hp0 as [?|[?|Hs]]; [done|done|].
        apply sorted_after', event_lt_E_S in Hs. lia. }
      assert (Hactive : active_after pre sd n).
      { split; [by exists p0|]. intros q Hq. by apply (Hfresh q). }
      assert (Hremove : ∀ a : gset nat, (∀ m, m ∈ a ↔ active_after pre sd m) →
                ∀ m, m ∈ a ∖ {[n]} ↔ active_after (pre ++ [(p, evE, sd, n)]) sd m).
      { intros a Ha m. rewrite elem_of_difference, elem_of_singleton, Ha.
        destruct (decide (m = n)) as [->|Hne].
        - split; [tauto|]. intros [_ HE]. exfalso. apply (HE p).
          apply elem_of_snoc. by right.
        - rewrite (active_after_other pre p evE sd sd n m) by auto. tauto. }
      assert (Hpaired : ∀ i j, paired_after L (pre ++ [(p, evE, sd, n)]) i j
                               ↔ paired_after L pre i j).
      { intros i j. unfold paired_after. setoid_rewrite elem_of_snoc.
        split; intros (p1 & q1 & H1 & H2 & H3 & H4); exists p1, q1.
        - destruct H1 as [?|[=]], H2 as [?|[=]]. done.
        - split_and!; auto. }
      destruct sd as [|[|sd]]; [| |lia]; simpl.
      + rewrite bool_decide_eq_true_2 by (by apply HA0).
        eexists. split; [done|]. exists (a0 ∖ {[n]}), a1. simpl.
        split_and!; [done|by apply Hremove| |].
        * intros m. rewrite HA1. symmetry.
          apply (active_after_other pre p evE 0 1 n m); auto.
        * intros i j. by rewrite HR, Hpaired.
      + rewrite bool_decide_eq_true_2 by (by apply HA1).
        eexists. split; [done|]. exists a0, (a1 ∖ {[n]}). simpl.
        split_and!; [done| |by apply Hremove|].
        * intros m. rewrite HA0. symmetry.
          apply (active_after_other pre p evE 1 0 n m); auto.
        * intros i j. by rewrite HR, Hpaired.
    - (* a start event: candidates are recorded, the index becomes active *)
      assert (HnoE : ∀ q, (q, evE, sd, n) ∉ pre).
      { intros q Hq.
        destruct (Hmatch q sd n) as (p0 & Hp0 & Hlt); [apply elem_of_L; by left|].
        assert (p0 = p) as -> by (by eapply Huniq).
        apply sorted_before', event_lt_E_S in Hq. lia. }
      assert (Hadd : ∀ a : gset nat, (∀ m, m ∈ a ↔ active_after pre sd m) →
                ∀ m, m ∈ {[n]} ∪ a ↔ active_after (pre ++ [(p, evS, sd, n)]) sd m).
      { intros a Ha m. rewrite elem_of_union, elem_of_singleton, Ha.
        destruct (decide (m = n)) as [->|Hne].
        - split; [|auto]. intros _. split.
          + exists p. apply elem_of_snoc. by right.
          + intros q [Hq|[=]]%elem_of_snoc. by apply (HnoE q).
        - rewrite (active_after_other pre p evS sd sd n m) by auto. tauto. }
      destruct sd as [|[|sd]]; [| |lia]; simpl.
      + eexists. split; [done|]. exists ({[n]} ∪ a0), a1. simpl.
        split_and!; [done|by apply Hadd| |].
        * intros m. rewrite HA1. symmetry.
          apply (active_after_other pre p evS 0 1 n m); auto.
        * intros i j. rewrite results_fold_query, HR, HA1.
          unfold paired_after, active_after. setoid_rewrite elem_of_snoc.
          split.
          -- intros [(p1 & q1 & H1 & H2 & H3 & H4)|[-> [[q1 Hq1] HE]]].
             ++ exists p1, q1. auto.
             ++ exists p, q1. split_and!; auto.
                ** intros p' Hp'.
                   destruct (Hmatch _ _ _ Hp') as (p0 & Hp0 & Hlt).
                   assert (p0 = p) as -> by (by eapply Huniq).
                   apply sorted_before', event_lt_S1_S0 in Hq1. lia.
                ** intros q' Hq'. apply elem_of_L in Hq' as [Hq'|[[=]|Hq']].
                   --- by apply HE in Hq'.
                   --- by apply sorted_after', event_lt_S_E in Hq'.
          -- intros (p1 & q1 & H1 & H2 & H3 & H4).
             destruct H2 as [H2|[=]].
             destruct H1 as [H1|[= -> ->]]; [left; by exists p1, q1|].
             right. split; [done|]. split; [by exists q1|].
             intros q' Hq'. assert (p < q') by (apply H4, elem_of_L; by left).
             apply sorted_before', event_lt_E_S in Hq'. lia.
      + eexists. split; [done|]. exists a0, ({[n]} ∪ a1). simpl.
        split_and!; [done| |by apply Hadd|].
        * intros m. rewrite HA0. symmetry.
          apply (active_after_other pre p evS 1 0 n m); auto.
        * intros i j. rewrite results_fold_target, HR, HA0.
          unfold paired_after, active_after. setoid_rewrite elem_of_snoc.
          split.
          -- intros [(p1 & q1 & H1 & H2 & H3 & H4)|[[[p1 Hp1] HE] ->]].
             ++ exists p1, q1. auto.
             ++ exists p1, p. split_and!; auto.
                ** intros p' Hp'. apply elem_of_L in Hp' as [Hp'|[[=]|Hp']].
                   --- by apply HE in Hp'.
                   --- by apply sorted_after', event_lt_S_E in Hp'.
                ** intros q' Hq'.
                   destruct (Hmatch _ _ _ Hq') as (p0 & Hp0 & Hlt).
                   assert (p0 = p) as -> by (by eapply Huniq).
                   apply sorted_before', event_lt_S0_S1 in Hp1. lia.
          -- intros (p1 & q1 & H1 & H2 & H3 & H4).
             destruct H1 as [H1|[=]].
             destruct H2 as [H2|[= -> ->]]; [left; by exists p1, q1|].
             right. split; [|done]. split; [by exists p1|].
             intros p' Hp'. assert (p < p') by (apply H3, elem_of_L; by left).
             apply sorted_before', event_lt_E_S in Hp'. lia.
  Qed.

Lemma sweep_loop_inv (L : list event) :
  StronglySorted event_lt L → events_wf L →
  ∀ pre suf, L = pre ++ suf →
  ∃ st, sweep_loop pre (∅, [∅; ∅]) = Ok st ∧ sweep_inv L pre st.
Proof.
  intros Hsorted Hwf pre. induction pre as [|ev pre IH] using rev_ind; intros suf HL.
  - eexists. split; [done|]. exists ∅, ∅. simpl.
    unfold active_after, paired_after. split_and!; [done| | |].
    + intros n. split; [set_solver|]. intros [[p Hp] _]. by apply elem_of_nil in Hp.
    + intros n. split; [set_solver|]. intros [[p Hp] _]. by apply elem_of_nil in Hp.
    + intros i j. rewrite lookup_total_empty. split; [set_solver|].
      intros (p & q & Hp & _). by apply elem_of_nil in Hp.
  - rewrite <-app_assoc in HL. simpl in HL.
    destruct (IH (ev :: suf) HL) as (st & Hloop & Hinv).
    rewrite sweep_loop_app, Hloop. simpl. subst L.
    destruct (sweep_step_inv pre suf ev st Hsorted Hwf Hinv) as (st' & -> & Hinv').
    by exists st'.
Qed.

Lemma events_wf_perm (l1 l2 : list event) :
  l1 ≡ₚ l2 → events_wf l1 → events_wf l2.
Proof.
  intros Hperm (H1 & H2 & H3). unfold events_wf.
  setoid_rewrite <-Hperm. done.
Qed.

(** The sweep on a well-formed event list returns, and records [j] for [i]
    exactly when both have a start event and each starts before the other
    ends. *)
Lemma sweep_spec (events : list event) :
  NoDup events → events_wf events →
  ∃ results, sweep events = Ok results
    ∧ ∀ i j, j ∈ results !!! i ↔
        ∃ p q, (p, evS, 0%nat, i) ∈ events ∧ (q, evS, 1%nat, j) ∈ events
               ∧ (∀ p', (p', evE, 0%nat, i) ∈ events → q < p')
               ∧ (∀ q', (q', evE, 1%nat, j) ∈ events → p < q').
Proof.
  intros Hnd Hwf. unfold sweep.
  pose proof (sort_events_sorted events Hnd) as Hsorted.
  pose proof (events_wf_perm _ _ (symmetry (sort_events_perm events)) Hwf) as Hwf'.
  destruct (sweep_loop_inv _ Hsorted Hwf' (sort_events events) [])
    as (st & -> & (a0 & a1 & _ & _ & _ & HR)); [by rewrite app_nil_r|].
  simpl. eexists. split; [done|]. intros i j. rewrite HR.
  unfold paired_after. by setoid_rewrite sort_events_elem.
Qed.

(** ** Event generation *)

Lemma events_loop_intervals (f : nat → variation → res (list event)) (sd : nat)
    (iv : variation → option (Z * Z)) (P : variation → Prop)
    (l : list variation) (n : nat) :
  (∀ m v, P v → f m v = Ok (events_of sd m (iv v))) →
  Forall P l →
  events_loop f n l = Ok (interval_events sd iv n l).
Proof.
  intros Hf Hl. revert n. induction Hl as [|v l Hv Hl IH]; intros n; [done|].
  simpl. rewrite (Hf n v Hv). simpl. rewrite (IH (Datatypes.S n)). simpl.
  unfold interval_events. simpl. rewrite Nat.add_0_r. do 3 f_equal.
  apply imap_ext. intros k x _. simpl. do 2 f_equal. lia.
Qed.

Lemma elem_of_events_of (sd n : nat) (iv : option (Z * Z)) (p : Z)
    (ty : event_type) (sd' m : nat) :
  (p, ty, sd', m) ∈ events_of sd n iv
  ↔ sd' = sd ∧ m = n
    ∧ ∃ s t, iv = Some (s, t) ∧ (ty = evS ∧ p = s ∨ ty = evE ∧ p = t).
Proof.
  destruct iv as [[s t]|]; simpl.
  - rewrite !elem_of_cons, elem_of_nil. split.
    + intros [[= -> -> -> ->]|[[= -> -> -> ->]|[]]]; naive_solver.
    + intros (-> & -> & s' & t' & [= <- <-] & [[-> ->]|[-> ->]]); auto.
  - rewrite elem_of_nil. naive_solver.
Qed.

Lemma elem_of_interval_events (sd : nat) (iv : variation → option (Z * Z))
    (n : nat) (l : list variation) (p : Z) (ty : event_type) (sd' m : nat) :
  (p, ty, sd', m) ∈ interval_events sd iv n l
  ↔ sd' = sd
    ∧ ∃ k v s t, m = (n + k)%nat ∧ l !! k = Some v ∧ iv v = Some (s, t)
                 ∧ (ty = evS ∧ p = s ∨ ty = evE ∧ p = t).
Proof.
  unfold interval_events. rewrite list_elem_of_join. split.
  - intros (e & Hev & He). apply elem_of_lookup_imap in He as (k & v & -> & Hk).
    apply elem_of_events_of in Hev as (-> & -> & s & t & Hiv & Hty).
    split; [done|]. by exists k, v, s, t.
  - intros (-> & k & v & s & t & -> & Hk & Hiv & Hty).
    exists (events_of sd (n + k) (iv v)). split.
    + apply elem_of_events_of. split_and!; try done. by exists s, t.
    + apply elem_of_lookup_imap. by exists k, v.
Qed.

Lemma NoDup_events_of (sd n : nat) (iv : option (Z * Z)) :
  NoDup (events_of sd n iv).
Proof.
  destruct iv as [[s t]|]; simpl; [|constructor].
  apply NoDup_cons. split; [|apply NoDup_singleton].
  rewrite list_elem_of_singleton. discriminate.
Qed.

Lemma NoDup_interval_events (sd : nat) (iv : variation → option (Z * Z))
    (l : list variation) (n : nat) :
  NoDup (interval_events sd iv n l).
Proof.
  revert n. induction l as [|v l IH]; intros n; [constructor|].
  assert (Hcons : interval_events sd iv n (v :: l)
                  = events_of sd n (iv v) ++ interval_events sd iv (Datatypes.S n) l).
  { unfold interval_events. simpl. rewrite Nat.add_0_r. f_equal. f_equal.
    apply imap_ext. intros k x _. simpl. do 2 f_equal. lia. }
  rewrite Hcons. apply NoDup_app. split; [apply NoDup_events_of|].
  split; [|apply IH].
  intros [[[p ty] sd'] m] Hhead Hrest.
  apply elem_of_events_of in Hhead as (_ & -> & _).
  apply elem_of_interval_events in Hrest as (_ & k & _ & _ & _ & Hm & _). lia.
Qed.

Lemma elem_of_two_lists (iv0 iv1 : variation → option (Z * Z))
    (l0 l1 : list variation) (p : Z) (ty : event_type) (sd m : nat) :
  (p, ty, sd, m) ∈ interval_events 0 iv0 0 l0 ++ interval_events 1 iv1 0 l1
  ↔ ∃ v s t, (sd = 0%nat ∧ l0 !! m = Some v ∧ iv0 v = Some (s, t)
              ∨ sd = 1%nat ∧ l1 !! m = Some v ∧ iv1 v = Some (s, t))
             ∧ (ty = evS ∧ p = s ∨ ty = evE ∧ p = t).
Proof.
  rewrite elem_of_app, !elem_of_interval_events. simpl. split.
  - intros [(-> & k & v & s & t & -> & Hk & Hiv & Hty)
           |(-> & k & v & s & t & -> & Hk & Hiv & Hty)];
      exists v, s, t; auto.
  - intros (v & s & t & [(-> & Hk & Hiv)|(-> & Hk & Hiv)] & Hty);
      [left|right]; (split; [done|]); by exists m, v, s, t.
Qed.

(** The candidates of a sweep over two lists of intervals: [j] is recorded
    for [i] exactly when both are swept and each interval starts before the
    other ends. *)
Lemma candidates_spec (iv0 iv1 : variation → option (Z * Z))
    (l0 l1 : list variation) :
  (∀ v s t, v ∈ l0 → iv0 v = Some (s, t) → s < t) →
  (∀ v s t, v ∈ l1 → iv1 v = Some (s, t) → s < t) →
  ∃ results,
    sweep (interval_events 0 iv0 0 l0 ++ interval_events 1 iv1 0 l1) = Ok results
    ∧ ∀ i j, j ∈ results !!! i ↔
        ∃ v0 v1 s0 t0 s1 t1,
          l0 !! i = Some v0 ∧ iv0 v0 = Some (s0, t0)
          ∧ l1 !! j = Some v1 ∧ iv1 v1 = Some (s1, t1)
          ∧ s1 < t0 ∧ s0 < t1.
Proof.
  intros H0 H1.
  destruct (sweep_spec (interval_events 0 iv0 0 l0 ++ interval_events 1 iv1 0 l1))
    as (results & Hsweep & Hres).
  - apply NoDup_app. split; [apply NoDup_interval_events|].
    split; [|apply NoDup_interval_events].
    intros [[[p ty] sd] m] Ha Hb.
    apply elem_of_interval_events in Ha as [-> _].
    by apply elem_of_interval_events in Hb as [? _].
  - split_and!.
    + intros p ty sd n (v & s & t & [(-> & _)|(-> & _)] & _)%elem_of_two_lists; lia.
    + intros p p' ty sd n
        (v & s & t & Hv & Hty)%elem_of_two_lists
        (v' & s' & t' & Hv' & Hty')%elem_of_two_lists.
      destruct Hv as [(-> & Hk & Hiv)|(-> & Hk & Hiv)],
               Hv' as [(? & Hk' & Hiv')|(? & Hk' & Hiv')]; try discriminate;
        rewrite Hk in Hk'; injection Hk' as <-;
        rewrite Hiv in Hiv'; injection Hiv' as <- <-;
        destruct Hty as [[-> ->]|[-> ->]], Hty' as [[? ->]|[? ->]];
        (done || discriminate).
    + intros q sd n (v & s & t & Hv & Hty)%elem_of_two_lists.
      destruct Hty as [[[=] _]|[_ ->]]. exists s. split.
      * apply elem_of_two_lists. exists v, s, t. auto.
      * destruct Hv as [(-> & Hk & Hiv)|(-> & Hk & Hiv)].
        -- eapply H0; [|done]. by eapply list_elem_of_lookup_2.
        -- eapply H1; [|done]. by eapply list_elem_of_lookup_2.
  - exists results. split; [done|]. intros i j. rewrite Hres.
    setoid_rewrite elem_of_two_lists. split.
    + intros (p & q & (v0 & s0 & t0 & Hv0 & Hty0) & (v1 & s1 & t1 & Hv1 & Hty1)
              & HE0 & HE1).
      destruct Hv0 as [(_ & Hk0 & Hiv0)|([=] & _)].
      destruct Hv1 as [([=] & _)|(_ & Hk1 & Hiv1)].
      destruct Hty0 as [[_ ->]|[[=] _]]. destruct Hty1 as [[_ ->]|[[=] _]].
      exists v0, v1, s0, t0, s1, t1. split_and!; try done.
      * apply HE0. exists v0, s0, t0. auto.
      * apply HE1. exists v1, s1, t1. auto.
    + intros (v0 & v1 & s0 & t0 & s1 & t1 & Hk0 & Hiv0 & Hk1 & Hiv1 & Hlt1 & Hlt0).
      exists s0, s1. split_and!.
      * exists v0, s0, t0. auto.
      * exists v1, s1, t1. auto.
      * intros p' (v & s & t & [(_ & Hk & Hiv)|([=] & _)] & [[[=] _]|[_ ->]]).
        rewrite Hk0 in Hk. injection Hk as <-.
        rewrite Hiv0 in Hiv. by injection Hiv as <- <-.
      * intros q' (v & s & t & [([=] & _)|(_ & Hk & Hiv)] & [[[=] _]|[_ ->]]).
        rewrite Hk1 in Hk. injection Hk as <-.
        rewrite Hiv1 in Hiv. by injection Hiv as <- <-.
Qed.

(** ** Candidate generation *)

Lemma deletion_query_events_interval (trio : bool) (min_length max_length : option Z)
    (n : nat) (v : variation) :
  wf_variation v →
  deletion_query_events trio min_length max_length None n v
  = Ok (events_of 0 n (deletion_query_interval min_length max_length v)).
Proof.
  unfold wf_variation, deletion_query_events, deletion_query_interval, passes.
  intros Hwf. destruct (var_type v) eqn:Ety; simpl; try done.
  rewrite bool_decide_eq_true_2 by lia. simpl.
  destruct (too_short _ _); [done|]. by destruct (too_long _ _).
Qed.

Lemma deletion_target_events_interval (min_length max_length : option Z)
    (offset difflength : Z) (n : nat) (v : variation) :
  wf_variation v →
  deletion_target_events min_length max_length offset difflength n v
  = Ok (events_of 1 n (deletion_target_interval min_length max_length offset
                         difflength v)).
Proof.
  unfold wf_variation, deletion_target_events, deletion_target_interval,
    deletion_effective_length, passes.
  intros Hwf. destruct (var_type v) eqn:Ety; simpl; try done.
  - rewrite bool_decide_eq_true_2 by lia. simpl.
    destruct (too_short _ _); [done|]. by destruct (too_long _ _).
  - destruct Hwf as (Hlt & c & -> & Hc).
    rewrite bool_decide_eq_true_2 by lia. simpl.
    destruct (too_short _ _); [done|]. by destruct (too_long _ _).
Qed.

Lemma insertion_query_events_interval (trio : bool) (min_length max_length : option Z)
    (n : nat) (v : variation) :
  insertion_query_events trio min_length max_length None n v
  = Ok (events_of 0 n (insertion_query_interval min_length max_length v)).
Proof.
  unfold insertion_query_events, insertion_query_interval, passes.
  destruct (var_type v) eqn:Ety; simpl; try done.
  case_bool_decide; case_bool_decide; try lia; simpl; try done.
  destruct (too_short _ _); [done|]. by destruct (too_long _ _).
Qed.

Lemma insertion_target_events_interval (min_length max_length : option Z)
    (offset difflength : Z) (n : nat) (v : variation) :
  wf_variation v →
  insertion_target_events min_length max_length offset difflength n v
  = Ok (events_of 1 n (insertion_target_interval min_length max_length offset
                         difflength v)).
Proof.
  unfold wf_variation, insertion_target_events, insertion_target_interval,
    insertion_target_data, passes.
  intros Hwf. destruct (var_type v) eqn:Ety; simpl; try done.
  - case_bool_decide; case_bool_decide; try lia; simpl; try done.
    destruct (too_short _ _); [done|]. by destruct (too_long _ _).
  - destruct Hwf as (Hlt & c & -> & Hc). simpl.
    rewrite !bool_decide_eq_true_2 by lia. simpl.
    destruct (too_short _ _); [done|]. by destruct (too_long _ _).
Qed.

Lemma deletion_query_interval_lt (min_length max_length : option Z)
    (v : variation) (s t : Z) :
  wf_variation v → deletion_query_interval min_length max_length v = Some (s, t) →
  s < t.
Proof.
  unfold wf_variation, deletion_query_interval.
  destruct (var_type v); try done. destruct (passes _ _ _); [|done].
  intros ? [= <- <-]. done.
Qed.

Lemma deletion_target_interval_lt (min_length max_length : option Z)
    (offset difflength : Z) (v : variation) (s t : Z) :
  0 ≤ offset → wf_variation v →
  deletion_target_interval min_length max_length offset difflength v = Some (s, t) →
  s < t.
Proof.
  unfold wf_variation, deletion_target_interval, deletion_effective_length.
  intros Hoff. destruct (var_type v); try done.
  - destruct (passes _ _ _); [|done]. intros ? [= <- <-]. lia.
  - intros (Hlt & c & -> & Hc). simpl.
    destruct (passes _ _ _); [|done]. intros [= <- <-]. lia.
Qed.

Lemma insertion_query_interval_lt (min_length max_length : option Z)
    (v : variation) (s t : Z) :
  insertion_query_interval min_length max_length v = Some (s, t) → s < t.
Proof.
  unfold insertion_query_interval.
  destruct (var_type v); try done. case_bool_decide; [|done]. simpl.
  destruct (passes _ _ _); [|done]. intros [= <- <-]. lia.
Qed.

Lemma insertion_target_interval_lt (min_length max_length : option Z)
    (offset difflength : Z) (v : variation) (s t : Z) :
  0 ≤ offset →
  insertion_target_interval min_length max_length offset difflength v = Some (s, t) →
  s < t.
Proof.
  unfold insertion_target_interval. intros Hoff.
  destruct (insertion_target_data v) as [[[pos ins] eff]|]; [|done].
  case_bool_decide; [|done]. simpl.
  destruct (passes _ _ _); [|done]. intros [= <- <-]. lia.
Qed.

(** The candidate sets of [find_all_deletion_overlaps]: on well-formed
    records and without tag filter the function returns, and [j] is a
    candidate of [i] exactly when query [i] and target [j] are swept and
    the query interval meets the widened target interval. *)
Lemma find_all_deletion_overlaps_spec (self another_list : VariationList)
    (chromosome : string) (trio : bool) (min_length max_length : option Z)
    (offset difflength : option Z) :
  Forall wf_variation (variations_of self (lower chromosome)) →
  Forall wf_variation (variations_of another_list (lower chromosome)) →
  0 ≤ default 0 offset →
  ∃ results,
    find_all_deletion_overlaps self another_list chromosome trio min_length
      max_length offset difflength None = Ok results
    ∧ ∀ i j, j ∈ results !!! i ↔
        ∃ v0 v1 s0 t0 s1 t1,
          variations_of self (lower chromosome) !! i = Some v0
          ∧ deletion_query_interval min_length max_length v0 = Some (s0, t0)
          ∧ variations_of another_list (lower chromosome) !! j = Some v1
          ∧ deletion_target_interval min_length max_length (default 0 offset)
              (default 0 difflength) v1 = Some (s1, t1)
          ∧ s1 < t0 ∧ s0 < t1.
Proof.
  intros Hself Hother Hoff. unfold find_all_deletion_overlaps.
  rewrite (events_loop_intervals
             (deletion_query_events trio min_length max_length None) 0
             (deletion_query_interval min_length max_length)
             wf_variation _ 0 (λ m v, deletion_query_events_interval _ _ _ m v) Hself).
  cbn [mbind res_bind].
  rewrite (events_loop_intervals
             (deletion_target_events min_length max_length (default 0 offset)
                (default 0 difflength)) 1
             (deletion_target_interval min_length max_length (default 0 offset)
                (default 0 difflength))
             wf_variation _ 0
             (λ m v, deletion_target_events_interval _ _ _ _ m v) Hother).
  cbn [mbind res_bind]. apply candidates_spec.
  - intros v s t Hv. apply deletion_query_interval_lt.
    by apply (proj1 (Forall_forall _ _) Hself).
  - intros v s t Hv. apply deletion_target_interval_lt; [done|].
    by apply (proj1 (Forall_forall _ _) Hother).
Qed.

(** The candidate sets of [insertion_distances], likewise. *)
Lemma insertion_distances_spec (self another_list : VariationList)
    (chromosome : string) (trio : bool) (min_length max_length : option Z)
    (offset difflength : option Z) :
  Forall wf_variation (variations_of another_list (lower chromosome)) →
  0 ≤ default 0 offset →
  ∃ results,
    insertion_distances self another_list chromosome trio min_length
      max_length offset difflength None = Ok results
    ∧ ∀ i j, j ∈ results !!! i ↔
        ∃ v0 v1 s0 t0 s1 t1,
          variations_of self (lower chromosome) !! i = Some v0
          ∧ insertion_query_interval min_length max_length v0 = Some (s0, t0)
          ∧ variations_of another_list (lower chromosome) !! j = Some v1
          ∧ insertion_target_interval min_length max_length (default 0 offset)
              (default 0 difflength) v1 = Some (s1, t1)
          ∧ s1 < t0 ∧ s0 < t1.
Proof.
  intros Hother Hoff. unfold insertion_distances.
  rewrite (events_loop_intervals
             (insertion_query_events trio min_length max_length None) 0
             (insertion_query_interval min_length max_length)
             (λ _, True) _ 0 (λ m v _, insertion_query_events_interval _ _ _ m v))
    by (apply Forall_forall; done).
  cbn [mbind res_bind].
  rewrite (events_loop_intervals
             (insertion_target_events min_length max_length (default 0 offset)
                (default 0 difflength)) 1
             (insertion_target_interval min_length max_length (default 0 offset)
                (default 0 difflength))
             wf_variation _ 0
             (λ m v, insertion_target_events_interval _ _ _ _ m v) Hother).
  cbn [mbind res_bind]. apply candidates_spec.
  - intros v s t Hv. apply insertion_query_interval_lt.
  - intros v s t Hv. by apply insertion_target_interval_lt.
Qed.

Lemma passes_bounds (length lo hi : Z) :
  passes length (Some lo) (Some hi) = true ↔ lo ≤ length ≤ hi.
Proof.
  unfold passes, too_short, too_long.
  rewrite andb_true_iff, !negb_true_iff, !bool_decide_eq_false. lia.
Qed.

Lemma events_of_nonempty (sd n : nat) (iv : option (Z * Z)) :
  events_of sd n iv ≠ [] ↔ is_Some iv.
Proof.
  destruct iv as [[s t]|]; simpl; split; done.
Qed.

(** C3 (as the code has it): with both bounds set, a well-formed target
    whose effective length is defined (a deletion, or a MIX event judged by
    deleted minus inserted length; an insertion, or a MIX event judged by
    inserted minus deleted length) emits sweep events exactly when
    [max(min_length - difflength, 5) <= length <= max_length + difflength]. *)
Theorem target_events_filter (v : variation) (min_length max_length : Z)
    (offset difflength : Z) (n : nat) (Hwf : wf_variation v) :
  (∀ length, deletion_effective_length v = Some length →
     ∃ events,
       deletion_target_events (Some min_length) (Some max_length) offset
         difflength n v = Ok events
       ∧ (events ≠ [] ↔
            Z.max (min_length - difflength) 5 ≤ length ≤ max_length + difflength))
  ∧ (∀ pos ins_length length,
       insertion_target_data v = Some (pos, ins_length, length) →
       ∃ events,
         insertion_target_events (Some min_length) (Some max_length) offset
           difflength n v = Ok events
         ∧ (events ≠ [] ↔
              Z.max (min_length - difflength) 5 ≤ length ≤ max_length + difflength)).
Proof.
  split.
  - intros length Hlen. rewrite deletion_target_events_interval by done.
    eexists. split; [done|]. rewrite events_of_nonempty.
    unfold deletion_target_interval. rewrite Hlen. simpl.
    rewrite <-passes_bounds.
    destruct (passes _ _ _); split; (done || by eexists || intros [? [=]]).
  - intros pos ins_length length Hdata.
    rewrite insertion_target_events_interval by done.
    eexists. split; [done|]. rewrite events_of_nonempty.
    unfold insertion_target_interval. rewrite Hdata. simpl.
    rewrite <-passes_bounds.
    assert (Hins : passes length (Some (Z.max (min_length - difflength) 5))
                     (Some (max_length + difflength)) = true → 0 < ins_length).
    { rewrite passes_bounds. unfold insertion_target_data, wf_variation in *.
      destruct (var_type v); try done.
      - injection Hdata as <- <- <-. lia.
      - destruct Hwf as (? & c & Hc & ?). rewrite Hc in Hdata.
        injection Hdata as <- <- <-. lia. }
    destruct (passes _ _ _) eqn:Ep.
    + rewrite bool_decide_eq_true_2 by auto. simpl. split; [done|by eexists].
    + rewrite andb_false_r. split; [intros [? [=]]|done].
Qed.

Lemma target_events_filter_witness :
  deletion_target_events (Some 49) (Some 98) 50 20 0 sample_deletion
  = Ok [(50, evS, 1%nat, 0%nat); (220, evE, 1%nat, 0%nat)].
Proof.
  destruct (target_events_filter sample_deletion 49 98 50 20 0) as [Hdel _].
  { unfold wf_variation. simpl. lia. }
  destruct (Hdel 70 eq_refl) as (events & Hev & _).
  rewrite Hev. vm_compute in Hev. by injection Hev as <-.
Defined.

(** C3 as stated fails: a deletion of length 3 passes
    [min_length - difflength <= length <= max_length + difflength] for
    [min_length = 10], [max_length = 100], [difflength = 20], but emits no
    events, because the lower bound is [max(min_length - difflength, 5)]. *)
Lemma target_events_filter_counterexample :
  ∃ events,
    deletion_target_events (Some 10) (Some 100) 0 20 0 sample_short_deletion
    = Ok events
    ∧ ¬ (events ≠ [] ↔
           10 - 20 ≤ coord2 sample_short_deletion - coord1 sample_short_deletion
                   ≤ 100 + 20).
Proof.
  exists []. split; [reflexivity|]. simpl. intros [_ H]. apply H; [lia|done].
Qed.

Lemma deletion_query_interval_Some (min_length max_length : option Z)
    (v : variation) (s t : Z) :
  deletion_query_interval min_length max_length v = Some (s, t) →
  var_type v = DEL ∧ s = coord1 v ∧ t = coord2 v
  ∧ passes (coord2 v - coord1 v) min_length max_length = true.
Proof.
  unfold deletion_query_interval. destruct (var_type v); try done.
  destruct (passes _ _ _); [|done]. by intros [= <- <-].
Qed.

Lemma deletion_target_interval_Some (min_length max_length : option Z)
    (offset difflength : Z) (v : variation) (s t : Z) :
  deletion_target_interval min_length max_length offset difflength v = Some (s, t) →
  s = coord1 v - offset ∧ t = coord2 v + offset
  ∧ ∃ length, deletion_effective_length v = Some length
      ∧ passes length (widened_min min_length difflength)
                      (widened_max max_length difflength) = true.
Proof.
  unfold deletion_target_interval.
  destruct (deletion_effective_length v) as [length|]; [|done].
  destruct (passes _ _ _) eqn:E; [|done]. intros [= <- <-]. eauto.
Qed.

Lemma insertion_query_interval_Some (min_length max_length : option Z)
    (v : variation) (s t : Z) :
  insertion_query_interval min_length max_length v = Some (s, t) →
  var_type v = INS ∧ s = coord1 v ∧ t = coord1 v + coord2 v ∧ 0 < coord2 v
  ∧ passes (coord2 v) min_length max_length = true.
Proof.
  unfold insertion_query_interval. destruct (var_type v); try done.
  case_bool_decide; [|done]. simpl.
  destruct (passes _ _ _); [|done]. by intros [= <- <-].
Qed.



Lemma sample_truth_chr1 :
  variations_of sample_truth (lower "chr1")
  = [ {| coord1 := 100; coord2 := 200; coord3 := None; var_type := DEL;
         tags := None |} ].
Proof. by vm_compute. Qed.

Lemma sample_prediction_chr1 :
  variations_of sample_prediction (lower "chr1")
  = [ {| coord1 := 105; coord2 := 195; coord3 := None; var_type := DEL;
         tags := None |} ].
Proof. by vm_compute. Qed.

Lemma sample_truth_wf :
  Forall wf_variation (variations_of sample_truth (lower "chr1")).
Proof.
  rewrite sample_truth_chr1. apply Forall_cons_2; [|apply Forall_nil_2].
  unfold wf_variation. simpl. lia.
Qed.

Lemma sample_prediction_wf :
  Forall wf_variation (variations_of sample_prediction (lower "chr1")).
Proof.
  rewrite sample_prediction_chr1. apply Forall_cons_2; [|apply Forall_nil_2].
  unfold wf_variation. simpl. lia.
Qed.



(** ** Exact hit filtering *)

Lemma mode_add_hit_basic (mode : string) (overlap_test fixed_test : bool)
    (length0 : Z) (chromosome : string) (count_stats : count_stats_t)
    (siglevel : Qc) (stats : VariationStatistics) (j : nat) (length_diff : Z)
    (dist : Qc) (typing1 : option nat) (is_mix : bool) :
  mode = "overlap" ∨ mode = "fixed_distance" →
  mode_add_hit mode overlap_test fixed_test length0 chromosome count_stats
    siglevel stats j length_diff dist typing1 is_mix
  = Ok (if (if bool_decide (mode = "overlap") then overlap_test else fixed_test)
        then add_hit stats j length_diff dist typing1 is_mix else stats).
Proof.
  unfold mode_add_hit. intros [-> | ->]; simpl.
  - by destruct overlap_test.
  - by destruct fixed_test.
Qed.

Lemma deletion_candidate_ok (another : list variation) (chromosome : string)
    (count_stats : count_stats_t) (mode : string) (trio : bool)
    (offset : option Z) (difflength : Z) (siglevel : Qc) (c1 c2 : Z)
    (stats : VariationStatistics) (j : nat) (v1 : variation)
    (ty1 : option nat) (eff : Z) :
  mode = "overlap" ∨ mode = "fixed_distance" →
  another !! j = Some v1 → typing_of trio (tags v1) = Ok ty1 →
  deletion_effective_length v1 = Some eff →
  deletion_candidate another chromosome count_stats mode trio offset
    (Some difflength) siglevel c1 c2 stats j
  = Ok (if deletion_test mode offset difflength c1 c2 v1 eff
        then add_hit stats j (Z.abs (c2 - c1 - eff))
               (Qcabs (center c1 c2 - center (coord1 v1) (coord2 v1))) ty1
               (bool_decide (var_type v1 = MIX))
        else stats).
Proof.
  intros Hmode Hj Hty Heff. unfold deletion_candidate, list_get.
  rewrite Hj. cbn [mbind res_bind]. rewrite Hty. cbn [mbind res_bind].
  assert (Heff' :
    match var_type v1 with
    | DEL => Ok (coord2 v1 - coord1 v1)
    | INS => Raise AssertionError
    | MIX => match coord3 v1 with
             | Some ins_length1 => Ok (coord2 v1 - coord1 v1 - ins_length1)
             | None => Raise TypeError
             end
    end = Ok eff).
  { unfold deletion_effective_length in Heff.
    destruct (var_type v1); [congruence|done|].
    destruct (coord3 v1); simpl in Heff; congruence. }
  rewrite Heff'. cbn [mbind res_bind].
  rewrite mode_add_hit_basic by done. unfold deletion_test. simpl.
  do 2 f_equal. by destruct (bool_decide (mode = "overlap")).
Qed.

Lemma deletion_candidates_spec (another : list variation) (chromosome : string)
    (count_stats : count_stats_t) (mode : string) (trio : bool)
    (offset : option Z) (difflength : Z) (siglevel : Qc) (c1 c2 : Z)
    (js : list nat) :
  mode = "overlap" ∨ mode = "fixed_distance" →
  (∀ j, j ∈ js → ∃ v1 ty1 eff,
     another !! j = Some v1 ∧ typing_of trio (tags v1) = Ok ty1
     ∧ deletion_effective_length v1 = Some eff) →
  ∀ stats, ∃ stats',
    candidates_loop
      (deletion_candidate another chromosome count_stats mode trio offset
         (Some difflength) siglevel c1 c2) js stats = Ok stats'
    ∧ vs_index stats' = vs_index stats
    ∧ vs_chromosome stats' = vs_chromosome stats
    ∧ vs_typing stats' = vs_typing stats
    ∧ (∀ h, h ∈ vs_hits stats' ↔
         h ∈ vs_hits stats
         ∨ deletion_hit_of another mode trio offset difflength c1 c2 js false h)
    ∧ (∀ h, h ∈ vs_mix_hits stats' ↔
         h ∈ vs_mix_hits stats
         ∨ deletion_hit_of another mode trio offset difflength c1 c2 js true h).
Proof.
  intros Hmode. unfold deletion_hit_of.
  induction js as [|j js IH]; intros Hjs stats.
  - exists stats. split_and!; try done.
    + intros h. split; [auto|]. intros [?|(j & ? & ? & ? & Hj & _)]; [done|].
      by apply elem_of_nil in Hj.
    + intros h. split; [auto|]. intros [?|(j & ? & ? & ? & Hj & _)]; [done|].
      by apply elem_of_nil in Hj.
  - destruct (Hjs j) as (v1 & ty1 & eff & Hj & Hty & Heff); [by left|].
    simpl. rewrite (deletion_candidate_ok _ _ _ _ _ _ _ _ _ _ _ _ v1 ty1 eff) by done.
    cbn [mbind res_bind].
    destruct (IH (λ j' Hj', Hjs j' (list_elem_of_further _ _ _ Hj'))
                 (if deletion_test mode offset difflength c1 c2 v1 eff
                  then add_hit stats j (Z.abs (c2 - c1 - eff))
                         (Qcabs (center c1 c2 - center (coord1 v1) (coord2 v1)))
                         ty1 (bool_decide (var_type v1 = MIX))
                  else stats))
      as (stats' & -> & Hidx & Hchr & Htyp & Hhits & Hmix).
    exists stats'. split; [done|].
    assert (Hfields : ∀ s a b c d e,
              vs_index (add_hit s a b c d e) = vs_index s
              ∧ vs_chromosome (add_hit s a b c d e) = vs_chromosome s
              ∧ vs_typing (add_hit s a b c d e) = vs_typing s).
    { intros s a b c d [|]; done. }
    split_and!.
    + rewrite Hidx. destruct (deletion_test _ _ _ _ _ _ _); [apply Hfields|done].
    + rewrite Hchr. destruct (deletion_test _ _ _ _ _ _ _); [apply Hfields|done].
    + rewrite Htyp. destruct (deletion_test _ _ _ _ _ _ _); [apply Hfields|done].
    + intros h. rewrite Hhits. setoid_rewrite elem_of_cons.
      destruct (deletion_test mode offset difflength c1 c2 v1 eff) eqn:Etest;
        [destruct (bool_decide (var_type v1 = MIX)) eqn:Emix; simpl|].
      * split.
        -- intros [?|(j' & v' & ty' & eff' & ? & ?)]; [by left|right].
           exists j', v', ty', eff'. tauto.
        -- intros [?|(j' & v' & ty' & eff' & [-> |?] & Hv' & Hty' & Heff' & Hm & ?)];
             [by left| |right; by exists j', v', ty', eff'].
           rewrite Hj in Hv'. injection Hv' as <-. congruence.
      * rewrite elem_of_app, list_elem_of_singleton. split.
        -- intros [[?| ->]|(j' & v' & ty' & eff' & ? & ?)]; [by left| |].
           ++ right. exists j, v1, ty1, eff. split_and!; auto.
           ++ right. exists j', v', ty', eff'. tauto.
        -- intros [?|(j' & v' & ty' & eff' & [-> |?] & Hv' & Hty' & Heff' & Hm & Ht & ->)];
             [by left; left| |right; by exists j', v', ty', eff'].
           rewrite Hj in Hv'. injection Hv' as <-.
           rewrite Hty in Hty'. injection Hty' as <-.
           rewrite Heff in Heff'. injection Heff' as <-. left. by right.
      * split.
        -- intros [?|(j' & v' & ty' & eff' & ? & ?)]; [by left|right].
           exists j', v', ty', eff'. tauto.
        -- intros [?|(j' & v' & ty' & eff' & [-> |?] & Hv' & Hty' & Heff' & Hm & Ht & ?)];
             [by left| |right; by exists j', v', ty', eff'].
           rewrite Hj in Hv'. injection Hv' as <-.
           rewrite Heff in Heff'. injection Heff' as <-. congruence.
    + intros h. rewrite Hmix. setoid_rewrite elem_of_cons.
      destruct (deletion_test mode offset difflength c1 c2 v1 eff) eqn:Etest;
        [destruct (bool_decide (var_type v1 = MIX)) eqn:Emix; simpl|].
      * rewrite elem_of_app, list_elem_of_singleton. split.
        -- intros [[?| ->]|(j' & v' & ty' & eff' & ? & ?)]; [by left| |].
           ++ right. exists j, v1, ty1, eff. split_and!; auto.
           ++ right. exists j', v', ty', eff'. tauto.
        -- intros [?|(j' & v' & ty' & eff' & [-> |?] & Hv' & Hty' & Heff' & Hm & Ht & ->)];
             [by left; left| |right; by exists j', v', ty', eff'].
           rewrite Hj in Hv'. injection Hv' as <-.
           rewrite Hty in Hty'. injection Hty' as <-.
           rewrite Heff in Heff'. injection Heff' as <-. left. by right.
      * split.
        -- intros [?|(j' & v' & ty' & eff' & ? & ?)]; [by left|right].
           exists j', v', ty', eff'. tauto.
        -- intros [?|(j' & v' & ty' & eff' & [-> |?] & Hv' & Hty' & Heff' & Hm & ?)];
             [by left| |right; by exists j', v', ty', eff'].
           rewrite Hj in Hv'. injection Hv' as <-. congruence.
      * split.
        -- intros [?|(j' & v' & ty' & eff' & ? & ?)]; [by left|right].
           exists j', v', ty', eff'. tauto.
        -- intros [?|(j' & v' & ty' & eff' & [-> |?] & Hv' & Hty' & Heff' & Hm & Ht & ?)];
             [by left| |right; by exists j', v', ty', eff'].
           rewrite Hj in Hv'. injection Hv' as <-.
           rewrite Heff in Heff'. injection Heff' as <-. congruence.
Qed.

Lemma lower_char_idem (c : ascii) : lower_char (lower_char c) = lower_char c.
Proof. destruct c as [[] [] [] [] [] [] [] []]; by vm_compute. Qed.

Lemma lower_idem (s : string) : lower (lower s) = lower s.
Proof.
  induction s as [|c s IH]; [done|]. simpl. by rewrite lower_char_idem, IH.
Qed.

Lemma elem_of_query_indices (P : variation → bool) (l : list variation) (n i : nat) :
  i ∈ query_indices P n l ↔ ∃ k v, i = (n + k)%nat ∧ l !! k = Some v ∧ P v = true.
Proof.
  revert n. induction l as [|v l IH]; intros n; simpl.
  - rewrite elem_of_nil. split; [done|]. by intros (k & ? & _ & ? & _).
  - rewrite elem_of_app, IH. split.
    + intros [Hi|(k & v' & -> & Hk & HP)].
      * destruct (P v) eqn:E; [|by apply elem_of_nil in Hi].
        apply list_elem_of_singleton in Hi as ->. exists 0%nat, v. split; [lia|done].
      * exists (Datatypes.S k), v'. split; [lia|done].
    + intros ([|k] & v' & -> & Hk & HP); simpl in Hk.
      * injection Hk as <-. left. rewrite HP, Nat.add_0_r. by apply list_elem_of_singleton.
      * right. exists k, v'. split; [lia|done].
Qed.

Section deletion_outcomes.
Variable iter : gset nat → list nat.
Variables (another : list variation) (overlaps : gmap nat (gset nat))
  (chromosome : string) (count_stats : count_stats_t) (mode : string)
  (trio : bool) (min_length max_length offset : option Z) (difflength : Z)
  (siglevel : Qc).
Hypothesis Hmode : mode = "overlap" ∨ mode = "fixed_distance".
Hypothesis Hcandidates : ∀ i j, j ∈ iter (overlaps !!! i) →
  ∃ v1 ty1 eff, another !! j = Some v1 ∧ typing_of trio (tags v1) = Ok ty1
                ∧ deletion_effective_length v1 = Some eff.


End deletion_outcomes.

Lemma iter_elem (iter : gset nat → list nat) :
  (∀ s, iter s ≡ₚ elements s) → ∀ s j, j ∈ iter s ↔ j ∈ s.
Proof. intros Hiter s j. by rewrite Hiter, elem_of_elements. Qed.



Ltac qc_eq := apply Qc_is_canon; by vm_compute.

Lemma sample_center_distance :
  Qcabs (center 105 195 - center 100 200) = 0%Qc
  ∧ Qcabs (center 100 200 - center 105 195) = 0%Qc.
Proof. split; qc_eq. Qed.

Lemma iter_singleton (iter : gset nat → list nat) (X : gset nat) (j : nat) :
  (∀ s, iter s ≡ₚ elements s) → (∀ k, k ∈ X ↔ k = j) → iter X = [j].
Proof.
  intros Hiter HX. assert (X = {[j]}) as -> by set_solver.
  apply Permutation_singleton_r. by rewrite Hiter, elements_singleton.
Qed.

Lemma sample_run (iter : gset nat → list nat) (self another_list : VariationList)
    (q t : variation) (min_length max_length : Z) (siglevel : Qc) :
  (∀ s, iter s ≡ₚ elements s) →
  variations_of self (lower "chr1") = [q] →
  variations_of another_list (lower "chr1") = [t] →
  var_type q = DEL → var_type t = DEL → coord1 q < coord2 q → coord1 t < coord2 t →
  min_length ≤ coord2 q - coord1 q ≤ max_length →
  Z.max (min_length - 20) 5 ≤ coord2 t - coord1 t ≤ max_length + 20 →
  coord1 t - 50 < coord2 q → coord1 q < coord2 t + 50 →
  deletion_test "fixed_distance" (Some 50) 20 (coord1 q) (coord2 q) t
    (coord2 t - coord1 t) = true →
  deletion_hit_statistics iter self another_list ["chr1"] None "fixed_distance"
    false (Some min_length) (Some max_length) (Some 50) (Some 20) siglevel None
  = Ok [add_hit (VariationStatistics_init "chr1" 0 None) 0
          (Z.abs (coord2 q - coord1 q - (coord2 t - coord1 t)))
          (Qcabs (center (coord1 q) (coord2 q) - center (coord1 t) (coord2 t)))
          None false].
Proof.
  intros Hiter Hself Hother Hq Ht Hwq Hwt Hpq Hpt Hs1 Hs2 Htest.
  cbn [deletion_hit_statistics].
  change (lower "chr1") with "chr1" in *.
  assert (Hqi : deletion_query_interval (Some min_length) (Some max_length) q
                = Some (coord1 q, coord2 q)).
  { unfold deletion_query_interval. rewrite Hq.
    by rewrite (proj2 (passes_bounds _ _ _) Hpq). }
  assert (Hti : deletion_target_interval (Some min_length) (Some max_length) 50 20 t
                = Some (coord1 t - 50, coord2 t + 50)).
  { unfold deletion_target_interval, deletion_effective_length. rewrite Ht. simpl.
    by rewrite (proj2 (passes_bounds _ _ _) Hpt). }
  destruct (find_all_deletion_overlaps_spec self another_list "chr1" false
              (Some min_length) (Some max_length) (Some 50) (Some 20))
    as (overlaps & -> & Hov).
  { change (lower "chr1") with "chr1". rewrite Hself.
    apply Forall_cons_2; [|apply Forall_nil_2]. unfold wf_variation. by rewrite Hq. }
  { change (lower "chr1") with "chr1". rewrite Hother.
    apply Forall_cons_2; [|apply Forall_nil_2]. unfold wf_variation. by rewrite Ht. }
  { simpl. lia. }
  change (lower "chr1") with "chr1" in Hov. rewrite Hself, Hother in Hov.
  assert (Hcand : iter (overlaps !!! 0%nat) = [0%nat]).
  { apply iter_singleton; [done|]. intros k. rewrite Hov. split.
    - intros (v0 & v1 & s0 & t0 & s1 & t1 & _ & _ & Hk & _).
      apply lookup_lt_Some in Hk. simpl in Hk. lia.
    - intros ->. exists q, t. eexists _, _, _, _.
      split_and!; [done|exact Hqi|done|exact Hti|done|done]. }
  cbn [mbind res_bind]. rewrite Hself, Hother. cbn [outcomes_loop].
  unfold deletion_outcome. rewrite bool_decide_eq_false_2 by (rewrite Hq; auto).
  unfold too_short, too_long.
  rewrite !bool_decide_eq_false_2 by lia. simpl typing_of. simpl tag_skip.
  cbn [mbind res_bind]. rewrite Hcand. cbn [candidates_loop].
  rewrite (deletion_candidate_ok [t] "chr1" None "fixed_distance" false (Some 50)
             20 siglevel (coord1 q) (coord2 q) _ 0 t None (coord2 t - coord1 t));
    [|by right|done|done|unfold deletion_effective_length; by rewrite Ht].
  rewrite Htest, Ht. cbn [mbind res_bind]. done.
Qed.

(** C2 (as the code has it): in [fixed_distance] mode with offset 50 and
    difflength 20 and a length range that contains 90 and 100, the deletion
    105-195 and the deletion 100-200 of chr1 hit each other exactly, with
    length difference 10 and centre distance 0; precision and recall, the hit
    rates of the two directions, are 1. *)
Theorem end_to_end_fixed_distance (iter : gset nat → list nat)
    (min_length max_length : Z) (siglevel : Qc)
    (Hiter : ∀ s, iter s ≡ₚ elements s)
    (Hmin : min_length ≤ 90) (Hmax : 100 ≤ max_length) :
  ∃ prec rec sp sr,
    deletion_hit_statistics iter sample_prediction sample_truth ["chr1"] None
      "fixed_distance" false (Some min_length) (Some max_length) (Some 50)
      (Some 20) siglevel None = Ok [prec]
    ∧ deletion_hit_statistics iter sample_truth sample_prediction ["chr1"] None
        "fixed_distance" false (Some min_length) (Some max_length) (Some 50)
        (Some 20) siglevel None = Ok [rec]
    ∧ vs_hits prec = [(0%nat, 10, 0%Qc, None)] ∧ vs_mix_hits prec = []
    ∧ vs_hits rec = [(0%nat, 10, 0%Qc, None)] ∧ vs_mix_hits rec = []
    ∧ summarize_variation_stats_list [prec] = Ok sp ∧ hit_rate sp = PyFloat 1%Qc
    ∧ summarize_variation_stats_list [rec] = Ok sr ∧ hit_rate sr = PyFloat 1%Qc.
Proof.
  destruct sample_center_distance as [Hd1 Hd2].
  pose proof (sample_run iter sample_prediction sample_truth _ _ min_length
                max_length siglevel Hiter sample_prediction_chr1 sample_truth_chr1)
    as Hprec.
  pose proof (sample_run iter sample_truth sample_prediction _ _ min_length
                max_length siglevel Hiter sample_truth_chr1 sample_prediction_chr1)
    as Hrec.
  simpl in Hprec, Hrec. rewrite Hd1 in Hprec. rewrite Hd2 in Hrec.
  eexists _, _, _, _.
  split; [apply Hprec; try done; try lia; by vm_compute|].
  split; [apply Hrec; try done; try lia; by vm_compute|].
  split_and!; done.
Qed.

Lemma end_to_end_fixed_distance_witness :
  ∃ prec sp,
    deletion_hit_statistics elements sample_prediction sample_truth ["chr1"] None
      "fixed_distance" false (Some 50) (Some 150) (Some 50) (Some 20)
      (Qc_of_Z 1 / Qc_of_Z 100)%Qc None = Ok [prec]
    ∧ vs_hits prec = [(0%nat, 10, 0%Qc, None)]
    ∧ summarize_variation_stats_list [prec] = Ok sp
    ∧ hit_rate sp = PyFloat 1%Qc.
Proof.
  destruct (end_to_end_fixed_distance elements 50 150 (Qc_of_Z 1 / Qc_of_Z 100)%Qc)
    as (prec & rec & sp & sr & Hprec & _ & Hhits & _ & _ & _ & Hsp & Hrate & _).
  - done.
  - lia.
  - lia.
  - exists prec, sp. split; [exact Hprec|]. split; [exact Hhits|].
    split; [exact Hsp|exact Hrate].
Defined.

(** C2 as stated fails in one number: the length difference of the hit is
    [|90 - 100| = 10], not 0. *)
Lemma end_to_end_fixed_distance_counterexample :
  ∃ prec,
    deletion_hit_statistics elements sample_prediction sample_truth ["chr1"] None
      "fixed_distance" false (Some 50) (Some 150) (Some 50) (Some 20)
      (Qc_of_Z 1 / Qc_of_Z 100)%Qc None = Ok [prec]
    ∧ ¬ ∃ h : hit, h ∈ vs_hits prec ∧ h.1.1.2 = 0.
Proof.
  eexists. split.
  - apply (sample_run elements sample_prediction sample_truth _ _ 50 150 _
             (λ s, reflexivity _) sample_prediction_chr1 sample_truth_chr1);
      simpl; try done; try lia; by vm_compute.
  - simpl. intros (h & Hh & Hld). apply list_elem_of_singleton in Hh. subst h.
    simpl in Hld. lia.
Qed.

(** ** Candidate sets, in terms of the records *)

Lemma find_all_deletion_overlaps_records (self another_list : VariationList)
    (chromosome : string) (trio : bool) (min_length max_length : option Z)
    (offset difflength : option Z)
    (Hself : Forall wf_variation (variations_of self (lower chromosome)))
    (Hother : Forall wf_variation (variations_of another_list (lower chromosome)))
    (Hoff : 0 ≤ default 0 offset) :
  ∃ results,
    find_all_deletion_overlaps self another_list chromosome trio min_length
      max_length offset difflength None = Ok results
    ∧ ∀ i j, j ∈ results !!! i ↔
        ∃ q t eff,
          variations_of self (lower chromosome) !! i = Some q
          ∧ variations_of another_list (lower chromosome) !! j = Some t
          ∧ deletion_query min_length max_length q = true
          ∧ deletion_effective_length t = Some eff
          ∧ passes eff (widened_min min_length (default 0 difflength))
              (widened_max max_length (default 0 difflength)) = true
          ∧ coord1 t - default 0 offset < coord2 q
          ∧ coord1 q < coord2 t + default 0 offset.
Proof.
  destruct (find_all_deletion_overlaps_spec self another_list chromosome trio
              min_length max_length offset difflength Hself Hother Hoff)
    as (results & Hrun & Hres).
  exists results. split; [exact Hrun|]. intros i j. rewrite Hres. split.
  - intros (v0 & v1 & s0 & t0 & s1 & t1 & H0 & Hq & H1 & Ht & Hlt1 & Hlt0).
    apply deletion_query_interval_Some in Hq as (Hdel & -> & -> & Hpass).
    apply deletion_target_interval_Some in Ht as (-> & -> & eff & Heff & Hpt).
    exists v0, v1, eff. split_and!; try done.
    unfold deletion_query. by rewrite Hdel, Hpass, bool_decide_eq_true_2.
  - intros (q & t & eff & H0 & H1 & Hq & Heff & Hpt & Hlt1 & Hlt0).
    unfold deletion_query in Hq. apply andb_true_iff in Hq as [Hdel Hpass].
    apply bool_decide_eq_true in Hdel.
    exists q, t, (coord1 q), (coord2 q), (coord1 t - default 0 offset),
      (coord2 t + default 0 offset).
    split_and!; try done.
    + unfold deletion_query_interval. by rewrite Hdel, Hpass.
    + unfold deletion_target_interval. by rewrite Heff, Hpt.
Qed.

(** X1: on well-formed records and without tag filter,
    [find_all_deletion_overlaps] returns, and [j] is a candidate of [i]
    exactly when [i] is a deletion of the queried list whose length passes
    [min_length .. max_length], [j] is a deletion or MIX event of the other
    list whose effective length passes the widened filter, and the query
    interval meets the target interval widened by [offset] on both sides. *)
Theorem deletion_candidates_characterised (self another_list : VariationList)
    (chromosome : string) (trio : bool) (min_length max_length : option Z)
    (offset difflength : option Z)
    (Hself : Forall wf_variation (variations_of self (lower chromosome)))
    (Hother : Forall wf_variation (variations_of another_list (lower chromosome)))
    (Hoff : 0 ≤ default 0 offset) :
  ∃ results,
    find_all_deletion_overlaps self another_list chromosome trio min_length
      max_length offset difflength None = Ok results
    ∧ ∀ i j, j ∈ results !!! i ↔
        ∃ q t eff,
          variations_of self (lower chromosome) !! i = Some q
          ∧ variations_of another_list (lower chromosome) !! j = Some t
          ∧ deletion_query min_length max_length q = true
          ∧ deletion_effective_length t = Some eff
          ∧ passes eff (widened_min min_length (default 0 difflength))
              (widened_max max_length (default 0 difflength)) = true
          ∧ coord1 t - default 0 offset < coord2 q
          ∧ coord1 q < coord2 t + default 0 offset.
Proof. by apply find_all_deletion_overlaps_records. Qed.

Lemma deletion_candidates_characterised_witness :
  ∃ results,
    find_all_deletion_overlaps sample_prediction sample_truth "chr1" false
      (Some 49) (Some 248) (Some 50) (Some 20) None = Ok results
    ∧ 0%nat ∈ results !!! 0%nat.
Proof.
  destruct (deletion_candidates_characterised sample_prediction sample_truth
              "chr1" false (Some 49) (Some 248) (Some 50) (Some 20)
              sample_prediction_wf sample_truth_wf)
    as (results & Hrun & Hres).
  { simpl. lia. }
  exists results. split; [exact Hrun|]. apply Hres.
  rewrite sample_prediction_chr1, sample_truth_chr1.
  eexists _, _, _. split; [reflexivity|]. split; [reflexivity|].
  split; [reflexivity|]. split; [reflexivity|]. split; [reflexivity|].
  simpl. lia.
Defined.

Lemma insertion_target_interval_Some (min_length max_length : option Z)
    (offset difflength : Z) (v : variation) (s t : Z) :
  insertion_target_interval min_length max_length offset difflength v = Some (s, t)
  ↔ ∃ pos ins_length eff,
      insertion_target_data v = Some (pos, ins_length, eff)
      ∧ 0 < ins_length
      ∧ passes eff (widened_min min_length difflength)
                   (widened_max max_length difflength) = true
      ∧ s = pos - offset ∧ t = pos + ins_length + offset.
Proof.
  unfold insertion_target_interval.
  destruct (insertion_target_data v) as [[[pos ins] eff]|].
  - destruct (bool_decide (0 < ins)) eqn:Eins; simpl.
    + apply bool_decide_eq_true in Eins. destruct (passes _ _ _) eqn:Ep.
      * split.
        -- intros [= <- <-]. by exists pos, ins, eff.
        -- by intros (? & ? & ? & [= <- <- <-] & _ & _ & -> & ->).
      * split; [done|]. intros (? & ? & ? & [= <- <- <-] & _ & Hp & _). congruence.
    + apply bool_decide_eq_false in Eins. split; [done|].
      by intros (? & ? & ? & [= <- <- <-] & ? & _).
  - split; [done|]. by intros (? & ? & ? & [=] & _).
Qed.

Lemma insertion_distances_records (self another_list : VariationList)
    (chromosome : string) (trio : bool) (min_length max_length : option Z)
    (offset difflength : option Z)
    (Hother : Forall wf_variation (variations_of another_list (lower chromosome)))
    (Hoff : 0 ≤ default 0 offset) :
  ∃ results,
    insertion_distances self another_list chromosome trio min_length
      max_length offset difflength None = Ok results
    ∧ ∀ i j, j ∈ results !!! i ↔
        ∃ q t pos ins_length eff,
          variations_of self (lower chromosome) !! i = Some q
          ∧ variations_of another_list (lower chromosome) !! j = Some t
          ∧ var_type q = INS ∧ 0 < coord2 q
          ∧ passes (coord2 q) min_length max_length = true
          ∧ insertion_target_data t = Some (pos, ins_length, eff)
          ∧ 0 < ins_length
          ∧ passes eff (widened_min min_length (default 0 difflength))
              (widened_max max_length (default 0 difflength)) = true
          ∧ pos - default 0 offset < coord1 q + coord2 q
          ∧ coord1 q < pos + ins_length + default 0 offset.
Proof.
  destruct (insertion_distances_spec self another_list chromosome trio
              min_length max_length offset difflength Hother Hoff)
    as (results & Hrun & Hres).
  exists results. split; [exact Hrun|]. intros i j. rewrite Hres. split.
  - intros (v0 & v1 & s0 & t0 & s1 & t1 & H0 & Hq & H1 & Ht & Hlt1 & Hlt0).
    apply insertion_query_interval_Some in Hq as (Hins & -> & -> & Hpos & Hpass).
    apply insertion_target_interval_Some in Ht
      as (pos & ins & eff & Hdata & Hins1 & Hpt & -> & ->).
    exists v0, v1, pos, ins, eff. by split_and!.
  - intros (q & t & pos & ins & eff & H0 & H1 & Hins & Hpos & Hpass & Hdata
            & Hins1 & Hpt & Hlt1 & Hlt0).
    exists q, t, (coord1 q), (coord1 q + coord2 q), (pos - default 0 offset),
      (pos + ins + default 0 offset).
    split_and!; try done.
    + unfold insertion_query_interval.
      by rewrite Hins, Hpass, bool_decide_eq_true_2.
    + apply insertion_target_interval_Some. by exists pos, ins, eff.
Qed.

(** X2: on well-formed records and without tag filter,
    [insertion_distances] returns, and [j] is a candidate of [i] exactly
    when [i] is an insertion of positive length that passes
    [min_length .. max_length], [j] is an insertion or MIX event with a
    positive inserted length whose effective length passes the widened
    filter, and the interval [pos, pos + length) of the query meets the
    interval of the target's inserted length widened by [offset]. *)
Theorem insertion_candidates_characterised (self another_list : VariationList)
    (chromosome : string) (trio : bool) (min_length max_length : option Z)
    (offset difflength : option Z)
    (Hother : Forall wf_variation (variations_of another_list (lower chromosome)))
    (Hoff : 0 ≤ default 0 offset) :
  ∃ results,
    insertion_distances self another_list chromosome trio min_length
      max_length offset difflength None = Ok results
    ∧ ∀ i j, j ∈ results !!! i ↔
        ∃ q t pos ins_length eff,
          variations_of self (lower chromosome) !! i = Some q
          ∧ variations_of another_list (lower chromosome) !! j = Some t
          ∧ var_type q = INS ∧ 0 < coord2 q
          ∧ passes (coord2 q) min_length max_length = true
          ∧ insertion_target_data t = Some (pos, ins_length, eff)
          ∧ 0 < ins_length
          ∧ passes eff (widened_min min_length (default 0 difflength))
              (widened_max max_length (default 0 difflength)) = true
          ∧ pos - default 0 offset < coord1 q + coord2 q
          ∧ coord1 q < pos + ins_length + default 0 offset.
Proof. by apply insertion_distances_records. Qed.

Lemma sample_insertion_truth_wf :
  Forall wf_variation (variations_of sample_insertion_truth (lower "chr1")).
Proof.
  apply Forall_cons_2; [done|]. apply Forall_cons_2; [|apply Forall_nil_2].
  unfold wf_variation. simpl. split; [lia|]. exists 40. split; [done|lia].
Qed.

Lemma insertion_candidates_characterised_witness :
  ∃ results,
    insertion_distances sample_insertion_call sample_insertion_truth "chr1"
      false (Some 19) (Some 48) (Some 50) (Some 20) None = Ok results
    ∧ 0%nat ∈ results !!! 0%nat ∧ 1%nat ∈ results !!! 0%nat.
Proof.
  destruct (insertion_candidates_characterised sample_insertion_call
              sample_insertion_truth "chr1" false (Some 19) (Some 48) (Some 50)
              (Some 20) sample_insertion_truth_wf)
    as (results & Hrun & Hres).
  { simpl. lia. }
  exists results. split; [exact Hrun|]. split; apply Hres.
  - eexists _, _, _, _, _. split; [reflexivity|]. split; [reflexivity|].
    split; [reflexivity|]. split; [simpl; lia|]. split; [reflexivity|].
    split; [reflexivity|]. split; [simpl; lia|]. split; [reflexivity|]. simpl. lia.
  - eexists _, _, _, _, _. split; [reflexivity|]. split; [reflexivity|].
    split; [reflexivity|]. split; [simpl; lia|]. split; [reflexivity|].
    split; [reflexivity|]. split; [reflexivity|]. split; [reflexivity|].
    split; reflexivity.
Defined.

(** ** End events without an earlier start *)

Lemma sweep_step_started (pre : list event) (ev : event) (st : sweep_state) :
  (ev.1.2 < 2)%nat → started_inv pre st →
  match sweep_step st ev with
  | Ok st' => started_inv (pre ++ [ev]) st'
  | Raise e => e = KeyError
  end.
Proof.
  destruct ev as [[[p ty] sd] n], st as [results active].
  intros Hsd (a0 & a1 & Hact & H0 & H1). simpl in Hsd, Hact. subst active.
  assert (Hpre : ∀ sd' m, (∃ p', (p', evS, sd', m) ∈ pre) →
                   ∃ p', (p', evS, sd', m) ∈ pre ++ [(p, ty, sd, n)]).
  { intros sd' m [p' Hp']. exists p'. apply elem_of_app. by left. }
  assert (Hnew : ty = evS → ∃ p', (p', evS, sd, n) ∈ pre ++ [(p, ty, sd, n)]).
  { intros ->. exists p. apply elem_of_app. right. by apply list_elem_of_singleton. }
  destruct sd as [|[|sd]]; [| |lia]; destruct ty; simpl.
  - case_bool_decide; [|done].
    exists (a0 ∖ {[n]}), a1. split; [done|]. split.
    + intros m Hm. apply Hpre, H0. set_solver.
    + intros m Hm. by apply Hpre, H1.
  - exists ({[n]} ∪ a0), a1. split; [done|]. split.
    + intros m [->%elem_of_singleton|Hm]%elem_of_union; [by apply Hnew|].
      by apply Hpre, H0.
    + intros m Hm. by apply Hpre, H1.
  - case_bool_decide; [|done].
    exists a0, (a1 ∖ {[n]}). split; [done|]. split.
    + intros m Hm. by apply Hpre, H0.
    + intros m Hm. apply Hpre, H1. set_solver.
  - exists a0, ({[n]} ∪ a1). split; [done|]. split.
    + intros m Hm. by apply Hpre, H0.
    + intros m [->%elem_of_singleton|Hm]%elem_of_union; [by apply Hnew|].
      by apply Hpre, H1.
Qed.

Lemma sweep_loop_unstarted_end (l1 l2 : list event) (q : Z) (sd n : nat) :
  ∀ (pre : list event) (st : sweep_state),
  Forall (λ ev : event, (ev.1.2 < 2)%nat) (l1 ++ (q, evE, sd, n) :: l2) →
  started_inv pre st →
  (∀ p, (p, evS, sd, n) ∉ pre ++ l1) →
  sweep_loop (l1 ++ (q, evE, sd, n) :: l2) st = Raise KeyError.
Proof.
  induction l1 as [|ev l1 IH]; intros pre st Hsd Hinv Hnostart.
  - rewrite app_nil_r in Hnostart. simpl in *.
    apply Forall_cons in Hsd as [Hsd _]. simpl in Hsd.
    destruct st as [results active].
    destruct Hinv as (a0 & a1 & Hact & H0 & H1). simpl in Hact. subst active.
    destruct sd as [|[|sd]]; [| |lia]; simpl.
    + rewrite bool_decide_eq_false_2; [done|].
      intros [p Hp]%H0. by apply (Hnostart p).
    + rewrite bool_decide_eq_false_2; [done|].
      intros [p Hp]%H1. by apply (Hnostart p).
  - simpl in *. apply Forall_cons in Hsd as [Hev Hsd].
    pose proof (sweep_step_started pre ev st Hev Hinv) as Hstep.
    destruct (sweep_step st ev) as [st'|e]; simpl; [|by subst e].
    apply (IH (pre ++ [ev])); [done|done|].
    intros p. rewrite <-app_assoc. apply Hnostart.
Qed.

(** The sweep raises [KeyError] when a variant's end event does not come
    after its start event. *)
Lemma sweep_end_before_start (events : list event) (p q : Z) (sd n : nat) :
  NoDup events →
  (∀ ev : event, ev ∈ events → (ev.1.2 < 2)%nat) →
  (∀ p', (p', evS, sd, n) ∈ events → p' = p) →
  (q, evE, sd, n) ∈ events → q ≤ p →
  sweep events = Raise KeyError.
Proof.
  intros Hnd Hsd Hstart Hend Hle. unfold sweep.
  pose proof (sort_events_sorted events Hnd) as Hsorted.
  apply sort_events_elem in Hend.
  apply list_elem_of_split in Hend as (l1 & l2 & Hsplit).
  rewrite Hsplit in Hsorted |- *.
  rewrite (sweep_loop_unstarted_end l1 l2 q sd n []); [done| | |].
  - apply Forall_forall. intros ev Hev. apply Hsd, sort_events_elem.
    by rewrite Hsplit.
  - exists ∅, ∅. split; [done|]. split; intros m Hm; set_solver.
  - intros p' Hp'. simpl in Hp'.
    assert (p' = p) as ->.
    { apply Hstart, sort_events_elem. rewrite Hsplit. apply elem_of_app. by left. }
    pose proof (sorted_before _ _ _ _ Hsorted Hp') as Hlt.
    apply event_lt_S_E in Hlt. lia.
Qed.

Lemma deletion_query_events_ordered (trio : bool) (min_length max_length : option Z)
    (n : nat) (v : variation) :
  ordered_variation v →
  deletion_query_events trio min_length max_length None n v
  = Ok (events_of 0 n (deletion_query_interval min_length max_length v)).
Proof.
  unfold ordered_variation, deletion_query_events, deletion_query_interval, passes.
  intros Hwf. destruct (var_type v) eqn:Ety; simpl; try done.
  rewrite bool_decide_eq_true_2 by lia. simpl.
  destruct (too_short _ _); [done|]. by destruct (too_long _ _).
Qed.

Lemma deletion_target_events_ordered (min_length max_length : option Z)
    (offset difflength : Z) (n : nat) (v : variation) :
  ordered_variation v →
  deletion_target_events min_length max_length offset difflength n v
  = Ok (events_of 1 n (deletion_target_interval min_length max_length offset
                         difflength v)).
Proof.
  unfold ordered_variation, deletion_target_events, deletion_target_interval,
    deletion_effective_length, passes.
  intros Hwf. destruct (var_type v) eqn:Ety; simpl; try done.
  - rewrite bool_decide_eq_true_2 by lia. simpl.
    destruct (too_short _ _); [done|]. by destruct (too_long _ _).
  - destruct Hwf as (Hlt & c & ->).
    rewrite bool_decide_eq_true_2 by lia. simpl.
    destruct (too_short _ _); [done|]. by destruct (too_long _ _).
Qed.

(** X3: a deletion of length zero that passes the query filter makes
    [find_all_deletion_overlaps] raise [KeyError]: its end event sorts before
    its start event, and the sweep removes it from an active set it is not
    in.  The other records only need ordered coordinates, so that the event
    loops pass their assertions. *)
Theorem zero_length_deletion_KeyError (self another_list : VariationList)
    (chromosome : string) (trio : bool) (min_length max_length : option Z)
    (offset difflength : option Z) (i : nat) (q : variation)
    (Hself : Forall ordered_variation (variations_of self (lower chromosome)))
    (Hother : Forall ordered_variation
                (variations_of another_list (lower chromosome)))
    (Hi : variations_of self (lower chromosome) !! i = Some q)
    (Hdel : var_type q = DEL)
    (Hzero : coord2 q = coord1 q)
    (Hpass : passes 0 min_length max_length = true) :
  find_all_deletion_overlaps self another_list chromosome trio min_length
    max_length offset difflength None = Raise KeyError.
Proof.
  unfold find_all_deletion_overlaps.
  rewrite (events_loop_intervals
             (deletion_query_events trio min_length max_length None) 0
             (deletion_query_interval min_length max_length)
             ordered_variation _ 0
             (λ m v, deletion_query_events_ordered _ _ _ m v) Hself).
  cbn [mbind res_bind].
  rewrite (events_loop_intervals
             (deletion_target_events min_length max_length (default 0 offset)
                (default 0 difflength)) 1
             (deletion_target_interval min_length max_length (default 0 offset)
                (default 0 difflength))
             ordered_variation _ 0
             (λ m v, deletion_target_events_ordered _ _ _ _ m v) Hother).
  cbn [mbind res_bind].
  assert (Hqi : deletion_query_interval min_length max_length q
                = Some (coord1 q, coord2 q)).
  { unfold deletion_query_interval. rewrite Hdel.
    replace (coord2 q - coord1 q) with 0 by lia. by rewrite Hpass. }
  apply (sweep_end_before_start _ (coord1 q) (coord2 q) 0 i).
  - apply NoDup_app. split; [apply NoDup_interval_events|].
    split; [|apply NoDup_interval_events].
    intros [[[p ty] sd] m] Ha Hb.
    apply elem_of_interval_events in Ha as [-> _].
    by apply elem_of_interval_events in Hb as [? _].
  - intros [[[p ty] sd] m]
      (v & s & t & [(-> & _)|(-> & _)] & _)%elem_of_two_lists; simpl; lia.
  - intros p' (v & s & t & [(_ & Hk & Hiv)|([=] & _)] & Hty)%elem_of_two_lists.
    rewrite Hi in Hk. injection Hk as <-. rewrite Hqi in Hiv.
    injection Hiv as <- <-. by destruct Hty as [[_ ->]|[[=] _]].
  - apply elem_of_two_lists. exists q, (coord1 q), (coord2 q). split; [|by right].
    left. by split_and!.
  - lia.
Qed.

Lemma zero_length_deletion_KeyError_witness :
  find_all_deletion_overlaps sample_empty_deletion sample_truth "chr1" false
    None (Some 10) (Some 50) (Some 20) None = Raise KeyError.
Proof.
  apply (zero_length_deletion_KeyError sample_empty_deletion sample_truth "chr1"
           false None (Some 10) (Some 50) (Some 20) 0
           {| coord1 := 7; coord2 := 7; coord3 := None; var_type := DEL;
              tags := None |}).
  - apply Forall_cons_2; [|apply Forall_nil_2]. unfold ordered_variation. simpl. lia.
  - apply Forall_cons_2; [|apply Forall_nil_2]. unfold ordered_variation. simpl. lia.
  - reflexivity.
  - reflexivity.
  - reflexivity.
  - reflexivity.
Defined.

(** ** Outcome lists of the hit statistics *)

Lemma wf_list_variations_of (l : VariationList) (chromosome : string) :
  wf_list l → Forall wf_variation (variations_of l chromosome).
Proof.
  intros Hwf. unfold variations_of.
  destruct (variations l !! chromosome) as [vs|] eqn:E; simpl; [|constructor].
  by apply (Hwf chromosome).
Qed.

Lemma typed_list_variations_of (trio : bool) (l : VariationList)
    (chromosome : string) :
  typed_list trio l → Forall (typed trio) (variations_of l chromosome).
Proof.
  intros Hwf. unfold variations_of.
  destruct (variations l !! chromosome) as [vs|] eqn:E; simpl; [|constructor].
  by apply (Hwf chromosome).
Qed.

Lemma hits_of_add_hit (mix : bool) (s : VariationStatistics) (j : nat) (ld : Z)
    (d : Qc) (ty : option nat) (mx : bool) (h : hit) :
  h ∈ hits_of mix (add_hit s j ld d ty mx)
  ↔ h ∈ hits_of mix s ∨ (mx = mix ∧ h = (j, ld, d, ty)).
Proof.
  destruct mix, mx; simpl; rewrite ?elem_of_app, ?list_elem_of_singleton;
    naive_solver.
Qed.

Lemma add_hit_fields (s : VariationStatistics) (j : nat) (ld : Z) (d : Qc)
    (ty : option nat) (mx : bool) :
  vs_index (add_hit s j ld d ty mx) = vs_index s
  ∧ vs_chromosome (add_hit s j ld d ty mx) = vs_chromosome s
  ∧ vs_typing (add_hit s j ld d ty mx) = vs_typing s.
Proof. by destruct mx. Qed.

(** A candidate loop whose body adds, for each [j], the hit [g j] if there
    is one. *)
Lemma candidates_loop_spec
    (f : VariationStatistics → nat → res VariationStatistics)
    (g : nat → option (Z * Qc * option nat * bool)) (js : list nat) :
  (∀ j s, j ∈ js →
     f s j = Ok (match g j with
                 | Some (ld, d, ty, mx) => add_hit s j ld d ty mx
                 | None => s
                 end)) →
  ∀ stats, ∃ stats',
    candidates_loop f js stats = Ok stats'
    ∧ vs_index stats' = vs_index stats
    ∧ vs_chromosome stats' = vs_chromosome stats
    ∧ vs_typing stats' = vs_typing stats
    ∧ ∀ mix h, h ∈ hits_of mix stats' ↔
        h ∈ hits_of mix stats
        ∨ ∃ j ld d ty, j ∈ js ∧ g j = Some (ld, d, ty, mix) ∧ h = (j, ld, d, ty).
Proof.
  induction js as [|j js IH]; intros Hf stats.
  - exists stats. split_and!; try done. intros mix h. split; [auto|].
    intros [?|(j & ? & ? & ? & Hj & _)]; [done|]. by apply elem_of_nil in Hj.
  - simpl. rewrite (Hf j stats) by (by left). cbn [mbind res_bind].
    destruct (IH (λ j' s Hj', Hf j' s (list_elem_of_further _ _ _ Hj'))
                 (match g j with
                  | Some (ld, d, ty, mx) => add_hit stats j ld d ty mx
                  | None => stats
                  end))
      as (stats' & -> & Hidx & Hchr & Htyp & Hhits).
    exists stats'. split; [done|].
    destruct (g j) as [[[[ld d] ty] mx]|] eqn:Eg.
    + destruct (add_hit_fields stats j ld d ty mx) as (Ei & Ec & Et).
      rewrite Hidx, Hchr, Htyp. split_and!; try done.
      intros mix h. rewrite Hhits, hits_of_add_hit.
      setoid_rewrite elem_of_cons. split.
      * intros [[?|[-> ->]]|(j' & ld' & d' & ty' & ? & ? & ?)]; [by left| |].
        -- right. exists j, ld, d, ty. auto.
        -- right. exists j', ld', d', ty'. auto.
      * intros [?|(j' & ld' & d' & ty' & [-> |?] & Hg & ->)]; [by left; left| |].
        -- rewrite Eg in Hg. injection Hg as <- <- <- <-. left. by right.
        -- right. by exists j', ld', d', ty'.
    + split_and!; try done. intros mix h. rewrite Hhits.
      setoid_rewrite elem_of_cons. split.
      * intros [?|(j' & ld' & d' & ty' & ? & ? & ?)]; [by left|].
        right. exists j', ld', d', ty'. auto.
      * intros [?|(j' & ld' & d' & ty' & [-> |?] & Hg & ->)]; [by left| |].
        -- congruence.
        -- right. by exists j', ld', d', ty'.
Qed.

(** An outcome loop whose body appends one outcome for each record that
    satisfies [P] and nothing for the others. *)
Lemma outcomes_loop_spec (f : nat → variation → res (list VariationStatistics))
    (P : variation → bool) (Q : nat → variation → VariationStatistics → Prop)
    (l : list variation) :
  ∀ n,
  (∀ k v, l !! k = Some v →
     if P v
     then ∃ s, f (n + k)%nat v = Ok [s] ∧ vs_index s = (n + k)%nat
               ∧ Q (n + k)%nat v s
     else f (n + k)%nat v = Ok []) →
  ∃ ss,
    outcomes_loop f n l = Ok ss
    ∧ vs_index <$> ss = query_indices P n l
    ∧ ∀ s, s ∈ ss →
        ∃ k v, l !! k = Some v ∧ P v = true ∧ vs_index s = (n + k)%nat
               ∧ Q (n + k)%nat v s.
Proof.
  induction l as [|v l IH]; intros n Hf.
  - exists []. split_and!; try done. intros s Hs. by apply elem_of_nil in Hs.
  - destruct (IH (Datatypes.S n)) as (ss & Hrun & Hidx & Hss).
    { intros k v' Hk. specialize (Hf (Datatypes.S k) v' Hk).
      by replace (n + Datatypes.S k)%nat with (Datatypes.S n + k)%nat in Hf by lia. }
    specialize (Hf 0%nat v eq_refl). rewrite Nat.add_0_r in Hf.
    cbn [outcomes_loop query_indices]. destruct (P v) eqn:EP.
    + destruct Hf as (s & -> & Hi & HQ). cbn [mbind res_bind]. rewrite Hrun.
      cbn [mbind res_bind]. exists (s :: ss). split; [done|]. split.
      * by rewrite fmap_cons, Hi, Hidx.
      * intros s' [-> |Hs']%elem_of_cons.
        -- exists 0%nat, v. rewrite Nat.add_0_r. by split_and!.
        -- destruct (Hss s' Hs') as (k & q & Hk & Hq & Hi' & HQ').
           exists (Datatypes.S k), q.
           replace (n + Datatypes.S k)%nat with (Datatypes.S n + k)%nat by lia.
           by split_and!.
    + rewrite Hf. cbn [mbind res_bind]. rewrite Hrun. cbn [mbind res_bind].
      exists ss. split; [done|]. split; [done|].
      intros s' Hs'. destruct (Hss s' Hs') as (k & q & Hk & Hq & Hi' & HQ').
      exists (Datatypes.S k), q.
      replace (n + Datatypes.S k)%nat with (Datatypes.S n + k)%nat by lia.
      by split_and!.
Qed.

Lemma deletion_outcome_full (iter : gset nat → list nat)
    (another : list variation) (overlaps : gmap nat (gset nat))
    (chromosome : string) (count_stats : count_stats_t) (mode : string)
    (trio : bool) (min_length max_length offset : option Z) (difflength : Z)
    (siglevel : Qc) (i : nat) (v0 : variation) :
  mode = "overlap" ∨ mode = "fixed_distance" →
  (∀ j, j ∈ iter (overlaps !!! i) →
     ∃ v1 ty1 eff, another !! j = Some v1 ∧ typing_of trio (tags v1) = Ok ty1
                   ∧ deletion_effective_length v1 = Some eff) →
  typed trio v0 →
  if deletion_query min_length max_length v0
  then ∃ s,
         deletion_outcome iter another overlaps chromosome count_stats mode trio
           min_length max_length offset (Some difflength) siglevel None i v0
         = Ok [s]
         ∧ vs_index s = i
         ∧ (vs_chromosome s = chromosome
            ∧ typing_of trio (tags v0) = Ok (vs_typing s)
            ∧ ∀ mix h, h ∈ hits_of mix s ↔
                deletion_hit_of another mode trio offset difflength
                  (coord1 v0) (coord2 v0) (iter (overlaps !!! i)) mix h)
  else deletion_outcome iter another overlaps chromosome count_stats mode trio
         min_length max_length offset (Some difflength) siglevel None i v0
       = Ok [].
Proof.
  unfold deletion_outcome, deletion_query, passes. intros Hmode Hcand [ty0 Hty0].
  destruct (var_type v0) eqn:Ety; simpl; try done.
  destruct (too_short _ _); simpl; [done|].
  destruct (too_long _ _); simpl; [done|].
  rewrite Hty0. cbn [mbind res_bind].
  destruct (deletion_candidates_spec another chromosome count_stats mode trio
              offset difflength siglevel (coord1 v0) (coord2 v0)
              (iter (overlaps !!! i)) Hmode Hcand
              (VariationStatistics_init chromosome i ty0))
    as (s & -> & Hidx & Hchr & Htyp & Hhits & Hmix).
  cbn [mbind res_bind]. exists s. split; [done|]. split; [done|].
  split; [done|]. split; [by rewrite Htyp|].
  intros [|] h; simpl.
  - rewrite Hmix. simpl. rewrite elem_of_nil. tauto.
  - rewrite Hhits. simpl. rewrite elem_of_nil. tauto.
Qed.

(** The outcomes of [deletion_hit_statistics] on one chromosome. *)
Lemma deletion_chromosome_spec (iter : gset nat → list nat)
    (self another_list : VariationList) (c : string)
    (count_stats : count_stats_t) (mode : string) (trio : bool)
    (min_length max_length offset : option Z) (difflength : Z) (siglevel : Qc) :
  (∀ s, iter s ≡ₚ elements s) →
  mode = "overlap" ∨ mode = "fixed_distance" →
  wf_list self → wf_list another_list →
  typed_list trio self → typed_list trio another_list →
  0 ≤ default 0 offset →
  ∃ overlaps ss,
    find_all_deletion_overlaps self another_list (lower c) trio min_length
      max_length offset (Some difflength) None = Ok overlaps
    ∧ outcomes_loop
        (deletion_outcome iter (variations_of another_list (lower c)) overlaps
           (lower c) count_stats mode trio min_length max_length offset
           (Some difflength) siglevel None)
        0 (variations_of self (lower c)) = Ok ss
    ∧ vs_index <$> ss
      = query_indices (deletion_query min_length max_length) 0
          (variations_of self (lower c))
    ∧ ∀ s, s ∈ ss →
        vs_chromosome s = lower c
        ∧ ∃ q, variations_of self (lower c) !! vs_index s = Some q
            ∧ deletion_query min_length max_length q = true
            ∧ typing_of trio (tags q) = Ok (vs_typing s)
            ∧ ∀ mix h, h ∈ hits_of mix s ↔
                deletion_hit_spec (variations_of another_list (lower c)) mode
                  trio min_length max_length offset difflength q mix h.
Proof.
  intros Hiter Hmode Hself Hother Hts Hto Hoff.
  destruct (find_all_deletion_overlaps_records self another_list (lower c) trio
              min_length max_length offset (Some difflength))
    as (overlaps & Hrun & Hov); rewrite ?lower_idem;
    try (by apply wf_list_variations_of); try done.
  rewrite lower_idem in Hov. simpl in Hov.
  exists overlaps.
  destruct (outcomes_loop_spec
              (deletion_outcome iter (variations_of another_list (lower c))
                 overlaps (lower c) count_stats mode trio min_length max_length
                 offset (Some difflength) siglevel None)
              (deletion_query min_length max_length)
              (λ i v s,
                 vs_chromosome s = lower c
                 ∧ typing_of trio (tags v) = Ok (vs_typing s)
                 ∧ ∀ mix h, h ∈ hits_of mix s ↔
                     deletion_hit_of (variations_of another_list (lower c)) mode
                       trio offset difflength (coord1 v) (coord2 v)
                       (iter (overlaps !!! i)) mix h)
              (variations_of self (lower c)) 0%nat)
    as (ss & Hss & Hidx & Hspec).
  { intros k v Hk. simpl. apply deletion_outcome_full; [done| |].
    - intros j Hj. apply (iter_elem iter Hiter) in Hj.
      apply Hov in Hj as (q & t & eff & _ & Ht & _ & Heff & _).
      destruct (proj1 (Forall_lookup _ _)
                  (typed_list_variations_of trio another_list (lower c) Hto)
                  j t Ht) as [ty1 Hty1].
      by exists t, ty1, eff.
    - by apply (proj1 (Forall_lookup _ _)
                  (typed_list_variations_of trio self (lower c) Hts) k v). }
  exists ss. split; [done|]. split; [done|]. split; [done|].
  intros s Hs. destruct (Hspec s Hs) as (k & q & Hk & Hq & Hi & Hc & Hty & Hhits).
  simpl in Hi. split; [done|]. exists q. rewrite Hi. split_and!; try done.
  intros mix h. rewrite Hhits. unfold deletion_hit_of, deletion_hit_spec. split.
  - intros (j & t & ty & eff & Hj & Ht & Htyp & Heff & Hm & Htest & ->).
    apply (iter_elem iter Hiter) in Hj. simpl in Hj.
    apply Hov in Hj as (q' & t' & eff' & Hq' & Ht' & _ & Heff' & Hp & Hlt1 & Hlt0).
    rewrite Hk in Hq'. injection Hq' as <-.
    rewrite Ht in Ht'. injection Ht' as <-.
    rewrite Heff in Heff'. injection Heff' as <-.
    exists j, t, ty, eff. by split_and!.
  - intros (j & t & ty & eff & Ht & Htyp & Heff & Hp & Hlt1 & Hlt0 & Hm & Htest & ->).
    exists j, t, ty, eff. split_and!; try done.
    apply (iter_elem iter Hiter). simpl. apply Hov. exists q, t, eff.
    by split_and!.
Qed.

Lemma outcome_keys_cons (P : variation → bool) (self : VariationList)
    (c : string) (chromosomes : list string) :
  outcome_keys P self (c :: chromosomes)
  = ((λ i, (lower c, i)) <$> query_indices P 0 (variations_of self (lower c)))
    ++ outcome_keys P self chromosomes.
Proof. done. Qed.

Lemma outcome_keys_chromosome (c : string) (ss : list VariationStatistics)
    (l : list nat) :
  vs_index <$> ss = l → (∀ s, s ∈ ss → vs_chromosome s = c) →
  (λ s, (vs_chromosome s, vs_index s)) <$> ss = (λ i, (c, i)) <$> l.
Proof.
  intros <- Hc. rewrite <-list_fmap_compose. apply list_fmap_ext.
  intros i s Hs. simpl. f_equal. apply Hc. by eapply list_elem_of_lookup_2.
Qed.

(** The outcomes of [deletion_hit_statistics] in modes [overlap] and
    [fixed_distance]: one outcome per queried deletion, in order, whose
    lists hold the hits of the swept targets that pass the exact test. *)
Lemma deletion_hit_statistics_spec (iter : gset nat → list nat)
    (self another_list : VariationList) (chromosomes : list string)
    (count_stats : count_stats_t) (mode : string) (trio : bool)
    (min_length max_length offset : option Z) (difflength : Z) (siglevel : Qc) :
  (∀ s, iter s ≡ₚ elements s) →
  mode = "overlap" ∨ mode = "fixed_distance" →
  wf_list self → wf_list another_list →
  typed_list trio self → typed_list trio another_list →
  0 ≤ default 0 offset →
  ∃ ss,
    deletion_hit_statistics iter self another_list chromosomes count_stats mode
      trio min_length max_length offset (Some difflength) siglevel None = Ok ss
    ∧ (λ s, (vs_chromosome s, vs_index s)) <$> ss
      = outcome_keys (deletion_query min_length max_length) self chromosomes
    ∧ ∀ s, s ∈ ss →
        ∃ c q, c ∈ chromosomes ∧ vs_chromosome s = lower c
          ∧ variations_of self (lower c) !! vs_index s = Some q
          ∧ deletion_query min_length max_length q = true
          ∧ typing_of trio (tags q) = Ok (vs_typing s)
          ∧ ∀ mix h, h ∈ hits_of mix s ↔
              deletion_hit_spec (variations_of another_list (lower c)) mode
                trio min_length max_length offset difflength q mix h.
Proof.
  intros Hiter Hmode Hself Hother Hts Hto Hoff.
  induction chromosomes as [|c chromosomes IH].
  - exists []. split_and!; try done. intros s Hs. by apply elem_of_nil in Hs.
  - destruct (deletion_chromosome_spec iter self another_list c count_stats mode
                trio min_length max_length offset difflength siglevel)
      as (overlaps & ss1 & Hov & Hrun1 & Hidx1 & Hspec1); try done.
    destruct IH as (ss & Hrun & Hkeys & Hspec).
    cbn [deletion_hit_statistics]. rewrite Hov. cbn [mbind res_bind].
    rewrite Hrun1. cbn [mbind res_bind]. rewrite Hrun. cbn [mbind res_bind].
    exists (ss1 ++ ss). split; [done|]. split.
    + rewrite fmap_app, outcome_keys_cons, Hkeys. f_equal.
      apply outcome_keys_chromosome; [done|]. intros s Hs.
      by destruct (Hspec1 s Hs).
    + intros s [Hs|Hs]%elem_of_app.
      * destruct (Hspec1 s Hs) as (Hc & q & Hq). exists c, q.
        split; [by left|]. by split.
      * destruct (Hspec s Hs) as (c' & q & Hc' & Hq). exists c', q.
        split; [by right|]. done.
Qed.

Lemma sample_prediction_wf_list : wf_list sample_prediction.
Proof.
  intros chromosome vs Hvs. simpl in Hvs.
  apply lookup_singleton_Some in Hvs as [_ <-].
  apply Forall_cons_2; [|apply Forall_nil_2]. unfold wf_variation. simpl. lia.
Qed.

Lemma sample_truth_wf_list : wf_list sample_truth.
Proof.
  intros chromosome vs Hvs. simpl in Hvs.
  apply lookup_singleton_Some in Hvs as [_ <-].
  apply Forall_cons_2; [|apply Forall_nil_2]. unfold wf_variation. simpl. lia.
Qed.

Lemma typed_list_false (l : VariationList) : typed_list false l.
Proof. intros chromosome vs _. apply Forall_forall. intros v _. by exists None. Qed.

(** X4: in modes [overlap] and [fixed_distance], on well-formed records,
    [deletion_hit_statistics] returns one outcome per queried deletion: for
    each chromosome of the argument in turn (lower-cased), the deletions of
    the queried list whose length passes [min_length .. max_length], in list
    order.  Which records get an outcome does not depend on the other
    list. *)
Theorem deletion_outcomes_follow_queries (iter : gset nat → list nat)
    (self another_list : VariationList) (chromosomes : list string)
    (count_stats : count_stats_t) (mode : string) (trio : bool)
    (min_length max_length offset : option Z) (difflength : Z) (siglevel : Qc)
    (Hiter : ∀ s, iter s ≡ₚ elements s)
    (Hmode : mode = "overlap" ∨ mode = "fixed_distance")
    (Hself : wf_list self) (Hother : wf_list another_list)
    (Hts : typed_list trio self) (Hto : typed_list trio another_list)
    (Hoff : 0 ≤ default 0 offset) :
  ∃ ss,
    deletion_hit_statistics iter self another_list chromosomes count_stats mode
      trio min_length max_length offset (Some difflength) siglevel None = Ok ss
    ∧ (λ s, (vs_chromosome s, vs_index s)) <$> ss
      = (c ← chromosomes;
         (λ i, (lower c, i)) <$>
           query_indices (deletion_query min_length max_length) 0
             (variations_of self (lower c))).
Proof.
  destruct (deletion_hit_statistics_spec iter self another_list chromosomes
              count_stats mode trio min_length max_length offset difflength
              siglevel) as (ss & Hrun & Hkeys & _); try done.
  by exists ss.
Qed.

Lemma deletion_outcomes_follow_queries_witness :
  ∃ ss,
    deletion_hit_statistics elements sample_prediction sample_truth
      ["CHR1"; "chr2"] None "overlap" false (Some 49) (Some 248) None (Some 20)
      (Qc_of_Z 0) None = Ok ss
    ∧ (λ s, (vs_chromosome s, vs_index s)) <$> ss = [("chr1", 0%nat)].
Proof.
  destruct (deletion_outcomes_follow_queries elements sample_prediction
              sample_truth ["CHR1"; "chr2"] None "overlap" false (Some 49)
              (Some 248) None 20 (Qc_of_Z 0))
    as (ss & Hrun & Hkeys).
  - done.
  - by left.
  - exact sample_prediction_wf_list.
  - exact sample_truth_wf_list.
  - apply typed_list_false.
  - apply typed_list_false.
  - simpl. lia.
  - exists ss. split; [exact Hrun|]. rewrite Hkeys. reflexivity.
Defined.

(** X5: the exact hits of an outcome of [deletion_hit_statistics] point to
    deletions of the other list, and its MIX hits to MIX events: a MIX target
    never counts as an exact hit. *)
Theorem deletion_hit_kinds (iter : gset nat → list nat)
    (self another_list : VariationList) (chromosomes : list string)
    (count_stats : count_stats_t) (mode : string) (trio : bool)
    (min_length max_length offset : option Z) (difflength : Z) (siglevel : Qc)
    (Hiter : ∀ s, iter s ≡ₚ elements s)
    (Hmode : mode = "overlap" ∨ mode = "fixed_distance")
    (Hself : wf_list self) (Hother : wf_list another_list)
    (Hts : typed_list trio self) (Hto : typed_list trio another_list)
    (Hoff : 0 ≤ default 0 offset) :
  ∃ ss,
    deletion_hit_statistics iter self another_list chromosomes count_stats mode
      trio min_length max_length offset (Some difflength) siglevel None = Ok ss
    ∧ ∀ s (h : hit), s ∈ ss →
        (h ∈ vs_hits s →
           ∃ t, variations_of another_list (vs_chromosome s) !! h.1.1.1 = Some t
                ∧ var_type t = DEL)
        ∧ (h ∈ vs_mix_hits s →
             ∃ t, variations_of another_list (vs_chromosome s) !! h.1.1.1 = Some t
                  ∧ var_type t = MIX).
Proof.
  destruct (deletion_hit_statistics_spec iter self another_list chromosomes
              count_stats mode trio min_length max_length offset difflength
              siglevel) as (ss & Hrun & _ & Hspec); try done.
  exists ss. split; [done|]. intros s h Hs.
  destruct (Hspec s Hs) as (c & q & _ & Hc & _ & _ & _ & Hhits). rewrite Hc.
  split; intros Hh.
  - apply (Hhits false) in Hh
      as (j & t & ty & eff & Ht & _ & Heff & _ & _ & _ & Hm & _ & ->).
    exists t. split; [done|]. apply bool_decide_eq_false in Hm.
    unfold deletion_effective_length in Heff. by destruct (var_type t).
  - apply (Hhits true) in Hh
      as (j & t & ty & eff & Ht & _ & Heff & _ & _ & _ & Hm & _ & ->).
    exists t. split; [done|]. by apply bool_decide_eq_true in Hm.
Qed.

Lemma deletion_hit_kinds_witness :
  ∃ ss,
    deletion_hit_statistics elements sample_prediction sample_truth ["chr1"]
      None "fixed_distance" false (Some 49) (Some 248) (Some 50) (Some 20)
      (Qc_of_Z 0) None = Ok ss.
Proof.
  destruct (deletion_hit_kinds elements sample_prediction sample_truth ["chr1"]
              None "fixed_distance" false (Some 49) (Some 248) (Some 50) 20
              (Qc_of_Z 0))
    as (ss & Hrun & _).
  - done.
  - by right.
  - exact sample_prediction_wf_list.
  - exact sample_truth_wf_list.
  - apply typed_list_false.
  - apply typed_list_false.
  - simpl. lia.
  - by exists ss.
Defined.

(** ** Centre distances *)








(** ** Outcome lists of the insertion statistics *)

Lemma insertion_candidate_result (another : list variation) (chromosome : string)
    (count_stats : count_stats_t) (mode : string) (trio : bool)
    (offset : option Z) (difflength : Z) (siglevel : Qc) (c1 length0 : Z)
    (stats : VariationStatistics) (j : nat) (v1 : variation)
    (ty1 : option nat) (data : Z * Z * Z) :
  mode = "overlap" ∨ mode = "fixed_distance" →
  another !! j = Some v1 → typing_of trio (tags v1) = Ok ty1 →
  insertion_target_data v1 = Some data →
  insertion_candidate another chromosome count_stats mode trio offset
    (Some difflength) siglevel c1 length0 stats j
  = Ok (match insertion_result another mode trio offset difflength c1 length0 j with
        | Some (ld, d, ty, mx) => add_hit stats j ld d ty mx
        | None => stats
        end).
Proof.
  intros Hmode Hj Hty Hdata. unfold insertion_candidate, insertion_result, list_get.
  rewrite Hj. cbn [mbind res_bind]. rewrite Hty. cbn [mbind res_bind].
  rewrite Hdata. destruct data as [[start1 ins] eff].
  assert (Hpair :
    match var_type v1 with
    | DEL => Raise AssertionError
    | INS => Ok (coord1 v1, coord2 v1)
    | MIX =>
        match coord3 v1 with
        | Some ins_length1 =>
            Ok ((coord1 v1 + coord2 v1) `div` 2,
                ins_length1 - (coord2 v1 - coord1 v1))
        | None => Raise TypeError
        end
    end = Ok (start1, eff)).
  { unfold insertion_target_data in Hdata.
    destruct (var_type v1); [done|congruence|].
    destruct (coord3 v1); simpl in Hdata; congruence. }
  rewrite Hpair. cbn [mbind res_bind].
  rewrite mode_add_hit_basic by done. unfold insertion_test. simpl.
  f_equal.
  destruct (bool_decide (mode = "overlap")); rewrite andb_comm;
    by destruct (_ && _).
Qed.

Lemma insertion_outcome_full (iter : gset nat → list nat)
    (another : list variation) (overlaps : gmap nat (gset nat))
    (chromosome : string) (count_stats : count_stats_t) (mode : string)
    (trio : bool) (min_length max_length offset : option Z) (difflength : Z)
    (siglevel : Qc) (i : nat) (v0 : variation) :
  mode = "overlap" ∨ mode = "fixed_distance" →
  (∀ j, j ∈ iter (overlaps !!! i) →
     ∃ v1 ty1 data, another !! j = Some v1 ∧ typing_of trio (tags v1) = Ok ty1
                    ∧ insertion_target_data v1 = Some data) →
  if insertion_query min_length max_length v0
  then ∃ s,
         insertion_outcome iter another overlaps chromosome count_stats mode trio
           min_length max_length offset (Some difflength) siglevel None i v0
         = Ok [s]
         ∧ vs_index s = i
         ∧ (vs_chromosome s = chromosome
            ∧ vs_typing s = None
            ∧ ∀ mix h, h ∈ hits_of mix s ↔
                ∃ j ld d ty,
                  j ∈ iter (overlaps !!! i)
                  ∧ insertion_result another mode trio offset difflength
                      (coord1 v0) (coord2 v0) j = Some (ld, d, ty, mix)
                  ∧ h = (j, ld, d, ty))
  else insertion_outcome iter another overlaps chromosome count_stats mode trio
         min_length max_length offset (Some difflength) siglevel None i v0
       = Ok [].
Proof.
  unfold insertion_outcome, insertion_query, passes. intros Hmode Hcand.
  destruct (var_type v0) eqn:Ety; simpl; try done.
  destruct (too_short _ _); simpl; [done|].
  destruct (too_long _ _); simpl; [done|].
  destruct (candidates_loop_spec
              (insertion_candidate another chromosome count_stats mode trio
                 offset (Some difflength) siglevel (coord1 v0) (coord2 v0))
              (insertion_result another mode trio offset difflength
                 (coord1 v0) (coord2 v0))
              (iter (overlaps !!! i)))
    with (stats := VariationStatistics_init chromosome i None)
    as (s & -> & Hidx & Hchr & Htyp & Hhits).
  { intros j s Hj. destruct (Hcand j Hj) as (v1 & ty1 & data & Hv1 & Hty1 & Hdata).
    by eapply insertion_candidate_result. }
  cbn [mbind res_bind]. exists s. split; [done|]. split; [done|].
  split; [done|]. split; [done|].
  intros mix h. rewrite Hhits.
  assert (Hnil : hits_of mix (VariationStatistics_init chromosome i None) = [])
    by (by destruct mix).
  rewrite Hnil, elem_of_nil. tauto.
Qed.

(** The outcomes of [insertion_hit_statistics] on one chromosome. *)
Lemma insertion_chromosome_spec (iter : gset nat → list nat)
    (self another_list : VariationList) (c : string)
    (count_stats : count_stats_t) (mode : string) (trio : bool)
    (min_length max_length offset : option Z) (difflength : Z) (siglevel : Qc) :
  (∀ s, iter s ≡ₚ elements s) →
  mode = "overlap" ∨ mode = "fixed_distance" →
  wf_list another_list → typed_list trio another_list →
  0 ≤ default 0 offset →
  ∃ overlaps ss,
    insertion_distances self another_list (lower c) trio min_length
      max_length offset (Some difflength) None = Ok overlaps
    ∧ outcomes_loop
        (insertion_outcome iter (variations_of another_list (lower c)) overlaps
           (lower c) count_stats mode trio min_length max_length offset
           (Some difflength) siglevel None)
        0 (variations_of self (lower c)) = Ok ss
    ∧ vs_index <$> ss
      = query_indices (insertion_query min_length max_length) 0
          (variations_of self (lower c))
    ∧ ∀ s, s ∈ ss →
        vs_chromosome s = lower c
        ∧ vs_typing s = None
        ∧ ∃ q, variations_of self (lower c) !! vs_index s = Some q
            ∧ insertion_query min_length max_length q = true
            ∧ ∀ mix h, h ∈ hits_of mix s ↔
                insertion_hit_spec (variations_of another_list (lower c)) mode
                  trio min_length max_length offset difflength q mix h.
Proof.
  intros Hiter Hmode Hother Hto Hoff.
  destruct (insertion_distances_records self another_list (lower c) trio
              min_length max_length offset (Some difflength))
    as (overlaps & Hrun & Hov); rewrite ?lower_idem;
    try (by apply wf_list_variations_of); try done.
  rewrite lower_idem in Hov. simpl in Hov.
  exists overlaps.
  destruct (outcomes_loop_spec
              (insertion_outcome iter (variations_of another_list (lower c))
                 overlaps (lower c) count_stats mode trio min_length max_length
                 offset (Some difflength) siglevel None)
              (insertion_query min_length max_length)
              (λ i v s,
                 vs_chromosome s = lower c
                 ∧ vs_typing s = None
                 ∧ ∀ mix h, h ∈ hits_of mix s ↔
                     ∃ j ld d ty,
                       j ∈ iter (overlaps !!! i)
                       ∧ insertion_result (variations_of another_list (lower c))
                           mode trio offset difflength (coord1 v) (coord2 v) j
                         = Some (ld, d, ty, mix)
                       ∧ h = (j, ld, d, ty))
              (variations_of self (lower c)) 0%nat)
    as (ss & Hss & Hidx & Hspec).
  { intros k v Hk. simpl. apply insertion_outcome_full; [done|].
    intros j Hj. apply (iter_elem iter Hiter) in Hj.
    apply Hov in Hj as (q & t & pos & ins & eff & _ & Ht & _ & _ & _ & Hdata & _).
    destruct (proj1 (Forall_lookup _ _)
                (typed_list_variations_of trio another_list (lower c) Hto)
                j t Ht) as [ty1 Hty1].
    by exists t, ty1, (pos, ins, eff). }
  exists ss. split; [done|]. split; [done|]. split; [done|].
  intros s Hs. destruct (Hspec s Hs) as (k & q & Hk & Hq & Hi & Hc & Hty & Hhits).
  simpl in Hi. split; [done|]. split; [done|]. exists q. rewrite Hi.
  split_and!; try done.
  intros mix h. rewrite Hhits. unfold insertion_hit_spec, insertion_result. split.
  - intros (j & ld & d & ty & Hj & Hres & ->).
    apply (iter_elem iter Hiter) in Hj. simpl in Hj.
    apply Hov in Hj as (q' & t & pos & ins & eff & Hq' & Ht & _ & Hpos & _
                        & Hdata & Hins & Hp & Hlt1 & Hlt0).
    rewrite Hk in Hq'. injection Hq' as <-.
    rewrite Ht, Hdata in Hres.
    destruct (typing_of trio (tags t)) as [ty1|] eqn:Ety; [|done].
    destruct (insertion_test _ _ _ _ _ _ _) eqn:Etest; [|done].
    injection Hres as <- <- <- <-.
    exists j, t, ty1, pos, ins, eff. by split_and!.
  - intros (j & t & ty & pos & ins & eff & Ht & Htyp & Hpos & Hdata & Hins & Hp
            & Hlt1 & Hlt0 & Hm & Htest & ->).
    exists j, (Z.abs (coord2 q - eff)), (Qc_of_Z (Z.abs (coord1 q - pos))), ty.
    split_and!; try done.
    + apply (iter_elem iter Hiter). simpl. apply Hov.
      unfold insertion_query in Hq. apply andb_true_iff in Hq as [Hins0 Hpq].
      apply bool_decide_eq_true in Hins0.
      exists q, t, pos, ins, eff. by split_and!.
    + by rewrite Ht, Htyp, Hdata, Htest, Hm.
Qed.

(** The outcomes of [insertion_hit_statistics] in modes [overlap] and
    [fixed_distance]. *)
Lemma insertion_hit_statistics_spec (iter : gset nat → list nat)
    (self another_list : VariationList) (chromosomes : list string)
    (count_stats : count_stats_t) (mode : string) (trio : bool)
    (min_length max_length offset : option Z) (difflength : Z) (siglevel : Qc) :
  (∀ s, iter s ≡ₚ elements s) →
  mode = "overlap" ∨ mode = "fixed_distance" →
  wf_list another_list → typed_list trio another_list →
  0 ≤ default 0 offset →
  ∃ ss,
    insertion_hit_statistics iter self another_list chromosomes count_stats mode
      trio min_length max_length offset (Some difflength) siglevel None = Ok ss
    ∧ (λ s, (vs_chromosome s, vs_index s)) <$> ss
      = outcome_keys (insertion_query min_length max_length) self chromosomes
    ∧ ∀ s, s ∈ ss →
        vs_typing s = None
        ∧ ∃ c q, c ∈ chromosomes ∧ vs_chromosome s = lower c
            ∧ variations_of self (lower c) !! vs_index s = Some q
            ∧ insertion_query min_length max_length q = true
            ∧ ∀ mix h, h ∈ hits_of mix s ↔
                insertion_hit_spec (variations_of another_list (lower c)) mode
                  trio min_length max_length offset difflength q mix h.
Proof.
  intros Hiter Hmode Hother Hto Hoff.
  induction chromosomes as [|c chromosomes IH].
  - exists []. split_and!; try done. intros s Hs. by apply elem_of_nil in Hs.
  - destruct (insertion_chromosome_spec iter self another_list c count_stats mode
                trio min_length max_length offset difflength siglevel)
      as (overlaps & ss1 & Hov & Hrun1 & Hidx1 & Hspec1); try done.
    destruct IH as (ss & Hrun & Hkeys & Hspec).
    cbn [insertion_hit_statistics]. rewrite Hov. cbn [mbind res_bind].
    rewrite Hrun1. cbn [mbind res_bind]. rewrite Hrun. cbn [mbind res_bind].
    exists (ss1 ++ ss). split; [done|]. split.
    + rewrite fmap_app, outcome_keys_cons, Hkeys. f_equal.
      apply outcome_keys_chromosome; [done|]. intros s Hs.
      by destruct (Hspec1 s Hs).
    + intros s [Hs|Hs]%elem_of_app.
      * destruct (Hspec1 s Hs) as (Hc & Hty & q & Hq). split; [done|].
        exists c, q. split; [by left|]. by split.
      * destruct (Hspec s Hs) as (Hty & c' & q & Hc' & Hq). split; [done|].
        exists c', q. split; [by right|]. done.
Qed.

Lemma sample_insertion_truth_wf_list : wf_list sample_insertion_truth.
Proof.
  intros chromosome vs Hvs. simpl in Hvs.
  apply lookup_singleton_Some in Hvs as [_ <-].
  exact sample_insertion_truth_wf.
Qed.

(** X7: in modes [overlap] and [fixed_distance], [insertion_hit_statistics]
    returns one outcome per insertion of the queried list whose length
    passes [min_length .. max_length], chromosome by chromosome and in list
    order, whatever the other list holds; the outcome of an insertion never
    carries a genotype of its own, also in trio mode. *)
Theorem insertion_outcomes_follow_queries (iter : gset nat → list nat)
    (self another_list : VariationList) (chromosomes : list string)
    (count_stats : count_stats_t) (mode : string) (trio : bool)
    (min_length max_length offset : option Z) (difflength : Z) (siglevel : Qc)
    (Hiter : ∀ s, iter s ≡ₚ elements s)
    (Hmode : mode = "overlap" ∨ mode = "fixed_distance")
    (Hother : wf_list another_list)
    (Hto : typed_list trio another_list)
    (Hoff : 0 ≤ default 0 offset) :
  ∃ ss,
    insertion_hit_statistics iter self another_list chromosomes count_stats mode
      trio min_length max_length offset (Some difflength) siglevel None = Ok ss
    ∧ (λ s, (vs_chromosome s, vs_index s)) <$> ss
      = (c ← chromosomes;
         (λ i, (lower c, i)) <$>
           query_indices
             (λ v, bool_decide (var_type v = INS)
                   && passes (coord2 v) min_length max_length)
             0 (variations_of self (lower c)))
    ∧ ∀ s, s ∈ ss → vs_typing s = None.
Proof.
  destruct (insertion_hit_statistics_spec iter self another_list chromosomes
              count_stats mode trio min_length max_length offset difflength
              siglevel) as (ss & Hrun & Hkeys & Hspec); try done.
  exists ss. split; [done|]. split; [done|].
  intros s Hs. by destruct (Hspec s Hs).
Qed.

Lemma insertion_outcomes_follow_queries_witness :
  ∃ ss,
    insertion_hit_statistics elements sample_insertion_call
      sample_insertion_truth ["chr1"] None "overlap" false (Some 19) (Some 48)
      None (Some 20) (Qc_of_Z 0) None = Ok ss
    ∧ (λ s, (vs_chromosome s, vs_index s)) <$> ss = [("chr1", 0%nat)].
Proof.
  destruct (insertion_outcomes_follow_queries elements sample_insertion_call
              sample_insertion_truth ["chr1"] None "overlap" false (Some 19)
              (Some 48) None 20 (Qc_of_Z 0))
    as (ss & Hrun & Hkeys & _).
  - done.
  - by left.
  - exact sample_insertion_truth_wf_list.
  - apply typed_list_false.
  - simpl. lia.
  - exists ss. split; [exact Hrun|]. rewrite Hkeys. reflexivity.
Defined.

Lemma insertion_target_data_bounds (t : variation) (pos ins_length eff : Z) :
  wf_variation t → insertion_target_data t = Some (pos, ins_length, eff) →
  eff ≤ ins_length ∧ (var_type t = MIX → 0 < ins_length).
Proof.
  unfold wf_variation, insertion_target_data.
  destruct (var_type t); try done.
  - intros _ [= <- <- <-]. split; [lia|done].
  - intros (Hlt & c & -> & Hc) [= <- <- <-]. split; [lia|done].
Qed.

(** X8: a swept target [t] of [insertion_hit_statistics] (an insertion, or a
    MIX event placed at the midpoint of its deleted part and judged by
    inserted minus deleted length) is a hit of a queried insertion [q] of
    positive length exactly when the lengths differ by at most [difflength]
    and, in mode [overlap], the intervals [pos, pos + length) intersect, or,
    in mode [fixed_distance], the positions are at most [offset] apart.  The
    hit is an exact hit for an insertion and a MIX hit for a MIX event. *)
Theorem insertion_hits_characterised (iter : gset nat → list nat)
    (self another_list : VariationList) (chromosomes : list string)
    (count_stats : count_stats_t) (mode : string) (trio : bool)
    (min_length max_length offset : option Z) (difflength : Z) (siglevel : Qc)
    (Hiter : ∀ s, iter s ≡ₚ elements s)
    (Hmode : mode = "overlap" ∨ mode = "fixed_distance")
    (Hother : wf_list another_list)
    (Hto : typed_list trio another_list)
    (Hoff : 0 ≤ default 0 offset) :
  ∃ ss,
    insertion_hit_statistics iter self another_list chromosomes count_stats mode
      trio min_length max_length offset (Some difflength) siglevel None = Ok ss
    ∧ ∀ s q j t pos ins_length eff,
        s ∈ ss →
        variations_of self (vs_chromosome s) !! vs_index s = Some q →
        variations_of another_list (vs_chromosome s) !! j = Some t →
        insertion_target_data t = Some (pos, ins_length, eff) →
        0 < coord2 q → 0 < ins_length →
        passes eff (widened_min min_length difflength)
          (widened_max max_length difflength) = true →
        ((∃ h : hit, h ∈ (if bool_decide (var_type t = MIX)
                          then vs_mix_hits s else vs_hits s) ∧ h.1.1.1 = j)
         ↔ Z.abs (coord2 q - eff) ≤ difflength
           ∧ if bool_decide (mode = "overlap")
             then 0 < Z.max 0 (Z.min (coord1 q + coord2 q) (pos + eff)
                               - Z.max (coord1 q) pos)
             else ∃ off, offset = Some off ∧ Z.abs (coord1 q - pos) ≤ off).
Proof.
  destruct (insertion_hit_statistics_spec iter self another_list chromosomes
              count_stats mode trio min_length max_length offset difflength
              siglevel) as (ss & Hrun & _ & Hspec); try done.
  exists ss. split; [done|].
  intros s q j t pos ins eff Hs Hq Ht Hdata Hlen Hins Hpass.
  destruct (Hspec s Hs) as (_ & c & q' & _ & Hc & Hq' & Hquery & Hhits).
  rewrite Hc in Hq, Ht. rewrite Hq in Hq'. injection Hq' as <-.
  change (if bool_decide (var_type t = MIX) then vs_mix_hits s else vs_hits s)
    with (hits_of (bool_decide (var_type t = MIX)) s).
  assert (Htest : insertion_test mode offset difflength (coord1 q) (coord2 q)
                    pos eff = true
                  ↔ Z.abs (coord2 q - eff) ≤ difflength
                    ∧ if bool_decide (mode = "overlap")
                      then 0 < Z.max 0 (Z.min (coord1 q + coord2 q) (pos + eff)
                                        - Z.max (coord1 q) pos)
                      else ∃ off, offset = Some off
                                  ∧ Z.abs (coord1 q - pos) ≤ off).
  { unfold insertion_test. rewrite andb_true_iff, bool_decide_eq_true.
    destruct (bool_decide (mode = "overlap")).
    - by rewrite bool_decide_eq_true.
    - unfold py2_le_Z. destruct offset as [off|].
      + rewrite bool_decide_eq_true. split; [|naive_solver].
        intros [? ?]. split; [done|]. by exists off.
      + split; [naive_solver|]. by intros [_ (? & [=] & _)]. }
  rewrite <-Htest. split.
  - intros (h & Hh & Hhj). apply Hhits in Hh
      as (j' & t' & ty & pos' & ins' & eff' & Ht' & _ & _ & Hdata' & _ & _ & _
          & _ & _ & Htest' & ->).
    simpl in Hhj. subst j'. rewrite Ht in Ht'. injection Ht' as <-.
    rewrite Hdata in Hdata'. by injection Hdata' as <- <- <-.
  - intros Ht1.
    destruct (proj1 (Forall_lookup _ _)
                (typed_list_variations_of trio another_list (lower c) Hto)
                j t Ht) as [ty Hty].
    exists (insertion_hit (coord1 q) (coord2 q) j pos eff ty). split; [|done].
    apply Hhits. exists j, t, ty, pos, ins, eff.
    pose proof (proj1 (Forall_lookup _ _)
                  (wf_list_variations_of another_list (lower c) Hother) _ _ Ht)
      as Hwt.
    destruct (insertion_target_data_bounds t pos ins eff Hwt Hdata) as [Hle _].
    apply Htest in Ht1 as Ht2. destruct Ht2 as [_ Hpos].
    split_and!; try done.
    + destruct (bool_decide (mode = "overlap")); [lia|].
      destruct Hpos as (off & -> & Hpos). simpl in *. lia.
    + destruct (bool_decide (mode = "overlap")); [lia|].
      destruct Hpos as (off & -> & Hpos). simpl in *. lia.
Qed.

Lemma insertion_hits_characterised_witness :
  ∃ ss,
    insertion_hit_statistics elements sample_insertion_call
      sample_insertion_truth ["chr1"] None "fixed_distance" false (Some 19)
      (Some 48) (Some 50) (Some 20) (Qc_of_Z 0) None = Ok ss.
Proof.
  destruct (insertion_hits_characterised elements sample_insertion_call
              sample_insertion_truth ["chr1"] None "fixed_distance" false
              (Some 19) (Some 48) (Some 50) 20 (Qc_of_Z 0))
    as (ss & Hrun & _).
  - done.
  - by right.
  - exact sample_insertion_truth_wf_list.
  - apply typed_list_false.
  - simpl. lia.
  - by exists ss.
Defined.

(** ** One length range of [main] *)

Lemma genotyped_typing (trio : bool) (l : VariationList) (chromosome : string)
    (k : nat) (v : variation) :
  genotyped_list trio l → variations_of l chromosome !! k = Some v →
  ∃ ty, typing_of trio (tags v) = Ok ty ∧ wf_typing ty.
Proof.
  intros Hg Hk. unfold typing_of. destruct trio.
  - unfold variations_of in Hk.
    destruct (variations l !! chromosome) as [vs|] eqn:E; simpl in Hk; [|done].
    pose proof (Forall_lookup_1 _ _ _ _ (Hg eq_refl chromosome vs E) Hk)
      as (g & -> & m & f & c & -> & Hm & Hf & Hc).
    destruct (genotype_string_index m f c Hm Hf Hc) as (n & _ & -> & Hle & _).
    simpl. eexists. split; [done|]. intros ? [= <-]. lia.
  - exists None. split; [done|]. by intros ? [=].
Qed.

Lemma genotyped_typed_list (trio : bool) (l : VariationList) :
  genotyped_list trio l → typed_list trio l.
Proof.
  intros Hg chromosome vs Hvs. apply Forall_lookup. intros k v Hk.
  destruct (genotyped_typing trio l chromosome k v Hg) as (ty & Hty & _).
  - unfold variations_of. by rewrite Hvs.
  - by exists ty.
Qed.

Lemma deletion_outcomes_wf (iter : gset nat → list nat)
    (self another_list : VariationList) (chromosomes : list string)
    (count_stats : count_stats_t) (mode : string) (trio : bool)
    (min_length max_length offset : option Z) (difflength : Z) (siglevel : Qc) :
  (∀ s, iter s ≡ₚ elements s) →
  mode = "overlap" ∨ mode = "fixed_distance" →
  wf_list self → wf_list another_list →
  genotyped_list trio self → genotyped_list trio another_list →
  0 ≤ default 0 offset →
  ∃ ss,
    deletion_hit_statistics iter self another_list chromosomes count_stats mode
      trio min_length max_length offset (Some difflength) siglevel None = Ok ss
    ∧ outcome_key <$> ss
      = outcome_keys (deletion_query min_length max_length) self chromosomes
    ∧ Forall wf_stats ss.
Proof.
  intros Hiter Hmode Hself Hother Hgs Hgo Hoff.
  destruct (deletion_hit_statistics_spec iter self another_list chromosomes
              count_stats mode trio min_length max_length offset difflength
              siglevel) as (ss & Hrun & Hkeys & Hspec);
    try done; try (by apply genotyped_typed_list).
  exists ss. split; [done|]. split; [done|].
  apply Forall_forall. intros s Hs.
  destruct (Hspec s Hs) as (c & q & _ & Hc & Hq & _ & Hty & Hhits).
  split.
  - destruct (genotyped_typing trio self (lower c) _ q Hgs Hq) as (ty & Hty' & Hwf).
    rewrite Hty in Hty'. by injection Hty' as ->.
  - apply Forall_forall. intros h Hh. apply (Hhits false) in Hh
      as (j & t & ty & eff & Ht & Htyp & _ & _ & _ & _ & _ & _ & ->).
    destruct (genotyped_typing trio another_list (lower c) _ t Hgo Ht)
      as (ty' & Hty' & Hwf).
    rewrite Htyp in Hty'. by injection Hty' as ->.
Qed.

Lemma insertion_outcomes_wf (iter : gset nat → list nat)
    (self another_list : VariationList) (chromosomes : list string)
    (count_stats : count_stats_t) (mode : string) (trio : bool)
    (min_length max_length offset : option Z) (difflength : Z) (siglevel : Qc) :
  (∀ s, iter s ≡ₚ elements s) →
  mode = "overlap" ∨ mode = "fixed_distance" →
  wf_list another_list → genotyped_list trio another_list →
  0 ≤ default 0 offset →
  ∃ ss,
    insertion_hit_statistics iter self another_list chromosomes count_stats mode
      trio min_length max_length offset (Some difflength) siglevel None = Ok ss
    ∧ outcome_key <$> ss
      = outcome_keys (insertion_query min_length max_length) self chromosomes
    ∧ Forall wf_stats ss.
Proof.
  intros Hiter Hmode Hother Hgo Hoff.
  destruct (insertion_hit_statistics_spec iter self another_list chromosomes
              count_stats mode trio min_length max_length offset difflength
              siglevel) as (ss & Hrun & Hkeys & Hspec);
    try done; try (by apply genotyped_typed_list).
  exists ss. split; [done|]. split; [done|].
  apply Forall_forall. intros s Hs.
  destruct (Hspec s Hs) as (Hty & c & q & _ & Hc & Hq & _ & Hhits).
  split.
  - rewrite Hty. by intros ? [=].
  - apply Forall_forall. intros h Hh. apply (Hhits false) in Hh
      as (j & t & ty & pos & ins & eff & Ht & Htyp & _ & _ & _ & _ & _ & _ & _
          & _ & ->).
    destruct (genotyped_typing trio another_list (lower c) _ t Hgo Ht)
      as (ty' & Hty' & Hwf).
    rewrite Htyp in Hty'. by injection Hty' as ->.
Qed.

Lemma tool_stats_lists_ok (iter : gset nat → list nat)
    (true_variants : VariationList) (chromosomes : list string)
    (dstats istats : count_stats_t) (mode : string) (trio : bool)
    (min_length max_length : Z) (offset : option Z) (difflength : Z)
    (siglevel : Qc) (predictions : VariationList) :
  (∀ s, iter s ≡ₚ elements s) →
  mode = "overlap" ∨ mode = "fixed_distance" →
  wf_list true_variants → wf_list predictions →
  genotyped_list trio true_variants → genotyped_list trio predictions →
  0 ≤ default 0 offset →
  ∃ e,
    tool_stats_lists iter true_variants chromosomes dstats istats mode trio
      min_length max_length offset difflength siglevel predictions = Ok e
    ∧ wf_entry e
    ∧ outcome_key <$> ins_prec_list e
      = outcome_keys (insertion_query (Some min_length) (Some max_length))
          predictions chromosomes
    ∧ outcome_key <$> ins_recall_list e
      = outcome_keys (insertion_query (Some min_length) (Some max_length))
          true_variants chromosomes
    ∧ outcome_key <$> del_prec_list e
      = outcome_keys (deletion_query (Some min_length) (Some max_length))
          predictions chromosomes
    ∧ outcome_key <$> del_recall_list e
      = outcome_keys (deletion_query (Some min_length) (Some max_length))
          true_variants chromosomes.
Proof.
  intros Hiter Hmode Htrue Hpred Hgt Hgp Hoff. unfold tool_stats_lists.
  destruct (deletion_outcomes_wf iter true_variants predictions chromosomes
              dstats mode trio (Some min_length) (Some max_length) offset
              difflength siglevel) as (dr & -> & Kdr & Wdr); try done.
  destruct (deletion_outcomes_wf iter predictions true_variants chromosomes
              dstats mode trio (Some min_length) (Some max_length) offset
              difflength siglevel) as (dp & -> & Kdp & Wdp); try done.
  destruct (insertion_outcomes_wf iter true_variants predictions chromosomes
              istats mode trio (Some min_length) (Some max_length) offset
              difflength siglevel) as (ir & -> & Kir & Wir); try done.
  destruct (insertion_outcomes_wf iter predictions true_variants chromosomes
              istats mode trio (Some min_length) (Some max_length) offset
              difflength siglevel) as (ip & -> & Kip & Wip); try done.
  cbn [mbind res_bind]. eexists. split; [done|]. by split_and!.
Qed.

Lemma stats_lists_loop_ok (f : VariationList → res stats_lists_entry)
    (P : VariationList → stats_lists_entry → Prop)
    (predictions_lists : list VariationList) :
  Forall (λ p, ∃ e, f p = Ok e ∧ P p e) predictions_lists →
  ∃ es, stats_lists_loop f predictions_lists = Ok es
        ∧ Forall2 P predictions_lists es.
Proof.
  induction 1 as [|p l (e & He & HP) Hl (es & Hes & HPs)].
  - by exists [].
  - simpl. rewrite He. cbn [mbind res_bind]. rewrite Hes. cbn [mbind res_bind].
    exists (e :: es). split; [done|]. by constructor.
Qed.

Lemma aggregate_tool_fields (tool_name : string) (e : stats_lists_entry)
    (ts : ToolStatistics) (ib db : list bool) :
  aggregate_tool tool_name e = Ok (ts, ib, db) →
  name ts = Some tool_name
  ∧ insertion_count ts = Some (length (ins_prec_list e))
  ∧ deletion_count ts = Some (length (del_prec_list e)).
Proof.
  destruct e as [[[ip ir] dp] dr]. unfold aggregate_tool.
  destruct (summarize_variation_stats_list ip); [|done].
  destruct (summarize_variation_stats_list ir); [|done].
  destruct (summarize_variation_stats_list dp); [|done].
  destruct (summarize_variation_stats_list dr); [|done].
  simpl. by intros [= <- _ _].
Qed.

Lemma aggregate_tools_fields (zipped : list (string * stats_lists_entry)) :
  ∀ result ibs dbs,
  aggregate_tools zipped = Ok (result, ibs, dbs) →
  Forall2 (λ ne ts,
             name ts = Some ne.1
             ∧ insertion_count ts = Some (length (ins_prec_list ne.2))
             ∧ deletion_count ts = Some (length (del_prec_list ne.2)))
          zipped result.
Proof.
  induction zipped as [|[tool_name e] zipped IH]; intros result ibs dbs; simpl.
  - intros [= <- _ _]. constructor.
  - destruct (aggregate_tool tool_name e) as [[[ts ib] db]|] eqn:Etool; [|done].
    simpl. destruct (aggregate_tools zipped) as [[[r ibs'] dbs']|] eqn:Etools;
      [|done].
    simpl. intros [= <- _ _]. constructor.
    + by eapply aggregate_tool_fields.
    + by eapply IH.
Qed.

Lemma exclusivity_loop_preserves {A} (f : ToolStatistics → A) (range : list nat)
    (n : nat) (ins_bits del_bits : list (list bool)) :
  (∀ ts a b, f (set_exclusivity ts a b) = f ts) →
  ∀ result result',
  exclusivity_loop range n ins_bits del_bits result = Ok result' →
  f <$> result' = f <$> result.
Proof.
  intros Hf. induction range as [|k range IH]; intros result result'; simpl.
  - by intros [= <-].
  - destruct (list_get ins_bits k); [|done]. simpl.
    destruct (list_get del_bits k); [|done]. simpl.
    destruct (recall_others_loop _ _ _ _ _ _ _ _) as [[io do]|]; [|done]. simpl.
    unfold list_get at 1. destruct (result !! k) as [ts|] eqn:Ek; [|done]. simpl.
    intros Hloop. rewrite (IH _ _ Hloop), list_fmap_insert, Hf.
    apply list_insert_id. by rewrite list_lookup_fmap, Ek.
Qed.

Lemma aggregate_returns (stats_lists : list stats_lists_entry)
    (tool_names : list string) (total_insertions total_deletions : nat) :
  length tool_names = length stats_lists →
  Forall wf_entry stats_lists →
  Forall (λ e, length (ins_recall_list e) = total_insertions) stats_lists →
  Forall (λ e, length (del_recall_list e) = total_deletions) stats_lists →
  ∃ result,
    aggregate_toolwise_statistics stats_lists tool_names = Ok result
    ∧ Forall2 (λ ne ts,
                 name ts = Some ne.1
                 ∧ insertion_count ts = Some (length (ins_prec_list ne.2))
                 ∧ deletion_count ts = Some (length (del_prec_list ne.2)))
              (zip tool_names stats_lists) result.
Proof.
  intros Hnames Hwf Hins Hdel. unfold aggregate_toolwise_statistics.
  rewrite bool_decide_eq_true_2 by done. simpl.
  destruct (aggregate_tools_ok (zip tool_names stats_lists))
    as (result & Htools & Hlen).
  { by apply Forall_zip_snd. }
  rewrite Htools. simpl.
  pose proof (aggregate_tools_fields _ _ _ _ Htools) as Hfields.
  rewrite length_zip_with in Hlen.
  destruct (exclusivity_loop_spec (seq 0 (length result))
              ((λ ne : string * stats_lists_entry,
                  is_hit <$> ins_recall_list ne.2) <$> zip tool_names stats_lists)
              ((λ ne : string * stats_lists_entry,
                  is_hit <$> del_recall_list ne.2) <$> zip tool_names stats_lists)
              total_insertions total_deletions result)
    as (result' & Hloop & Hlen' & _).
  { apply Forall_fmap_intro.
    apply (Forall_zip_snd
             (λ e, length (is_hit <$> ins_recall_list e) = total_insertions)).
    eapply List.Forall_impl; [|exact Hins]. intros e He. simpl in *.
    by rewrite length_fmap. }
  { apply Forall_fmap_intro.
    apply (Forall_zip_snd
             (λ e, length (is_hit <$> del_recall_list e) = total_deletions)).
    eapply List.Forall_impl; [|exact Hdel]. intros e He. simpl in *.
    by rewrite length_fmap. }
  { rewrite length_fmap, length_zip_with. lia. }
  { rewrite length_fmap, length_zip_with. lia. }
  { apply Forall_seq. intros; lia. }
  exists result'. split; [exact Hloop|].
  pose proof (exclusivity_loop_preserves
                (λ ts, (name ts, insertion_count ts, deletion_count ts))
                _ _ _ _ (λ _ _ _, eq_refl) _ _ Hloop) as Hpres.
  apply Forall2_same_length_lookup. split.
  { apply Forall2_length in Hfields. lia. }
  intros k ne ts' Hne Hts'.
  destruct (lookup_lt_is_Some_2 result k) as [ts Hts].
  { apply lookup_lt_Some in Hts'. lia. }
  pose proof (Forall2_lookup_lr _ _ _ _ _ _ Hfields Hne Hts) as (Hn & Hi & Hd).
  pose proof (f_equal (λ l, l !! k) Hpres) as Heq. simpl in Heq.
  rewrite !list_lookup_fmap, Hts', Hts in Heq. simpl in Heq.
  injection Heq as -> -> ->. done.
Qed.

(** X9: one length range of [main], in modes [overlap] and
    [fixed_distance]: on well-formed collections (in trio mode, with
    three-character genotypes over 0, 1, 2) the four matcher calls per tool
    and [aggregate_toolwise_statistics] all return; the recall lists of all
    tools have the same lengths, so the assertions of the exclusivity loop
    hold.  The result has one record per tool, in order, named after the
    tool, whose counts are the numbers of predicted insertions and deletions
    in the length range; the pair appended to [true_indel_counts] holds the
    numbers of true insertions and deletions in the range. *)
Theorem length_range_results_ok (iter : gset nat → list nat)
    (true_variants : VariationList) (predictions_lists : list VariationList)
    (chromosomes tool_names : list string)
    (true_deletion_stats true_insertion_stats : count_stats_t) (mode : string)
    (trio : bool) (min_length max_length : Z) (offset : option Z)
    (difflength : Z) (siglevel : Qc)
    (Hiter : ∀ s, iter s ≡ₚ elements s)
    (Hmode : mode = "overlap" ∨ mode = "fixed_distance")
    (Htrue : wf_list true_variants)
    (Hpred : Forall wf_list predictions_lists)
    (Hgt : genotyped_list trio true_variants)
    (Hgp : Forall (genotyped_list trio) predictions_lists)
    (Hoff : 0 ≤ default 0 offset)
    (Hnames : length tool_names = length predictions_lists) :
  let insertions l :=
    length (outcome_keys (insertion_query (Some min_length) (Some max_length))
              l chromosomes) in
  let deletions l :=
    length (outcome_keys (deletion_query (Some min_length) (Some max_length))
              l chromosomes) in
  ∃ result,
    length_range_results iter true_variants predictions_lists chromosomes
      tool_names true_deletion_stats true_insertion_stats mode trio min_length
      max_length offset difflength siglevel
    = Ok (result,
          match predictions_lists with
          | [] => None
          | _ :: _ => Some (insertions true_variants, deletions true_variants)
          end)
    ∧ length result = length predictions_lists
    ∧ ∀ k ts tool_name predictions,
        result !! k = Some ts → tool_names !! k = Some tool_name →
        predictions_lists !! k = Some predictions →
        name ts = Some tool_name
        ∧ insertion_count ts = Some (insertions predictions)
        ∧ deletion_count ts = Some (deletions predictions).
Proof.
  intros insertions deletions. unfold length_range_results.
  destruct (stats_lists_loop_ok
              (tool_stats_lists iter true_variants chromosomes
                 true_deletion_stats true_insertion_stats mode trio min_length
                 max_length offset difflength siglevel)
              (λ p e, wf_entry e
                      ∧ length (ins_prec_list e) = insertions p
                      ∧ length (ins_recall_list e) = insertions true_variants
                      ∧ length (del_prec_list e) = deletions p
                      ∧ length (del_recall_list e) = deletions true_variants)
              predictions_lists) as (es & -> & Hes).
  { apply Forall_lookup. intros k p Hp.
    destruct (tool_stats_lists_ok iter true_variants chromosomes
                true_deletion_stats true_insertion_stats mode trio min_length
                max_length offset difflength siglevel p)
      as (e & He & Hwf & Kip & Kir & Kdp & Kdr); try done.
    { by apply (Forall_lookup_1 _ _ _ _ Hpred Hp). }
    { by apply (Forall_lookup_1 _ _ _ _ Hgp Hp). }
    exists e. split; [done|]. split; [done|]. unfold insertions, deletions.
    rewrite <-Kip, <-Kir, <-Kdp, <-Kdr, !length_fmap. done. }
  cbn [mbind res_bind].
  pose proof (Forall2_length _ _ _ Hes) as Hlen.
  destruct (aggregate_returns es tool_names (insertions true_variants)
              (deletions true_variants)) as (result & -> & Hfields).
  { lia. }
  { apply Forall_forall. intros e He.
    apply list_elem_of_lookup in He as [k Hk].
    destruct (Forall2_lookup_r _ _ _ _ _ Hes Hk) as (p & _ & Hwf & _). done. }
  { apply Forall_forall. intros e He.
    apply list_elem_of_lookup in He as [k Hk].
    destruct (Forall2_lookup_r _ _ _ _ _ Hes Hk) as (p & _ & _ & _ & H & _). done. }
  { apply Forall_forall. intros e He.
    apply list_elem_of_lookup in He as [k Hk].
    destruct (Forall2_lookup_r _ _ _ _ _ Hes Hk)
      as (p & _ & _ & _ & _ & _ & H). done. }
  cbn [mbind res_bind]. exists result. split_and!.
  - f_equal. f_equal. destruct Hes as [|p e ps es' (_ & _ & Hir & _ & Hdr) _];
      [done|]. simpl. by rewrite Hir, Hdr.
  - apply Forall2_length in Hfields. rewrite length_zip_with in Hfields. lia.
  - intros k ts tool_name predictions Hts Hname Hp.
    destruct (Forall2_lookup_l _ _ _ _ _ Hes Hp)
      as (e & He & _ & Hip & _ & Hdp & _).
    assert (Hzip : zip tool_names es !! k = Some (tool_name, e)).
    { rewrite lookup_zip_with, Hname, He. done. }
    pose proof (Forall2_lookup_lr _ _ _ _ _ _ Hfields Hzip Hts) as (Hn & Hi & Hd).
    simpl in *. by rewrite Hn, Hi, Hd, Hip, Hdp.
Qed.

Lemma genotyped_list_false (l : VariationList) : genotyped_list false l.
Proof. intros [=]. Qed.

Lemma length_range_results_ok_witness :
  ∃ result,
    length_range_results elements sample_truth [sample_prediction] ["chr1"]
      ["clever"] None None "fixed_distance" false 49 248 (Some 50) 20
      (Qc_of_Z 0)
    = Ok (result, Some (0%nat, 1%nat))
    ∧ length result = 1%nat.
Proof.
  destruct (length_range_results_ok elements sample_truth [sample_prediction]
              ["chr1"] ["clever"] None None "fixed_distance" false 49 248
              (Some 50) 20 (Qc_of_Z 0))
    as (result & Hrun & Hlen & _).
  - done.
  - by right.
  - exact sample_truth_wf_list.
  - apply Forall_cons_2; [exact sample_prediction_wf_list|apply Forall_nil_2].
  - apply genotyped_list_false.
  - apply Forall_cons_2; [apply genotyped_list_false|apply Forall_nil_2].
  - simpl. lia.
  - reflexivity.
  - exists result. split; [exact Hrun|exact Hlen].
Defined.

(** ** Unknown modes *)

Lemma candidates_loop_exit (another : list variation) (chromosome : string)
    (count_stats : count_stats_t) (mode : string) (trio : bool)
    (offset difflength : option Z) (siglevel : Qc) (c1 c2 : Z)
    (js : list nat) (stats : VariationStatistics) :
  mode ≠ "overlap" → mode ≠ "fixed_distance" → mode ≠ "significant" →
  (∀ j, j ∈ js → ∃ v1 ty1 eff,
     another !! j = Some v1 ∧ typing_of trio (tags v1) = Ok ty1
     ∧ deletion_effective_length v1 = Some eff) →
  candidates_loop
    (deletion_candidate another chromosome count_stats mode trio offset
       difflength siglevel c1 c2) js stats
  = match js with [] => Ok stats | _ :: _ => Raise SystemExit end.
Proof.
  intros Hm1 Hm2 Hm3 Hjs. destruct js as [|j js]; [done|].
  destruct (Hjs j) as (v1 & ty1 & eff & Hj & Hty & Heff); [by left|].
  simpl. unfold deletion_candidate, list_get.
  rewrite Hj. cbn [mbind res_bind]. rewrite Hty. cbn [mbind res_bind].
  unfold deletion_effective_length in Heff.
  assert (Heff' :
    match var_type v1 with
    | DEL => Ok (coord2 v1 - coord1 v1)
    | INS => Raise AssertionError
    | MIX => match coord3 v1 with
             | Some ins_length1 => Ok (coord2 v1 - coord1 v1 - ins_length1)
             | None => Raise TypeError
             end
    end = Ok eff).
  { destruct (var_type v1); [congruence|done|].
    destruct (coord3 v1); simpl in Heff; congruence. }
  rewrite Heff'. cbn [mbind res_bind]. unfold mode_add_hit.
  by rewrite !bool_decide_eq_false_2.
Qed.

Lemma outcomes_loop_exit (f : nat → variation → res (list VariationStatistics))
    (P : VariationStatistics → Prop) (l : list variation) :
  ∀ n,
  (∀ k v, l !! k = Some v →
     f (n + k)%nat v = Raise SystemExit
     ∨ ∃ out, f (n + k)%nat v = Ok out ∧ Forall P out) →
  (outcomes_loop f n l = Raise SystemExit
   ∧ ∃ k v, l !! k = Some v ∧ f (n + k)%nat v = Raise SystemExit)
  ∨ (∃ ss, outcomes_loop f n l = Ok ss ∧ Forall P ss
       ∧ ∀ k v, l !! k = Some v → f (n + k)%nat v ≠ Raise SystemExit).
Proof.
  induction l as [|v l IH]; intros n Hf.
  - right. exists []. split_and!; done || constructor.
  - specialize (IH (Datatypes.S n)).
    destruct IH as [[Hrun (k & v' & Hk & Hraise)]|(ss & Hrun & HP & Hok)].
    { intros k v' Hk. specialize (Hf (Datatypes.S k) v' Hk).
      by replace (n + Datatypes.S k)%nat with (Datatypes.S n + k)%nat in Hf by lia. }
    + pose proof (Hf 0%nat v eq_refl) as Hv. rewrite Nat.add_0_r in Hv.
      left. destruct Hv as [Hv|(out & Hv & _)].
      * split; [simpl; by rewrite Hv|]. exists 0%nat, v.
        by rewrite Nat.add_0_r.
      * split; [simpl; by rewrite Hv; cbn [mbind res_bind]; rewrite Hrun|].
        exists (Datatypes.S k), v'. split; [done|].
        by replace (n + Datatypes.S k)%nat with (Datatypes.S n + k)%nat by lia.
    + pose proof (Hf 0%nat v eq_refl) as Hv. rewrite Nat.add_0_r in Hv.
      destruct Hv as [Hv|(out & Hv & Hout)].
      * left. split; [simpl; by rewrite Hv|]. exists 0%nat, v.
        by rewrite Nat.add_0_r.
      * right. exists (out ++ ss). split_and!.
        -- simpl. rewrite Hv. cbn [mbind res_bind]. by rewrite Hrun.
        -- by apply Forall_app.
        -- intros [|k] v' Hk.
           ++ injection Hk as <-. rewrite Nat.add_0_r, Hv. done.
           ++ replace (n + Datatypes.S k)%nat with (Datatypes.S n + k)%nat by lia.
              by apply Hok.
Qed.

Lemma deletion_chromosome_exit (iter : gset nat → list nat)
    (self another_list : VariationList) (c : string)
    (count_stats : count_stats_t) (mode : string) (trio : bool)
    (min_length max_length offset difflength : option Z) (siglevel : Qc) :
  (∀ s, iter s ≡ₚ elements s) →
  mode ≠ "overlap" → mode ≠ "fixed_distance" → mode ≠ "significant" →
  wf_list self → wf_list another_list →
  typed_list trio self → typed_list trio another_list →
  0 ≤ default 0 offset →
  ∃ overlaps,
    find_all_deletion_overlaps self another_list (lower c) trio min_length
      max_length offset difflength None = Ok overlaps
    ∧ ((outcomes_loop
          (deletion_outcome iter (variations_of another_list (lower c)) overlaps
             (lower c) count_stats mode trio min_length max_length offset
             difflength siglevel None)
          0 (variations_of self (lower c)) = Raise SystemExit
        ∧ deletion_candidate_pair self another_list min_length max_length offset
            difflength c)
       ∨ (∃ ss,
            outcomes_loop
              (deletion_outcome iter (variations_of another_list (lower c))
                 overlaps (lower c) count_stats mode trio min_length max_length
                 offset difflength siglevel None)
              0 (variations_of self (lower c)) = Ok ss
            ∧ Forall no_hits ss
            ∧ ¬ deletion_candidate_pair self another_list min_length max_length
                  offset difflength c)).
Proof.
  intros Hiter Hm1 Hm2 Hm3 Hself Hother Hts Hto Hoff.
  destruct (find_all_deletion_overlaps_records self another_list (lower c) trio
              min_length max_length offset difflength)
    as (overlaps & Hrun & Hov); rewrite ?lower_idem;
    try (by apply wf_list_variations_of); try done.
  rewrite lower_idem in Hov.
  exists overlaps. split; [done|].
  set (f := deletion_outcome iter (variations_of another_list (lower c)) overlaps
              (lower c) count_stats mode trio min_length max_length offset
              difflength siglevel None).
  assert (Hf : ∀ k v, variations_of self (lower c) !! k = Some v →
            f k v = if deletion_query min_length max_length v
                    then match iter (overlaps !!! k) with
                         | [] => match typing_of trio (tags v) with
                                 | Ok ty0 =>
                                     Ok [VariationStatistics_init (lower c) k ty0]
                                 | Raise e => Raise e
                                 end
                         | _ :: _ => Raise SystemExit
                         end
                    else Ok []).
  { intros k v Hk. unfold f, deletion_outcome, deletion_query, passes.
    destruct (var_type v) eqn:Ety; simpl; try done.
    destruct (too_short _ _); simpl; [done|].
    destruct (too_long _ _); simpl; [done|].
    destruct (proj1 (Forall_lookup _ _)
                (typed_list_variations_of trio self (lower c) Hts) k v Hk)
      as [ty0 ->].
    cbn [mbind res_bind]. rewrite candidates_loop_exit; try done.
    - by destruct (iter (overlaps !!! k)).
    - intros j Hj. apply (iter_elem iter Hiter) in Hj.
      apply Hov in Hj as (q & t & eff & _ & Ht & _ & Heff & _).
      destruct (proj1 (Forall_lookup _ _)
                  (typed_list_variations_of trio another_list (lower c) Hto)
                  j t Ht) as [ty1 Hty1].
      by exists t, ty1, eff. }
  destruct (outcomes_loop_exit f no_hits (variations_of self (lower c)) 0%nat)
    as [[Hloop (k & v & Hk & Hraise)]|(ss & Hloop & Hno & Hok)].
  - intros k v Hk. simpl. rewrite (Hf k v Hk).
    destruct (deletion_query min_length max_length v);
      [|right; exists []; split; [done|constructor]].
    destruct (iter (overlaps !!! k)); [|by left].
    destruct (proj1 (Forall_lookup _ _)
                (typed_list_variations_of trio self (lower c) Hts) k v Hk)
      as [ty0 ->].
    right. eexists. split; [done|]. by repeat constructor.
  - left. split; [done|]. simpl in Hraise. rewrite (Hf k v Hk) in Hraise.
    destruct (deletion_query min_length max_length v) eqn:Eq; [|done].
    destruct (iter (overlaps !!! k)) as [|j js] eqn:Ej.
    { destruct (proj1 (Forall_lookup _ _)
                (typed_list_variations_of trio self (lower c) Hts) k v Hk)
        as [ty0 Hty0]. by rewrite Hty0 in Hraise. }
    assert (Hj : j ∈ overlaps !!! k).
    { apply (iter_elem iter Hiter). rewrite Ej. by left. }
    apply Hov in Hj as (q & t & eff & Hq & Ht & Hquery & Heff & Hp & Hlt1 & Hlt0).
    exists k, j, q, t, eff. by split_and!.
  - right. exists ss. split; [done|]. split; [done|].
    intros (i & j & q & t & eff & Hq & Ht & Hquery & Heff & Hp & Hlt1 & Hlt0).
    apply (Hok i q Hq). simpl. rewrite (Hf i q Hq), Hquery.
    assert (Hj : j ∈ iter (overlaps !!! i)).
    { apply (iter_elem iter Hiter), Hov. exists q, t, eff. by split_and!. }
    destruct (iter (overlaps !!! i)); [by apply elem_of_nil in Hj|done].
Qed.

(** X10: a mode other than [overlap], [fixed_distance] and [significant] is
    only rejected inside the candidate loop: [deletion_hit_statistics]
    exits ([sys.exit(1)]) exactly when some queried deletion of some
    chromosome has a candidate, and otherwise returns outcomes that all are
    without hits. *)
Theorem unknown_mode_exits (iter : gset nat → list nat)
    (self another_list : VariationList) (chromosomes : list string)
    (count_stats : count_stats_t) (mode : string) (trio : bool)
    (min_length max_length offset difflength : option Z) (siglevel : Qc)
    (Hiter : ∀ s, iter s ≡ₚ elements s)
    (Hm1 : mode ≠ "overlap") (Hm2 : mode ≠ "fixed_distance")
    (Hm3 : mode ≠ "significant")
    (Hself : wf_list self) (Hother : wf_list another_list)
    (Hts : typed_list trio self) (Hto : typed_list trio another_list)
    (Hoff : 0 ≤ default 0 offset) :
  let run :=
    deletion_hit_statistics iter self another_list chromosomes count_stats mode
      trio min_length max_length offset difflength siglevel None in
  (run = Raise SystemExit
   ∧ Exists (deletion_candidate_pair self another_list min_length max_length
               offset difflength) chromosomes)
  ∨ (∃ ss, run = Ok ss ∧ Forall no_hits ss
       ∧ ¬ Exists (deletion_candidate_pair self another_list min_length
                     max_length offset difflength) chromosomes).
Proof.
  intros run. subst run. induction chromosomes as [|c chromosomes IH].
  - right. exists []. split_and!; try done. by intros ?%Exists_nil.
  - cbn [deletion_hit_statistics].
    destruct (deletion_chromosome_exit iter self another_list c count_stats mode
                trio min_length max_length offset difflength siglevel)
      as (overlaps & Hov & [[Hl Hpair]|(ss1 & Hl & Hno1 & Hnopair)]); try done;
      rewrite Hov; cbn [mbind res_bind]; rewrite Hl; cbn [mbind res_bind].
    + left. split; [done|]. by left.
    + destruct IH as [[Hrun Hex]|(ss & Hrun & Hno & Hnex)];
        rewrite Hrun; cbn [mbind res_bind].
      * left. split; [done|]. by right.
      * right. exists (ss1 ++ ss). split; [done|].
        split; [by apply Forall_app|].
        intros [?|?]%Exists_cons; tauto.
Qed.

Lemma unknown_mode_exits_witness :
  deletion_hit_statistics elements sample_prediction sample_truth ["chr1"] None
    "overlapping" false (Some 49) (Some 248) (Some 50) (Some 20) (Qc_of_Z 0) None
  = Raise SystemExit.
Proof.
  destruct (unknown_mode_exits elements sample_prediction sample_truth ["chr1"]
              None "overlapping" false (Some 49) (Some 248) (Some 50) (Some 20)
              (Qc_of_Z 0))
    as [[Hrun _]|(ss & _ & _ & Hnone)].
  - done.
  - discriminate.
  - discriminate.
  - discriminate.
  - exact sample_prediction_wf_list.
  - exact sample_truth_wf_list.
  - apply typed_list_false.
  - apply typed_list_false.
  - simpl. lia.
  - exact Hrun.
  - exfalso. apply Hnone. left.
    unfold deletion_candidate_pair.
    rewrite sample_prediction_chr1, sample_truth_chr1.
    exists 0%nat, 0%nat. eexists _, _, _.
    split; [reflexivity|]. split; [reflexivity|]. split; [reflexivity|].
    split; [reflexivity|]. split; [reflexivity|]. simpl. lia.
Defined.

(** ** Chromosome keys *)

Lemma variations_of_lower (l l' : VariationList) (c : string) :
  (∀ k, lower k = k → variations l !! k = variations l' !! k) →
  variations_of l (lower c) = variations_of l' (lower c).
Proof.
  intros H. unfold variations_of. by rewrite (H (lower c) (lower_idem c)).
Qed.

(** X11: the matchers only ever read lower-case chromosome keys: two
    collections that agree on all lower-case keys give the same candidate
    sets and the same outcome lists, as queried list and as other list.
    Records stored under a key with an upper-case letter are never seen. *)
Theorem matchers_read_lowercase_keys (iter : gset nat → list nat)
    (self self' another another' : VariationList) (chromosomes : list string)
    (count_stats : count_stats_t) (mode : string) (trio : bool)
    (min_length max_length offset difflength : option Z) (siglevel : Qc)
    (tag : option string)
    (Hself : ∀ k, lower k = k → variations self !! k = variations self' !! k)
    (Hother : ∀ k, lower k = k →
                variations another !! k = variations another' !! k) :
  (∀ c,
     find_all_deletion_overlaps self another c trio min_length max_length
       offset difflength tag
     = find_all_deletion_overlaps self' another' c trio min_length max_length
         offset difflength tag
     ∧ insertion_distances self another c trio min_length max_length
         offset difflength tag
       = insertion_distances self' another' c trio min_length max_length
           offset difflength tag)
  ∧ deletion_hit_statistics iter self another chromosomes count_stats mode trio
      min_length max_length offset difflength siglevel tag
    = deletion_hit_statistics iter self' another' chromosomes count_stats mode
        trio min_length max_length offset difflength siglevel tag
  ∧ insertion_hit_statistics iter self another chromosomes count_stats mode trio
      min_length max_length offset difflength siglevel tag
    = insertion_hit_statistics iter self' another' chromosomes count_stats mode
        trio min_length max_length offset difflength siglevel tag.
Proof.
  assert (Hfind : ∀ c,
     find_all_deletion_overlaps self another c trio min_length max_length
       offset difflength tag
     = find_all_deletion_overlaps self' another' c trio min_length max_length
         offset difflength tag
     ∧ insertion_distances self another c trio min_length max_length
         offset difflength tag
       = insertion_distances self' another' c trio min_length max_length
           offset difflength tag).
  { intros c. unfold find_all_deletion_overlaps, insertion_distances.
    by rewrite (variations_of_lower self self' c Hself),
         (variations_of_lower another another' c Hother). }
  split; [exact Hfind|]. split.
  - induction chromosomes as [|c chromosomes IH]; [done|].
    cbn [deletion_hit_statistics].
    by rewrite (proj1 (Hfind (lower c))), IH,
         (variations_of_lower self self' c Hself),
         (variations_of_lower another another' c Hother).
  - induction chromosomes as [|c chromosomes IH]; [done|].
    cbn [insertion_hit_statistics].
    by rewrite (proj2 (Hfind (lower c))), IH,
         (variations_of_lower self self' c Hself),
         (variations_of_lower another another' c Hother).
Qed.

Lemma matchers_read_lowercase_keys_witness :
  deletion_hit_statistics elements sample_upper_key sample_truth ["chrX"] None
    "overlap" false (Some 49) (Some 248) None (Some 20) (Qc_of_Z 0) None
  = Ok [].
Proof.
  destruct (matchers_read_lowercase_keys elements sample_upper_key
              sample_no_variants sample_truth sample_truth ["chrX"] None
              "overlap" false (Some 49) (Some 248) None (Some 20) (Qc_of_Z 0)
              None) as (_ & Hdel & _).
  - intros k Hk. simpl. rewrite lookup_empty. apply lookup_singleton_None.
    intros <-. discriminate Hk.
  - done.
  - rewrite Hdel. reflexivity.
Defined.

(** ** Genotype tables and averages of the summaries *)

Lemma list_incr_cell (l l' : list nat) (i : nat) :
  list_incr l i = Ok l' →
  ∀ a, list_cell l' a = (list_cell l a + if decide (a = i) then 1 else 0)%nat.
Proof.
  unfold list_incr. destruct (l !! i) as [x|] eqn:E; [|done].
  intros [= <-] a. unfold list_cell. case_decide as Ha.
  - subst a. rewrite list_lookup_insert_eq by (by eapply lookup_lt_Some).
    rewrite E. simpl. lia.
  - rewrite list_lookup_insert_ne by done. lia.
Qed.

Lemma matrix_incr_cell (m m' : list (list nat)) (i j : nat) :
  matrix_incr m i j = Ok m' →
  ∀ a b, matrix_cell m' a b
         = (matrix_cell m a b + if decide ((a, b) = (i, j)) then 1 else 0)%nat.
Proof.
  unfold matrix_incr. destruct (m !! i) as [row|] eqn:E; [|done].
  destruct (list_incr row j) as [row'|] eqn:Erow; [|done]. simpl.
  intros [= <-] a b. unfold matrix_cell.
  destruct (decide (a = i)) as [-> |Ha].
  - rewrite list_lookup_insert_eq by (by eapply lookup_lt_Some).
    rewrite E. simpl. pose proof (list_incr_cell _ _ _ Erow b) as Hb.
    unfold list_cell in Hb. rewrite Hb.
    destruct (decide (b = j)) as [-> |Hb'].
    + by rewrite decide_True.
    + rewrite decide_False; [done|]. by intros [= ?].
  - rewrite list_lookup_insert_ne by done.
    rewrite decide_False; [lia|]. by intros [= ?].
Qed.

Lemma summarize_step_tables (i : nat) (stats : VariationStatistics)
    (v v1 : summary_vars) :
  summarize_step i stats v = Ok v1 →
  (∀ a b, matrix_cell (sv_typematrix v1) a b
          = (matrix_cell (sv_typematrix v) a b
             + if decide (type_cell stats = Some (a, b)) then 1 else 0)%nat)
  ∧ (∀ a, list_cell (sv_variantsums v1) a
          = (list_cell (sv_variantsums v) a
             + if decide (vs_typing stats = Some a) then 1 else 0)%nat)
  ∧ (∀ b, list_cell (sv_callsums v1) b
          = (list_cell (sv_callsums v) b
             + if decide (call_type stats = Some b) then 1 else 0)%nat).
Proof.
  unfold summarize_step, type_cell, call_type, best_typing.
  destruct (vs_typing stats) as [t0|] eqn:Ety.
  - destruct (list_incr (sv_variantsums v) t0) as [vsums|] eqn:Evs; [|done].
    cbn [mbind res_bind].
    pose proof (list_incr_cell _ _ _ Evs) as Hvs.
    assert (Hvar : ∀ a, list_cell vsums a
              = (list_cell (sv_variantsums v) a
                 + if decide (Some t0 = Some a) then 1 else 0)%nat).
    { intros a. rewrite Hvs. destruct (decide (a = t0)) as [-> |Ha].
      - by rewrite decide_True.
      - rewrite decide_False; [done|]. by intros [= ?]. }
    destruct (is_hit stats).
    + destruct (get_best_hit stats) as [[[[[idx ld] off] ty1]|]|]; try done.
      cbn [mbind res_bind].
      destruct (bitarray_set (sv_hit_bitarray v) i) as [bits|]; [|done].
      cbn [mbind res_bind]. simpl. destruct ty1 as [t1|].
      * destruct (matrix_incr (sv_typematrix v) t0 t1) as [m'|] eqn:Em; [|done].
        cbn [mbind res_bind].
        destruct (list_incr (sv_callsums v) t1) as [cs|] eqn:Ecs; [|done].
        cbn [mbind res_bind]. intros [= <-]. simpl. split_and!; [|done|].
        -- intros a b. rewrite (matrix_incr_cell _ _ _ _ Em).
           destruct (decide ((a, b) = (t0, t1))) as [[= -> ->]|Hab].
           ++ by rewrite decide_True.
           ++ rewrite decide_False; [done|]. by intros [= ? ?]; subst.
        -- intros b. rewrite (list_incr_cell _ _ _ Ecs).
           destruct (decide (b = t1)) as [-> |Hb].
           ++ by rewrite decide_True.
           ++ rewrite decide_False; [done|]. by intros [= ?].
      * cbn [mbind res_bind]. intros [= <-]. simpl. split_and!; [|done|].
        -- intros a b. try (rewrite decide_False by done); lia.
        -- intros b. try (rewrite decide_False by done); lia.
    + destruct (is_mix_hit stats).
      * intros [= <-]. simpl. split_and!; [|done|].
        -- intros a b. try (rewrite decide_False by done); lia.
        -- intros b. try (rewrite decide_False by done); lia.
      * destruct (matrix_incr (sv_typematrix v) t0 0) as [m'|] eqn:Em; [|done].
        cbn [mbind res_bind]. intros [= <-]. simpl. split_and!; [|done|].
        -- intros a b. rewrite (matrix_incr_cell _ _ _ _ Em).
           destruct (decide ((a, b) = (t0, 0%nat))) as [[= -> ->]|Hab].
           ++ by rewrite decide_True.
           ++ rewrite decide_False; [done|]. by intros [= ? ?]; subst.
        -- intros b. try (rewrite decide_False by done); lia.
  - cbn [mbind res_bind].
    assert (Hnone : ∀ v', sv_typematrix v' = sv_typematrix v →
                      sv_variantsums v' = sv_variantsums v →
                      sv_callsums v' = sv_callsums v →
      (∀ a b, matrix_cell (sv_typematrix v') a b
              = (matrix_cell (sv_typematrix v) a b
                 + if decide (None = Some (a, b)) then 1 else 0)%nat)
      ∧ (∀ a, list_cell (sv_variantsums v') a
              = (list_cell (sv_variantsums v) a
                 + if decide (None = Some a) then 1 else 0)%nat)
      ∧ (∀ b, list_cell (sv_callsums v') b
              = (list_cell (sv_callsums v) b
                 + if decide (None = Some b) then 1 else 0)%nat)).
    { intros v' -> -> ->. split_and!; intros; try (rewrite decide_False by done); lia. }
    destruct (is_hit stats).
    + destruct (get_best_hit stats) as [[[[[idx ld] off] ty1]|]|]; try done.
      cbn [mbind res_bind].
      destruct (bitarray_set (sv_hit_bitarray v) i) as [bits|]; [|done].
      cbn [mbind res_bind]. intros [= <-]. by apply Hnone.
    + destruct (is_mix_hit stats); intros [= <-]; by apply Hnone.
Qed.

Lemma summarize_loop_tables (l : list VariationStatistics) :
  ∀ (i : nat) (v v' : summary_vars),
  summarize_loop i l v = Ok v' →
  (∀ a b, matrix_cell (sv_typematrix v') a b
          = (matrix_cell (sv_typematrix v) a b
             + count_where (λ s, type_cell s = Some (a, b)) l)%nat)
  ∧ (∀ a, list_cell (sv_variantsums v') a
          = (list_cell (sv_variantsums v) a
             + count_where (λ s, vs_typing s = Some a) l)%nat)
  ∧ (∀ b, list_cell (sv_callsums v') b
          = (list_cell (sv_callsums v) b
             + count_where (λ s, call_type s = Some b) l)%nat).
Proof.
  induction l as [|s l IH]; intros i v v'; simpl.
  - intros [= <-]. unfold count_where. simpl. split_and!; intros; lia.
  - destruct (summarize_step i s v) as [v1|] eqn:Estep; [|done].
    cbn [mbind res_bind]. intros Hloop.
    destruct (summarize_step_tables _ _ _ _ Estep) as (H1 & H2 & H3).
    destruct (IH _ _ _ Hloop) as (H1' & H2' & H3').
    unfold count_where in *. split_and!.
    + intros a b. rewrite H1', H1, filter_cons. case_decide; simpl; lia.
    + intros a. rewrite H2', H2, filter_cons. case_decide; simpl; lia.
    + intros b. rewrite H3', H3, filter_cons. case_decide; simpl; lia.
Qed.

Lemma matrix_cell_init (a b : nat) :
  matrix_cell (replicate 27 (replicate 27 0%nat)) a b = 0%nat.
Proof.
  unfold matrix_cell.
  destruct (replicate 27 (replicate 27 0%nat) !! a) as [row|] eqn:Ea; [|done].
  apply lookup_replicate in Ea as [-> _].
  change (default 0%nat (replicate 27 0%nat !! b) = 0%nat).
  destruct (replicate 27 0%nat !! b) as [x|] eqn:Eb; [|done].
  by apply lookup_replicate in Eb as [-> _].
Qed.

Lemma list_cell_init (a : nat) : list_cell (replicate 27 0%nat) a = 0%nat.
Proof.
  unfold list_cell. destruct (replicate 27 0%nat !! a) as [x|] eqn:Ea; [|done].
  by apply lookup_replicate in Ea as [-> _].
Qed.

(** X12: the genotype tables of [summarize_variation_stats_list], as the
    notes in the source describe them: [typematrix[a][b]] is the number of
    outcomes of genotype [a] whose best hit has genotype [b], to which, for
    [b = 0], the outcomes of genotype [a] with neither exact nor MIX hit are
    added; [variantsums[a]] is the number of outcomes of genotype [a];
    [callsums[b]] is the number of typed outcomes whose best hit has
    genotype [b].  A typed outcome with only MIX hits is counted in
    [variantsums] but in no cell of the matrix. *)
Theorem summarize_genotype_tables (stats_list : list VariationStatistics)
    (Hwf : Forall wf_stats stats_list) :
  ∃ r,
    summarize_variation_stats_list stats_list = Ok r
    ∧ (∀ a b, matrix_cell (typematrix r) a b
              = count_where (λ s, type_cell s = Some (a, b)) stats_list)
    ∧ (∀ a, list_cell (variantsums r) a
            = count_where (λ s, vs_typing s = Some a) stats_list)
    ∧ (∀ b, list_cell (callsums r) b
            = count_where (λ s, call_type s = Some b) stats_list)
    ∧ (∀ s a, s ∈ stats_list → vs_typing s = Some a → mix_only s = true →
         ∀ b, type_cell s ≠ Some (a, b)).
Proof.
  destruct (summarize_loop_top stats_list Hwf) as (v & Hloop & _).
  unfold summarize_variation_stats_list. rewrite Hloop. simpl.
  destruct (summarize_loop_tables _ _ _ _ Hloop) as (H1 & H2 & H3).
  eexists. split; [done|]. simpl. split_and!.
  - intros a b. by rewrite H1, matrix_cell_init.
  - intros a. by rewrite H2, list_cell_init.
  - intros b. by rewrite H3, list_cell_init.
  - intros s a _ Hty Hmix b. unfold type_cell. rewrite Hty.
    unfold mix_only in Hmix. apply andb_true_iff in Hmix as [Hh Hm].
    apply negb_true_iff in Hh. by rewrite Hh, Hm.
Qed.

Lemma summarize_genotype_tables_witness :
  ∃ r,
    summarize_variation_stats_list
      [ {| vs_chromosome := "chr1"; vs_index := 0; vs_typing := Some 4%nat;
           vs_hits := [(3%nat, 2, Qc_of_Z 1, Some 13%nat)];
           vs_mix_hits := [] |};
        {| vs_chromosome := "chr1"; vs_index := 1; vs_typing := Some 4%nat;
           vs_hits := []; vs_mix_hits := [] |} ] = Ok r
    ∧ matrix_cell (typematrix r) 4 13 = 1%nat
    ∧ matrix_cell (typematrix r) 4 0 = 1%nat
    ∧ list_cell (variantsums r) 4 = 2%nat
    ∧ list_cell (callsums r) 13 = 1%nat.
Proof.
  edestruct (summarize_genotype_tables
      [ {| vs_chromosome := "chr1"; vs_index := 0; vs_typing := Some 4%nat;
           vs_hits := [(3%nat, 2, Qc_of_Z 1, Some 13%nat)];
           vs_mix_hits := [] |};
        {| vs_chromosome := "chr1"; vs_index := 1; vs_typing := Some 4%nat;
           vs_hits := []; vs_mix_hits := [] |} ])
    as (r & Hr & Hm & Hv & Hc & _).
  { repeat first [apply Forall_nil_2 | apply Forall_cons_2 | split];
      intros k [= <-]; lia. }
  exists r. split; [exact Hr|]. rewrite !Hm, Hv, Hc. by vm_compute.
Defined.





Lemma summarize_step_untyped (i : nat) (stats : VariationStatistics)
    (v v1 : summary_vars) :
  vs_typing stats = None → summarize_step i stats v = Ok v1 →
  sv_typematrix v1 = sv_typematrix v
  ∧ sv_variantsums v1 = sv_variantsums v
  ∧ sv_callsums v1 = sv_callsums v.
Proof.
  unfold summarize_step. intros ->. cbn [mbind res_bind].
  destruct (is_hit stats).
  - destruct (get_best_hit stats) as [[[[[idx ld] off] ty1]|]|]; try done.
    cbn [mbind res_bind].
    destruct (bitarray_set (sv_hit_bitarray v) i) as [bits|]; [|done].
    cbn [mbind res_bind]. by intros [= <-].
  - destruct (is_mix_hit stats); by intros [= <-].
Qed.

Lemma summarize_loop_untyped (l : list VariationStatistics) :
  ∀ (i : nat) (v v' : summary_vars),
  Forall (λ s, vs_typing s = None) l →
  summarize_loop i l v = Ok v' →
  sv_typematrix v' = sv_typematrix v
  ∧ sv_variantsums v' = sv_variantsums v
  ∧ sv_callsums v' = sv_callsums v.
Proof.
  induction l as [|s l IH]; intros i v v' Hl; simpl.
  - by intros [= <-].
  - apply Forall_cons in Hl as [Hs Hl].
    destruct (summarize_step i s v) as [v1|] eqn:Estep; [|done].
    cbn [mbind res_bind]. intros Hloop.
    destruct (summarize_step_untyped _ _ _ _ Hs Estep) as (<- & <- & <-).
    by apply (IH (S i)).
Qed.

(** X14: insertions have no genotype statistics: the outcomes of
    [insertion_hit_statistics] carry no genotype of their own, so their
    summary, in trio mode too, has the all-zero type matrix and all-zero
    [variantsums] and [callsums], whatever was hit. *)
Theorem insertion_tables_zero (iter : gset nat → list nat)
    (self another_list : VariationList) (chromosomes : list string)
    (count_stats : count_stats_t) (mode : string) (trio : bool)
    (min_length max_length offset : option Z) (difflength : Z) (siglevel : Qc)
    (Hiter : ∀ s, iter s ≡ₚ elements s)
    (Hmode : mode = "overlap" ∨ mode = "fixed_distance")
    (Hother : wf_list another_list)
    (Hgo : genotyped_list trio another_list)
    (Hoff : 0 ≤ default 0 offset) :
  ∃ ss r,
    insertion_hit_statistics iter self another_list chromosomes count_stats mode
      trio min_length max_length offset (Some difflength) siglevel None = Ok ss
    ∧ summarize_variation_stats_list ss = Ok r
    ∧ typematrix r = replicate 27 (replicate 27 0%nat)
    ∧ variantsums r = replicate 27 0%nat
    ∧ callsums r = replicate 27 0%nat.
Proof.
  destruct (insertion_outcomes_wf iter self another_list chromosomes count_stats
              mode trio min_length max_length offset difflength siglevel)
    as (ss & Hrun & _ & Hwf); try done.
  destruct (insertion_hit_statistics_spec iter self another_list chromosomes
              count_stats mode trio min_length max_length offset difflength
              siglevel) as (ss' & Hrun' & _ & Hspec);
    try done; try (by apply genotyped_typed_list).
  rewrite Hrun in Hrun'. injection Hrun' as <-.
  destruct (summarize_loop_top ss Hwf) as (v & Hloop & _).
  destruct (summarize_loop_untyped ss 0 (summary_vars_init (length ss)) v)
    as (Hm & Hv & Hc); [|done|].
  { apply Forall_forall. intros s Hs. by destruct (Hspec s Hs). }
  exists ss. unfold summarize_variation_stats_list. rewrite Hloop. simpl.
  eexists. split; [done|]. split; [done|]. simpl. by rewrite Hm, Hv, Hc.
Qed.

Lemma insertion_tables_zero_witness :
  ∃ ss r,
    insertion_hit_statistics elements sample_insertion_call
      sample_insertion_truth ["chr1"] None "overlap" false (Some 19) (Some 48)
      None (Some 20) (Qc_of_Z 0) None = Ok ss
    ∧ summarize_variation_stats_list ss = Ok r
    ∧ typematrix r = replicate 27 (replicate 27 0%nat).
Proof.
  destruct (insertion_tables_zero elements sample_insertion_call
              sample_insertion_truth ["chr1"] None "overlap" false (Some 19)
              (Some 48) None 20 (Qc_of_Z 0))
    as (ss & r & Hrun & Hr & Hm & _).
  - done.
  - by left.
  - exact sample_insertion_truth_wf_list.
  - apply genotyped_list_false.
  - simpl. lia.
  - exists ss, r. split; [exact Hrun|]. split; [exact Hr|exact Hm].
Defined.

(** ** Adding a hit and selecting the best *)




(** ** More on the F-measure *)





(** ** Genotype strings of any length *)

Lemma str_length_append (s1 s2 : string) :
  String.length (s1 ++ s2) = (String.length s1 + String.length s2)%nat.
Proof.
  induction s1 as [|c s1 IH]; [done|].
  change (S (String.length (s1 ++ s2))
          = S (String.length s1 + String.length s2)). by rewrite IH.
Qed.

Lemma str_get_append (pre suf : string) (c : ascii) :
  String.get (String.length pre) (pre ++ String c suf) = Some c.
Proof. induction pre as [|c' pre IH]; [done|]. exact IH. Qed.

Lemma str_append_assoc (s1 s2 s3 : string) :
  ((s1 ++ s2) ++ s3 = s1 ++ (s2 ++ s3))%string.
Proof.
  induction s1 as [|c s1 IH]; [done|].
  change (String c ((s1 ++ s2) ++ s3) = String c (s1 ++ (s2 ++ s3)))%string.
  by f_equal.
Qed.

Section digit_loops.
Variables (b : nat) (f : nat → nat).
Variable loop : string → list nat → nat → res nat.
Hypothesis loop_nil : ∀ g acc, loop g [] acc = Ok acc.
Hypothesis loop_cons : ∀ g i range acc,
  loop g (i :: range) acc
  = c ← str_index g (String.length g - i - 1)%nat;
    d ← int_of_char c;
    loop g range (acc + b ^ i * f d)%nat.

Lemma digit_loop_app (g : string) (l1 l2 : list nat) (acc : nat) :
  loop g (l1 ++ l2) acc = acc' ← loop g l1 acc; loop g l2 acc'.
Proof.
  revert acc. induction l1 as [|i l1 IH]; intros acc; simpl.
  - by rewrite loop_nil.
  - rewrite !loop_cons. destruct (str_index _ _) as [c|]; simpl; [|done].
    destruct (int_of_char c) as [d|]; simpl; [|done]. apply IH.
Qed.

Lemma digit_loop_suffix (suf : string) :
  ∀ (pre : string) (acc : nat),
  loop (pre ++ suf) (seq 0 (String.length suf)) acc
  = if all_digits suf then Ok (acc + positional b f suf)%nat
    else Raise ValueError.
Proof.
  induction suf as [|c suf IH]; intros pre acc.
  - simpl. rewrite loop_nil. f_equal. lia.
  - cbn [String.length all_digits positional].
    rewrite seq_S, digit_loop_app. simpl.
    replace (pre ++ String c suf)%string
      with ((pre ++ String c EmptyString) ++ suf)%string
      by (by rewrite str_append_assoc).
    rewrite IH. destruct (all_digits suf); [|by rewrite andb_false_r].
    cbn [mbind res_bind]. rewrite loop_cons, str_append_assoc.
    change (String c EmptyString ++ suf)%string with (String c suf).
    unfold str_index.
    replace (String.length (pre ++ String c suf) - String.length suf - 1)%nat
      with (String.length pre)
      by (rewrite str_length_append; simpl; lia).
    rewrite str_get_append. cbn [mbind res_bind].
    unfold int_of_char, is_digit, digit_value.
    destruct (bool_decide (48 ≤ nat_of_ascii c ≤ 57)%nat); simpl; [|done].
    rewrite loop_nil. f_equal. lia.
Qed.
End digit_loops.

(** X17: [index_from_type] and [membership_from_type] on strings of any
    length: a string of decimal digits is read as a number in base 3 (base 2
    for the membership, with every non-zero digit counting as 1), most
    significant digit first; digits above 2 are accepted, so that codes are
    not unique outside the three-letter alphabet (["09"] and ["30"] both give
    9); a string with any other character raises [ValueError], and a
    missing genotype raises [TypeError]. *)
Theorem genotype_codes_positional (g : string) :
  index_from_type (Some g)
  = (if all_digits g then Ok (positional 3 id g) else Raise ValueError)
  ∧ membership_from_type (Some g)
    = (if all_digits g then Ok (positional 2 (λ d, Nat.min d 1) g)
       else Raise ValueError)
  ∧ index_from_type None = Raise TypeError
  ∧ membership_from_type None = Raise TypeError
  ∧ index_from_type (Some "09"%string) = index_from_type (Some "30"%string).
Proof.
  split_and!; try done.
  - exact (digit_loop_suffix 3 id index_from_type_loop
             (λ _ _, eq_refl) (λ _ _ _ _, eq_refl) g EmptyString 0%nat).
  - exact (digit_loop_suffix 2 (λ d, Nat.min d 1) membership_from_type_loop
             (λ _ _, eq_refl) (λ _ _ _ _, eq_refl) g EmptyString 0%nat).
Qed.

(** ** The genotype tables *)

(** X18: the hard-coded genotype tables agree with each other: for every
    trio genotype [s] with code [i = typedict[s]], [type2trio[i]] is the
    class that [triotypedict] or [mistypedict] (which share no key and
    together have the keys of [typedict]) gives to [s], and [type2member[i]]
    is [membership_from_type(s)] with the classes 3 and 4 exchanged;
    [mistypes] lists exactly the codes whose class in [type2trio] is above
    10. *)
Theorem genotype_tables_consistent :
  map_Forall (λ s i,
      type2trio !! i = (triotypedict ∪ mistypedict) !! s
      ∧ (swap_3_4 <$> membership_from_type (Some s))
        = match type2member !! i with Some m => Ok m | None => Raise IndexError end)
    typedict
  ∧ triotypedict ##ₘ mistypedict
  ∧ dom (triotypedict ∪ mistypedict) = dom typedict
  ∧ mistypes
    = filter (λ i, (10 < default 0 (type2trio !! i))%nat) (seq 0 27).
Proof.
  split_and!.
  - apply (bool_decide_unpack _). by vm_compute.
  - apply (bool_decide_unpack _). by vm_compute.
  - apply (bool_decide_unpack _). by vm_compute.
  - by vm_compute.
Qed.

(** ** Best values over the tools *)

Lemma py_max_spec (x y : Qc) :
  (x ≤ py_max x y)%Qc ∧ (y ≤ py_max x y)%Qc
  ∧ (py_max x y = x ∨ py_max x y = y).
Proof.
  unfold py_max. case_decide as H.
  - split_and!; [by apply Qclt_le_weak|apply Qcle_refl|by right].
  - split_and!; [apply Qcle_refl|by apply Qcnot_lt_le|by left].
Qed.

Lemma py_min_spec (x y : Qc) :
  (py_min x y ≤ x)%Qc ∧ (py_min x y ≤ y)%Qc
  ∧ (py_min x y = x ∨ py_min x y = y).
Proof.
  unfold py_min. case_decide as H.
  - split_and!; [by apply Qclt_le_weak|apply Qcle_refl|by right].
  - split_and!; [apply Qcle_refl|by apply Qcnot_lt_le|by left].
Qed.

(** X19: [nonemax] and [nonemin] skip [None] and NaN: the result is always
    one of the two arguments; as soon as one argument is a number the
    result is a number, at least (at most, for [nonemin]) as large as every
    argument that is a number; the result is [None] only when both
    arguments are [None]. *)
Theorem nonemax_nonemin_numbers (v1 v2 : option pyfloat) :
  (nonemax v1 v2 = v1 ∨ nonemax v1 v2 = v2)
  ∧ (nonemin v1 v2 = v1 ∨ nonemin v1 v2 = v2)
  ∧ (∀ x, v1 = Some (PyFloat x) ∨ v2 = Some (PyFloat x) →
       ∃ m, nonemax v1 v2 = Some (PyFloat m) ∧ (x ≤ m)%Qc)
  ∧ (∀ x, v1 = Some (PyFloat x) ∨ v2 = Some (PyFloat x) →
       ∃ m, nonemin v1 v2 = Some (PyFloat m) ∧ (m ≤ x)%Qc)
  ∧ (nonemax v1 v2 = None ↔ v1 = None ∧ v2 = None)
  ∧ (nonemin v1 v2 = None ↔ v1 = None ∧ v2 = None).
Proof.
  split_and!.
  - destruct v1 as [[|x]|], v2 as [[|y]|]; simpl; auto.
    destruct (py_max_spec x y) as (_ & _ & [-> | ->]); auto.
  - destruct v1 as [[|x]|], v2 as [[|y]|]; simpl; auto.
    destruct (py_min_spec x y) as (_ & _ & [-> | ->]); auto.
  - intros x [-> | ->].
    + destruct v2 as [[|y]|]; simpl;
        try (exists x; split; [done|apply Qcle_refl]).
      exists (py_max x y). split; [done|]. apply py_max_spec.
    + destruct v1 as [[|y]|]; simpl;
        try (exists x; split; [done|apply Qcle_refl]).
      exists (py_max y x). split; [done|]. apply py_max_spec.
  - intros x [-> | ->].
    + destruct v2 as [[|y]|]; simpl;
        try (exists x; split; [done|apply Qcle_refl]).
      exists (py_min x y). split; [done|]. apply py_min_spec.
    + destruct v1 as [[|y]|]; simpl;
        try (exists x; split; [done|apply Qcle_refl]).
      exists (py_min y x). split; [done|]. apply py_min_spec.
  - destruct v1 as [[|x]|], v2 as [[|y]|]; simpl; naive_solver.
  - destruct v1 as [[|x]|], v2 as [[|y]|]; simpl; naive_solver.
Qed.

Lemma foldl_improve_field (f : ToolStatistics → option pyfloat)
    (op : option pyfloat → option pyfloat → option pyfloat)
    (tools : list ToolStatistics) :
  (∀ a b, f (improve a b) = op (f a) (f b)) →
  ∀ init, f (foldl improve init tools) = foldl op (f init) (f <$> tools).
Proof.
  intros Hf. induction tools as [|ts tools IH]; intros init; simpl; [done|].
  by rewrite IH, Hf.
Qed.

Lemma foldl_nonemax_spec (l : list (option pyfloat)) :
  ∀ init,
  (∀ x, init = Some (PyFloat x) ∨ Some (PyFloat x) ∈ l →
     ∃ m, foldl nonemax init l = Some (PyFloat m) ∧ (x ≤ m)%Qc)
  ∧ (foldl nonemax init l = init ∨ foldl nonemax init l ∈ l).
Proof.
  induction l as [|v l IH]; intros init; simpl.
  - split; [|by left]. intros x [-> |Hx]; [|by apply elem_of_nil in Hx].
    exists x. split; [done|apply Qcle_refl].
  - destruct (IH (nonemax init v)) as [Hge Hin].
    destruct (nonemax_nonemin_numbers init v) as (Hor & _ & Hmax & _).
    split.
    + intros x Hx.
      assert (Hx' : init = Some (PyFloat x) ∨ v = Some (PyFloat x)
                    ∨ Some (PyFloat x) ∈ l).
      { destruct Hx as [?|[?|?]%elem_of_cons]; auto. }
      destruct Hx' as [Hx'|[Hx'|Hx']].
      * destruct (Hmax x (or_introl Hx')) as (m & Hm & Hle).
        destruct (Hge m (or_introl Hm)) as (m' & Hm' & Hle').
        exists m'. split; [done|]. by eapply Qcle_trans.
      * destruct (Hmax x (or_intror Hx')) as (m & Hm & Hle).
        destruct (Hge m (or_introl Hm)) as (m' & Hm' & Hle').
        exists m'. split; [done|]. by eapply Qcle_trans.
      * by apply Hge; right.
    + destruct Hin as [Hin|Hin]; [|right; by right].
      rewrite Hin. destruct Hor as [-> | ->]; [by left|right; by left].
Qed.

Lemma foldl_nonemin_spec (l : list (option pyfloat)) :
  ∀ init,
  (∀ x, init = Some (PyFloat x) ∨ Some (PyFloat x) ∈ l →
     ∃ m, foldl nonemin init l = Some (PyFloat m) ∧ (m ≤ x)%Qc)
  ∧ (foldl nonemin init l = init ∨ foldl nonemin init l ∈ l).
Proof.
  induction l as [|v l IH]; intros init; simpl.
  - split; [|by left]. intros x [-> |Hx]; [|by apply elem_of_nil in Hx].
    exists x. split; [done|apply Qcle_refl].
  - destruct (IH (nonemin init v)) as [Hge Hin].
    destruct (nonemax_nonemin_numbers init v) as (_ & Hor & _ & Hmin & _).
    split.
    + intros x Hx.
      assert (Hx' : init = Some (PyFloat x) ∨ v = Some (PyFloat x)
                    ∨ Some (PyFloat x) ∈ l).
      { destruct Hx as [?|[?|?]%elem_of_cons]; auto. }
      destruct Hx' as [Hx'|[Hx'|Hx']].
      * destruct (Hmin x (or_introl Hx')) as (m & Hm & Hle).
        destruct (Hge m (or_introl Hm)) as (m' & Hm' & Hle').
        exists m'. split; [done|]. by eapply Qcle_trans.
      * destruct (Hmin x (or_intror Hx')) as (m & Hm & Hle).
        destruct (Hge m (or_introl Hm)) as (m' & Hm' & Hle').
        exists m'. split; [done|]. by eapply Qcle_trans.
      * by apply Hge; right.
    + destruct Hin as [Hin|Hin]; [|right; by right].
      rewrite Hin. destruct Hor as [-> | ->]; [by left|right; by left].
Qed.

Lemma best_statistics_max (f : ToolStatistics → option pyfloat)
    (tools : list ToolStatistics) :
  (∀ a b, f (improve a b) = nonemax (f a) (f b)) →
  f (ToolStatistics_init None) = None →
  ∀ ts x, ts ∈ tools → f ts = Some (PyFloat x) →
    ∃ m ts', f (best_statistics tools) = Some (PyFloat m) ∧ (x ≤ m)%Qc
             ∧ ts' ∈ tools ∧ f ts' = Some (PyFloat m).
Proof.
  intros Hf Hinit ts x Hts Hx. unfold best_statistics.
  rewrite (foldl_improve_field f nonemax tools Hf), Hinit.
  destruct (foldl_nonemax_spec (f <$> tools) None) as [Hge Hin].
  destruct (Hge x) as (m & Hm & Hle).
  { right. rewrite <-Hx. by apply list_elem_of_fmap_2. }
  rewrite Hm in Hin. destruct Hin as [[=]|Hin].
  apply list_elem_of_fmap in Hin as (ts' & Hts' & Hin').
  by exists m, ts'.
Qed.

Lemma best_statistics_min (f : ToolStatistics → option pyfloat)
    (tools : list ToolStatistics) :
  (∀ a b, f (improve a b) = nonemin (f a) (f b)) →
  f (ToolStatistics_init None) = None →
  ∀ ts x, ts ∈ tools → f ts = Some (PyFloat x) →
    ∃ m ts', f (best_statistics tools) = Some (PyFloat m) ∧ (m ≤ x)%Qc
             ∧ ts' ∈ tools ∧ f ts' = Some (PyFloat m).
Proof.
  intros Hf Hinit ts x Hts Hx. unfold best_statistics.
  rewrite (foldl_improve_field f nonemin tools Hf), Hinit.
  destruct (foldl_nonemin_spec (f <$> tools) None) as [Hge Hin].
  destruct (Hge x) as (m & Hm & Hle).
  { right. rewrite <-Hx. by apply list_elem_of_fmap_2. }
  rewrite Hm in Hin. destruct Hin as [[=]|Hin].
  apply list_elem_of_fmap in Hin as (ts' & Hts' & Hin').
  by exists m, ts'.
Qed.

(** X20: the record of best values that the LaTeX report builds by
    [best.improve(tool_stats)] over all tools: for recall, precision,
    MIX-hit rate, exclusivity and F-measure of insertions and of deletions,
    the best value is a number as soon as one tool has a number there, it is
    at least as large as every tool's number and is the value of some tool;
    for the average length difference and distance it is at most as large;
    [None] and NaN entries of tools never displace a number.  [improve]
    resets the name and leaves counts and genotype tables alone. *)
Theorem best_statistics_spec (tools : list ToolStatistics) :
  Forall (λ f : ToolStatistics → option pyfloat,
            ∀ ts x, ts ∈ tools → f ts = Some (PyFloat x) →
              ∃ m ts', f (best_statistics tools) = Some (PyFloat m)
                       ∧ (x ≤ m)%Qc
                       ∧ ts' ∈ tools ∧ f ts' = Some (PyFloat m))
         improve_max_fields
  ∧ Forall (λ f : ToolStatistics → option pyfloat,
              ∀ ts x, ts ∈ tools → f ts = Some (PyFloat x) →
                ∃ m ts', f (best_statistics tools) = Some (PyFloat m)
                         ∧ (m ≤ x)%Qc
                         ∧ ts' ∈ tools ∧ f ts' = Some (PyFloat m))
           improve_min_fields
  ∧ (∀ a b, name (improve a b) = None
            ∧ improve_kept_fields (improve a b) = improve_kept_fields a).
Proof.
  split_and!.
  - unfold improve_max_fields.
    repeat (apply Forall_cons_2; [by apply best_statistics_max|]).
    apply Forall_nil_2.
  - unfold improve_min_fields.
    repeat (apply Forall_cons_2; [by apply best_statistics_min|]).
    apply Forall_nil_2.
  - done.
Qed.

Lemma nonemax_nonemin_numbers_witness :
  ∃ m, nonemax (Some PyNaN) (Some (PyFloat (Qc_of_Z 3))) = Some (PyFloat m)
       ∧ (Qc_of_Z 3 ≤ m)%Qc.
Proof.
  destruct (nonemax_nonemin_numbers (Some PyNaN) (Some (PyFloat (Qc_of_Z 3))))
    as (_ & _ & Hmax & _).
  apply Hmax. by right.
Defined.

Lemma best_statistics_spec_witness :
  ∃ m, insertion_exclusivity
         (best_statistics
            [set_exclusivity (ToolStatistics_init (Some "a")) PyNaN PyNaN;
             set_exclusivity (ToolStatistics_init (Some "b"))
               (PyFloat (Qc_of_Z 1)) PyNaN])
       = Some (PyFloat m) ∧ (Qc_of_Z 1 ≤ m)%Qc.
Proof.
  destruct (best_statistics_spec
              [set_exclusivity (ToolStatistics_init (Some "a")) PyNaN PyNaN;
               set_exclusivity (ToolStatistics_init (Some "b"))
                 (PyFloat (Qc_of_Z 1)) PyNaN])
    as (Hmax & _ & _).
  assert (Hin : insertion_exclusivity ∈ improve_max_fields).
  { unfold improve_max_fields. do 3 right. by left. }
  destruct (proj1 (Forall_forall _ _) Hmax insertion_exclusivity Hin
              (set_exclusivity (ToolStatistics_init (Some "b"))
                 (PyFloat (Qc_of_Z 1)) PyNaN) (Qc_of_Z 1))
    as (m & _ & Hm & Hle & _).
  - right. by left.
  - reflexivity.
  - by exists m.
Defined.
